(** * Zero-Vector holographic memory engine: a shallow embedding

    The three classes of [src/holographic] are embedded as pure functions
    with explicit state passing:

    - [HolographicMemorySystem]  (fragment store, reconstruction, cache),
    - [InterferenceEngine]       (pairwise scoring, emergent behaviours),
    - [HolographicWaveEngine]    (propagation, decay, graceful degradation).

    The store that owns the engine ([src/stores/holographicStore.ts]) and
    the caller of the graceful degradation in [CognitiveEngine] follow the
    example data.

    Conventions of the embedding.

    - A JavaScript [number] that holds a measurement (amplitude, phase,
      frequency, coherence) is a real number of [R]; a number that holds an
      integer (the 32-bit hash, a [Date] in milliseconds) is a [Z].
    - A JavaScript string is a [string] whose characters are read as
      UTF-16 code units below 256.
    - A JavaScript [Map] is an association list in insertion order, with
      the update-in-place behaviour of [Map.prototype.set].
    - [Date.now()] and [Math.random()] are inputs: every operation takes
      the clock reading [now] and the random suffixes it consumes. *)

From Stdlib Require Import Reals Lra Lia ZArith List String Ascii Bool.
From Stdlib Require Import DecimalString Permutation Sorted Classical.
Import ListNotations.

Open Scope string_scope.
Open Scope Z_scope.

(** ** JavaScript primitives used by the engine *)

Module JS.

(** *** Strings *)

Definition code (c : ascii) : Z := Z.of_N (N_of_ascii c).

(** [String.prototype.toLowerCase] on code units below 256: the ASCII
    capitals and the Latin-1 capitals (U+00C0..U+00DE without U+00D7). *)
Definition lower_char (c : ascii) : ascii :=
  let n := N_of_ascii c in
  if ((65 <=? n) && (n <=? 90))%N then ascii_of_N (n + 32)
  else if ((192 <=? n) && (n <=? 222) && negb (n =? 215))%N
       then ascii_of_N (n + 32)
       else c.

Fixpoint toLowerCase (s : string) : string :=
  match s with
  | EmptyString => EmptyString
  | String c r => String (lower_char c) (toLowerCase r)
  end.

(** [s.split(' ')]: the empty string yields one empty word. *)
Fixpoint split_space (s : string) : list string :=
  match s with
  | EmptyString => [EmptyString]
  | String c r =>
      if Ascii.eqb c " " then EmptyString :: split_space r
      else match split_space r with
           | w :: ws => String c w :: ws
           | [] => [String c EmptyString]
           end
  end.

(** The white space of [\s] and of [trim] among code units below 256. *)
Definition is_space (c : ascii) : bool :=
  let n := N_of_ascii c in
  ((n =? 9) || (n =? 10) || (n =? 11) || (n =? 12) || (n =? 13)
   || (n =? 32) || (n =? 160))%N.

(** [s.split(/\s+/)]: [prev] tells whether the previous character
    belonged to a separator. *)
Fixpoint split_ws_from (prev : bool) (s : string) : list string :=
  match s with
  | EmptyString => [EmptyString]
  | String c r =>
      if is_space c then
        if prev then split_ws_from true r
        else EmptyString :: split_ws_from true r
      else match split_ws_from false r with
           | w :: ws => String c w :: ws
           | [] => [String c EmptyString]
           end
  end.

Definition split_ws (s : string) : list string := split_ws_from false s.

(** [s.includes(sub)]. *)
Fixpoint includes (s sub : string) : bool :=
  String.prefix sub s
  || match s with
     | EmptyString => false
     | String _ r => includes r sub
     end.

(** [s.substring(0, n)]. *)
Definition substring0 (n : nat) (s : string) : string :=
  String.substring 0 n s.

Fixpoint trim_start (s : string) : string :=
  match s with
  | EmptyString => EmptyString
  | String c r => if is_space c then trim_start r else s
  end.

(** Removes trailing white space; the result is empty when only white
    space is left. *)
Fixpoint trim_end (s : string) : string :=
  match s with
  | EmptyString => EmptyString
  | String c r =>
      match trim_end r with
      | EmptyString => if is_space c then EmptyString
                       else String c EmptyString
      | r' => String c r'
      end
  end.

Definition trim (s : string) : string := trim_end (trim_start s).

(** [l.join(sep)]. *)
Definition join (sep : string) (l : list string) : string :=
  String.concat sep l.

(** [l.includes(x)] on an array of strings. *)
Definition array_includes (l : list string) (x : string) : bool :=
  existsb (String.eqb x) l.

(** [l.slice(0, n)] and [l.slice(n)]. *)
Definition slice_to {A} (n : nat) (l : list A) : list A := firstn n l.
Definition slice_from {A} (n : nat) (l : list A) : list A := skipn n l.

(** [Array.prototype.sort] is stable; on a comparator that is a total
    preorder its result is the stable insertion sort below.  [le a b]
    reads "the comparator does not put [b] before [a]". *)
Fixpoint insert_sorted {A} (le : A -> A -> bool) (x : A) (l : list A)
  : list A :=
  match l with
  | [] => [x]
  | y :: r => if le x y then x :: y :: r
              else y :: insert_sorted le x r
  end.

Definition sort_by {A} (le : A -> A -> bool) (l : list A) : list A :=
  fold_right (insert_sorted le) [] l.

(** [l.sort()] on strings: order of the code units. *)
Definition sort_strings (l : list string) : list string :=
  sort_by String.leb l.

(** [[...new Set(l)]]: first occurrences, in order. *)
Fixpoint unique_seen (seen l : list string) : list string :=
  match l with
  | [] => []
  | x :: r => if array_includes seen x then unique_seen seen r
              else x :: unique_seen (x :: seen) r
  end.

Definition unique (l : list string) : list string := unique_seen [] l.

(** Decimal rendering of an integer inside a template string. *)
Definition show (z : Z) : string := NilZero.string_of_int (Z.to_int z).

(** *** 32-bit integers *)

(** [ToInt32]. *)
Definition to_int32 (x : Z) : Z :=
  let m := x mod 4294967296 in
  if m <? 2147483648 then m else m - 4294967296.

(** [a << n] and [a & b] on numbers that hold integers. *)
Definition shl (a n : Z) : Z := to_int32 (Z.shiftl (to_int32 a) n).
Definition band (a b : Z) : Z := Z.land (to_int32 a) (to_int32 b).

(** *** Comparisons of numbers *)

Definition ltb (x y : R) : bool := if Rlt_dec x y then true else false.
Definition gtb (x y : R) : bool := ltb y x.
Definition leb (x y : R) : bool := negb (ltb y x).

End JS.

(** ** [src/types/holographic.ts] *)

Inductive WaveType : Type :=
  | CONTEXT | INTENT | CONFIDENCE | TEMPORAL
  | MEMORY | PERSONA | REASONING | VISUAL.

Definition WaveType_eqb (a b : WaveType) : bool :=
  match a, b with
  | CONTEXT, CONTEXT | INTENT, INTENT | CONFIDENCE, CONFIDENCE
  | TEMPORAL, TEMPORAL | MEMORY, MEMORY | PERSONA, PERSONA
  | REASONING, REASONING | VISUAL, VISUAL => true
  | _, _ => false
  end.

(** The value of the enumeration member, a string. *)
Definition WaveType_name (w : WaveType) : string :=
  match w with
  | CONTEXT => "CONTEXT" | INTENT => "INTENT"
  | CONFIDENCE => "CONFIDENCE" | TEMPORAL => "TEMPORAL"
  | MEMORY => "MEMORY" | PERSONA => "PERSONA"
  | REASONING => "REASONING" | VISUAL => "VISUAL"
  end.

Open Scope R_scope.

Definition WaveFrequencies (w : WaveType) : R :=
  match w with
  | CONTEXT => 0.5 | INTENT => 1.0 | CONFIDENCE => 2.0 | TEMPORAL => 0.8
  | MEMORY => 0.3 | PERSONA => 0.2 | REASONING => 1.2 | VISUAL => 1.5
  end.

Module Fragment.
Record t : Type := mk {
  id : string;
  content : string;
  sourceRegion : string;
  waveType : WaveType;
  frequency : R;
  amplitude : R;
  phase : R;
  timestamp : Z;            (* a valid [Date], in milliseconds *)
  importance : R;
  coherenceSignature : string;
  sessionId : string
}.
End Fragment.

(** ** The phase hash, shared by the store and the wave engine *)

Definition hash_step (hash : Z) (c : ascii) : Z :=
  JS.band (JS.shl hash 5 - hash + JS.code c)%Z 4294967295.

Fixpoint hash_loop (hash : Z) (str : string) : Z :=
  match str with
  | EmptyString => hash
  | String c r => hash_loop (hash_step hash c) r
  end.

(** [(Math.abs(hash) % 628) / 100]. *)
Definition phase_of_hash (hash : Z) : R :=
  IZR (Z.abs hash mod 628) / 100.

Definition calculatePhase (content sourceRegion : string) : R :=
  phase_of_hash (hash_loop 0 (content ++ sourceRegion)).

(** ** [generateCoherenceSignature] *)

Definition significant_words (content : string) : list string :=
  filter (fun w => (3 <? String.length w)%nat)
         (JS.split_space (JS.toLowerCase content)).

Definition generateCoherenceSignature (content : string) : string :=
  JS.join "|" (JS.sort_strings (JS.slice_to 5 (significant_words content))).

(** ** JavaScript [Map]: an association list in insertion order *)

Module JsMap.

Definition t (V : Type) : Type := list (string * V).

Definition empty {V} : t V := [].

(** [m.set(k, v)]: a present key keeps its position. *)
Fixpoint set {V} (k : string) (v : V) (m : t V) : t V :=
  match m with
  | [] => [(k, v)]
  | (k', v') :: r =>
      if String.eqb k' k then (k, v) :: r else (k', v') :: set k v r
  end.

Fixpoint get {V} (k : string) (m : t V) : option V :=
  match m with
  | [] => None
  | (k', v') :: r => if String.eqb k' k then Some v' else get k r
  end.

Definition has {V} (k : string) (m : t V) : bool :=
  match get k m with Some _ => true | None => false end.

(** [m.delete(k)]: no entry under [k] is left. *)
Definition delete {V} (k : string) (m : t V) : t V :=
  filter (fun kv => negb (String.eqb (fst kv) k)) m.

Definition keys {V} (m : t V) : list string := map fst m.
Definition values {V} (m : t V) : list V := map snd m.
Definition size {V} (m : t V) : nat := List.length m.

End JsMap.

(** ** Configuration ([HolographicConfig]) *)

Record InterferenceConfig : Type := {
  constructiveThreshold : R;
  destructiveThreshold : R;
  emergentThreshold : R;
  coherenceDecayRate : R
}.

(** [maxFragmentsPerRegion] is a count: a natural number. *)
Record MemoryConfig : Type := {
  maxFragmentsPerRegion : nat;
  reconstructionThreshold : R;
  fragmentPersistence : R;
  crossSessionEnabled : bool
}.

Record DegradationConfig : Type := {
  enabled : bool;
  reconstructionAttempts : nat;
  minimumCoherence : R;
  fallbackRegions : list string
}.

(** The engine never reads [frequencies]: frequencies come from the static
    table [WaveFrequencies]. *)
Record HolographicConfig : Type := {
  frequencies : WaveType -> R;
  interference : InterferenceConfig;
  memory : MemoryConfig;
  degradation : DegradationConfig
}.

(** ** [HolographicMemorySystem] *)

Module Memory.

(** *** The persisted blob ([localStorage], key
    [zv6_holographic_fragments]) after [JSON.parse] *)

(** The [timestamp] field of a parsed entry.  [TsString p]: a JSON
    string, [p] the milliseconds of [new Date(s)], [None] when the date
    is invalid.  [TsOther p]: the field is missing or holds a value that
    is not a string; [p] is what [new Date(v).getTime()] gives.
    [TsUnreadable]: the entry itself is [null], so that reading
    [timestamp], or any other field of it, throws; the other fields of
    such a record stand for nothing. *)
Inductive RawTimestamp : Type :=
  | TsString (parsed : option Z)
  | TsOther (asDate : option Z)
  | TsUnreadable.

Record Persisted : Type := mkPersisted {
  p_id : string;
  p_content : string;
  p_sourceRegion : string;
  p_waveType : WaveType;
  p_frequency : R;
  p_amplitude : R;
  p_phase : R;
  p_timestamp : RawTimestamp;
  p_importance : R;
  p_coherenceSignature : string;
  p_sessionId : string
}.

(** [None]: the key is absent or its text does not parse.  Otherwise
    the text parses to an object (the engine writes nothing else): its
    entries are records with the fields of a fragment, or [null], in the
    order of [Object.values] (insertion order: the ids are not array
    indices). *)
Definition Storage : Type := option (JsMap.t Persisted).

Record State : Type := mkState {
  fragments : JsMap.t Fragment.t;
  coherenceMap : JsMap.t R;
  reconstructionCache : JsMap.t string;
  localStorage : Storage
}.

Definition sevenDays : Z := 7 * 24 * 60 * 60 * 1000.

Definition getPersistedFragments (st : Storage) : JsMap.t Persisted :=
  match st with Some m => m | None => JsMap.empty end.

(** What [JSON.stringify] then [JSON.parse] make of a fragment. *)
Definition serialize (f : Fragment.t) : Persisted :=
  mkPersisted (Fragment.id f) (Fragment.content f)
    (Fragment.sourceRegion f) (Fragment.waveType f)
    (Fragment.frequency f) (Fragment.amplitude f) (Fragment.phase f)
    (TsString (Some (Fragment.timestamp f))) (Fragment.importance f)
    (Fragment.coherenceSignature f) (Fragment.sessionId f).

(** [new Date(f.timestamp).getTime()] in [persistFragment]; on a
    [null] entry the read throws and the [catch] of the filter drops the
    entry. *)
Definition raw_time (r : RawTimestamp) : option Z :=
  match r with
  | TsString p => p
  | TsOther p => p
  | TsUnreadable => None
  end.

Definition recent (now : Z) (p : Persisted) : bool :=
  match raw_time (p_timestamp p) with
  | Some t => (now - t <? sevenDays)%Z
  | None => false
  end.

Definition persistFragment (now : Z) (f : Fragment.t) (st : Storage)
  : Storage :=
  let persistedFragments :=
    JsMap.set (Fragment.id f) (serialize f) (getPersistedFragments st) in
  let recentFragments :=
    fold_left (fun acc p => JsMap.set (p_id p) p acc)
              (filter (recent now) (JsMap.values persistedFragments))
              JsMap.empty in
  Some recentFragments.

Definition generateFragmentId (now : Z) (rand : string) : string :=
  "frag_" ++ JS.show now ++ "_" ++ rand.

Definition updateCoherenceMap (f : Fragment.t) (m : JsMap.t R)
  : JsMap.t R :=
  JsMap.set (Fragment.id f) (Fragment.amplitude f) m.

(** *** [cleanupOldFragments] *)

(** The comparator [timestampB - timestampA]: newest first. *)
Definition newer_first (a b : Fragment.t) : bool :=
  (Fragment.timestamp b <=? Fragment.timestamp a)%Z.

Definition in_region (region : string) (f : Fragment.t) : bool :=
  String.eqb (Fragment.sourceRegion f) region.

Definition regionFragments (region : string) (s : State)
  : list Fragment.t :=
  JS.sort_by newer_first
    (filter (in_region region) (JsMap.values (fragments s))).

Definition remove_fragment (s : State) (f : Fragment.t) : State :=
  mkState (JsMap.delete (Fragment.id f) (fragments s))
          (JsMap.delete (Fragment.id f) (coherenceMap s))
          (reconstructionCache s) (localStorage s).

Definition cleanupOldFragments (cfg : HolographicConfig)
  (region : string) (s : State) : State :=
  let rf := regionFragments region s in
  let cap := maxFragmentsPerRegion (memory cfg) in
  if (cap <? List.length rf)%nat
  then fold_left remove_fragment (JS.slice_from cap rf) s
  else s.

(** *** [storeFragment] *)

Definition newFragment (now : Z) (rand : string)
  (content sourceRegion : string) (waveType : WaveType)
  (importance : R) (sessionId : string) : Fragment.t :=
  Fragment.mk (generateFragmentId now rand) content sourceRegion waveType
    (WaveFrequencies waveType) importance
    (calculatePhase content sourceRegion) now importance
    (generateCoherenceSignature content) sessionId.

(** [importance] is [None] when the argument is omitted: the default
    is 0.5.  The result is the returned id and the next state. *)
Definition storeFragment (cfg : HolographicConfig) (now : Z)
  (rand : string) (content sourceRegion : string) (waveType : WaveType)
  (importance : option R) (sessionId : string) (s : State)
  : string * State :=
  let imp := match importance with Some x => x | None => 0.5 end in
  let fragment :=
    newFragment now rand content sourceRegion waveType imp sessionId in
  let s1 :=
    mkState (JsMap.set (Fragment.id fragment) fragment (fragments s))
            (updateCoherenceMap fragment (coherenceMap s))
            (reconstructionCache s)
            (if crossSessionEnabled (memory cfg)
             then persistFragment now fragment (localStorage s)
             else localStorage s) in
  (Fragment.id fragment, cleanupOldFragments cfg sourceRegion s1).

(** *** [loadPersistedFragments] *)

(** The timestamp check: a string is converted with [new Date]; what is
    then not a valid [Date] is rejected. *)
Definition validTimestamp (r : RawTimestamp) : option Z :=
  match r with
  | TsString (Some t) => Some t
  | TsString None => None
  | TsOther _ => None
  | TsUnreadable => None
  end.

Definition decayFactor (now t : Z) : R :=
  exp (- IZR (now - t) / IZR sevenDays).

(** The fragment an entry becomes, if it is accepted. *)
Definition restore (now : Z) (p : Persisted) : option Fragment.t :=
  match validTimestamp (p_timestamp p) with
  | None => None
  | Some t =>
      let amplitude := p_amplitude p * decayFactor now t in
      if JS.gtb amplitude 0.1
      then Some (Fragment.mk (p_id p) (p_content p) (p_sourceRegion p)
                   (p_waveType p) (p_frequency p) amplitude (p_phase p)
                   t (p_importance p) (p_coherenceSignature p)
                   (p_sessionId p))
      else None
  end.

(** One turn of the loop of [loadPersistedFragments]; [None] when the
    turn throws out of the loop.  On an entry that is [null] the read of
    [fragment.timestamp] throws inside the [try]; the handler of the
    inner [catch] reads [fragment.id] for its warning and throws again;
    that exception leaves [forEach] and is caught by the outer [catch],
    which ends the load.  Every other entry is accepted or skipped. *)
Definition load_entry (now : Z) (s : State) (p : Persisted)
  : option State :=
  match p_timestamp p with
  | TsUnreadable => None
  | _ =>
      Some (match restore now p with
            | Some f =>
                mkState (JsMap.set (Fragment.id f) f (fragments s))
                        (updateCoherenceMap f (coherenceMap s))
                        (reconstructionCache s) (localStorage s)
            | None => s
            end)
  end.

(** The loop: the fragments set before a turn throws stay. *)
Fixpoint load_entries (now : Z) (ps : list Persisted) (s : State)
  : State :=
  match ps with
  | [] => s
  | p :: r =>
      match load_entry now s p with
      | Some s' => load_entries now r s'
      | None => s
      end
  end.

Definition loadPersistedFragments (cfg : HolographicConfig) (now : Z)
  (s : State) : State :=
  if crossSessionEnabled (memory cfg)
  then load_entries now
         (JsMap.values (getPersistedFragments (localStorage s))) s
  else s.

(** [new HolographicMemorySystem(config)]. *)
Definition construct (cfg : HolographicConfig) (now : Z)
  (storage : Storage) : State :=
  loadPersistedFragments cfg now
    (mkState JsMap.empty JsMap.empty JsMap.empty storage).

(** *** [reconstructInformation] *)

(** What the code observes of [targetContext: any]: its
    [JSON.stringify] and its [type] property. *)
Inductive JsonText : Type :=
  | JsonThrows                (* a cyclic structure, a BigInt *)
  | JsonUndefined             (* [undefined], a function, a symbol *)
  | JsonString (s : string).

Inductive TypeField : Type :=
  | TypeUnreadable            (* the context is [null]: reading throws *)
  | TypeAbsent                (* missing, falsy, or not a string *)
  | TypeString (s : string).

Record Context : Type := mkContext {
  json : JsonText;
  type_field : TypeField
}.

(** The outcome of a call that may throw. *)
Inductive Outcome (A : Type) : Type :=
  | Thrown
  | Returned (a : A).
Arguments Thrown {A}.
Arguments Returned {A} a.

Definition word_overlap (a b : string) : bool :=
  JS.includes b a || JS.includes a b.

(** [targetContext.type && targetContext.type === fragment.waveType];
    [None] when reading the property throws. *)
Definition type_matches (c : Context) (f : Fragment.t) : option bool :=
  match type_field c with
  | TypeUnreadable => None
  | TypeAbsent => Some false
  | TypeString s =>
      Some (negb (String.eqb s EmptyString)
            && String.eqb s (WaveType_name (Fragment.waveType f)))
  end.

Definition temporalBoost (now : Z) (f : Fragment.t) : R :=
  let ageHours := IZR (now - Fragment.timestamp f) / (1000 * 60 * 60) in
  Rmax 0 (1 - ageHours / 24).

(** The words of the fragment that overlap a word of the context. *)
Definition commonContextWords (contextString : string) (f : Fragment.t)
  : list string :=
  let contentWords :=
    JS.split_space (JS.toLowerCase (Fragment.content f)) in
  let contextWords := JS.split_space contextString in
  filter (fun word => existsb (word_overlap word) contextWords)
         contentWords.

(** The score of one fragment; [None] when the body of the loop throws
    and the fragment is skipped by the [catch].  The timestamp of a
    stored fragment is always a valid [Date] (it comes from [new Date()]
    or has passed the check of the load), so the temporal boost is always
    added. *)
Definition relevanceScore (now : Z) (contextString : string)
  (c : Context) (f : Fragment.t) : option R :=
  let commonWords := commonContextWords contextString f in
  let s1 := 0 + INR (List.length commonWords) * 0.1 in
  match type_matches c f with
  | None => None
  | Some tm =>
      let s2 := if tm then s1 + 0.3 else s1 in
      let s3 := s2 + temporalBoost now f * 0.2 in
      Some (s3 * Fragment.importance f)
  end.

Definition is_relevant (now : Z) (contextString : string) (c : Context)
  (f : Fragment.t) : bool :=
  match relevanceScore now contextString c f with
  | Some score => JS.gtb score 0.2
  | None => false
  end.

(** The comparator [b.importance - a.importance]. *)
Definition more_important_first (a b : Fragment.t) : bool :=
  JS.leb (Fragment.importance b) (Fragment.importance a).

(** [contextString] is [JSON.stringify(targetContext).toLowerCase()]. *)
Definition findRelevantFragments (now : Z) (contextString : string)
  (c : Context) (s : State) : list Fragment.t :=
  JS.sort_by more_important_first
    (filter (is_relevant now contextString c)
            (JsMap.values (fragments s))).

Definition contentWords (f : Fragment.t) : list string :=
  JS.split_space (JS.toLowerCase (Fragment.content f)).

(** The words of the first fragment that the second has too. *)
Definition sharedWords (frag1 frag2 : Fragment.t) : list string :=
  filter (JS.array_includes (contentWords frag2)) (contentWords frag1).

Definition calculateFragmentCoherence (frag1 frag2 : Fragment.t) : R :=
  let freqDiff := Rabs (Fragment.frequency frag1 - Fragment.frequency frag2) in
  let freqCoherence := exp (- freqDiff) in
  let phaseDiff := Rabs (Fragment.phase frag1 - Fragment.phase frag2) in
  let phaseCoherence := cos phaseDiff in
  let contentCoherence :=
    INR (List.length (sharedWords frag1 frag2))
    / INR (Nat.max (List.length (contentWords frag1))
                   (List.length (contentWords frag2))) in
  freqCoherence * 0.3 + phaseCoherence * 0.3 + contentCoherence * 0.4.

(** The double loop over [i < j]: the running total and the pair
    count. *)
Fixpoint pair_totals (l : list Fragment.t) (acc : R * nat) : R * nat :=
  match l with
  | [] => acc
  | f :: r =>
      pair_totals r
        (fold_left (fun a g =>
                      (fst a + calculateFragmentCoherence f g, S (snd a)))
                   r acc)
  end.

Definition assessReconstructionViability (l : list Fragment.t) : R :=
  match l with
  | [] => 0
  | _ =>
      let (totalCoherence, pairCount) := pair_totals l (0, 0%nat) in
      let averageCoherence :=
        if (0 <? pairCount)%nat then totalCoherence / INR pairCount
        else 0 in
      let countBoost := Rmin 1 (INR (List.length l) / 5) in
      averageCoherence * 0.7 + countBoost * 0.3
  end.

(** The summed amplitude of the fragments whose content includes the
    first 50 characters of [content]. *)
Definition totalAmplitude (l : list Fragment.t) (content : string) : R :=
  let relevantFragments :=
    filter (fun f => JS.includes (Fragment.content f)
                                 (JS.substring0 50 content)) l in
  fold_left (fun sum f => sum + Fragment.amplitude f)
            relevantFragments 0.

(** The frequency map that the source accumulates first is never read
    when the text is built; only the text is embedded. *)
Definition performHolographicReconstruction (l : list Fragment.t)
  : string :=
  let uniqueContent := JS.unique (map Fragment.content l) in
  let reconstructed :=
    fold_left
      (fun acc content =>
         if JS.gtb (totalAmplitude l content) 0.3
         then acc ++ content ++ " "
         else acc)
      uniqueContent EmptyString in
  JS.trim reconstructed.

Definition cache_set (k v : string) (s : State) : State :=
  mkState (fragments s) (coherenceMap s)
          (JsMap.set k v (reconstructionCache s)) (localStorage s).

(** The body of [reconstructInformation] after the cache lookup has
    missed, up to the text that is returned and cached. *)
Definition reconstructFresh (now : Z) (cacheKey : string)
  (targetContext : Context) (required : R) (s : State)
  : option string :=
  let relevantFragments :=
    findRelevantFragments now (JS.toLowerCase cacheKey)
                          targetContext s in
  match relevantFragments with
  | [] => None
  | _ =>
      let viability :=
        assessReconstructionViability relevantFragments in
      if JS.ltb viability required then None
      else Some (performHolographicReconstruction relevantFragments)
  end.

(** [requiredCoherence] is [None] when the argument is omitted: the
    default is 0.6.  A key that [JSON.stringify] leaves [undefined] is
    never in the cache, and [toLowerCase] then throws on it. *)
Definition reconstructInformation (now : Z) (targetContext : Context)
  (requiredCoherence : option R) (s : State)
  : Outcome (option string) * State :=
  let required :=
    match requiredCoherence with Some x => x | None => 0.6 end in
  match json targetContext with
  | JsonThrows => (Thrown, s)
  | JsonUndefined => (Thrown, s)
  | JsonString cacheKey =>
      match JsMap.get cacheKey (reconstructionCache s) with
      | Some cached => (Returned (Some cached), s)
      | None =>
          match reconstructFresh now cacheKey targetContext required s
          with
          | None => (Returned None, s)
          | Some reconstructed =>
              (Returned (Some reconstructed),
               cache_set cacheKey reconstructed s)
          end
      end
  end.

Definition getFragmentCount (s : State) : nat :=
  JsMap.size (fragments s).

Definition getFragmentsByRegion (region : string) (s : State)
  : list Fragment.t :=
  filter (in_region region) (JsMap.values (fragments s)).

(** [flushAllMemory]: the only key of the blob store that the engine
    uses is removed when persistence is enabled. *)
Definition flushAllMemory (cfg : HolographicConfig) (s : State) : State :=
  mkState JsMap.empty JsMap.empty JsMap.empty
          (if crossSessionEnabled (memory cfg) then None
           else localStorage s).

Definition clearCache (s : State) : State :=
  mkState (fragments s) (coherenceMap s) JsMap.empty (localStorage s).

End Memory.

(** ** Signals and interference records *)

(** The payload of a wave ([content: any]), by what the two
    text-extraction functions read of it. *)
Inductive Payload : Type :=
  | PText (s : string)
  | PObject (text content message : option string) (json : string)
  | POther (rendered : string).   (* [String(content)] *)

Module Wave.
Record t : Type := mk {
  id : string;
  sourceRegion : string;
  targetRegions : list string;
  waveType : WaveType;
  frequency : R;
  phase : R;
  amplitude : R;
  content : Payload;
  memoryFragmentIds : list string;
  timestamp : Z
}.
End Wave.

Module Pattern.
Record t : Type := mk {
  id : string;
  waveIds : list string;
  resultantAmplitude : R;
  resultantFrequency : R;
  coherenceLevel : R;
  emergentContent : option string;
  constructive : bool;
  timestamp : Z
}.
End Pattern.

Module Behavior.
Record t : Type := mk {
  id : string;
  triggerPattern : Pattern.t;
  behaviorType : string;
  confidence : R;
  insight : string;
  timestamp : Z
}.
End Behavior.

(** The clock and the random source of one operation: [random k] is the
    suffix [Math.random().toString(36).substr(2, n)] of the [k]-th draw. *)
Record Env : Type := mkEnv {
  now : Z;
  random : nat -> string
}.

Definition skip_draws (n : nat) (e : Env) : Env :=
  mkEnv (now e) (fun k => random e (n + k)).

(** ** [InterferenceEngine] *)

Module Interference.

Record State : Type := mkState {
  activePatterns : JsMap.t Pattern.t;
  emergentBehaviors : JsMap.t Behavior.t
}.

Definition construct : State := mkState JsMap.empty JsMap.empty.

Definition truthy (o : option string) : option string :=
  match o with
  | Some s => if String.eqb s EmptyString then None else Some s
  | None => None
  end.

Definition extractText (content : Payload) : string :=
  match content with
  | PText s => s
  | PObject text content' message json =>
      match truthy text, truthy content', truthy message with
      | Some s, _, _ => s
      | None, Some s, _ => s
      | None, None, Some s => s
      | None, None, None => json
      end
  | POther rendered => rendered
  end.

Definition quote : string := String (ascii_of_nat 34) EmptyString.

Definition synthesizeContent (content1 content2 : Payload)
  (coherenceLevel : R) : option string :=
  if JS.ltb coherenceLevel 0.5 then None
  else
    let text1 := extractText content1 in
    let text2 := extractText content2 in
    if String.eqb text1 EmptyString || String.eqb text2 EmptyString
    then None
    else
      let words1 := JS.split_ws (JS.toLowerCase text1) in
      let words2 := JS.split_ws (JS.toLowerCase text2) in
      let commonWords :=
        filter (fun word => JS.array_includes words2 word
                            && (3 <? String.length word)%nat) words1 in
      if (0 <? List.length commonWords)%nat
      then Some ("Emergent insight: Connection between " ++ quote
                 ++ JS.substring0 50 text1 ++ quote ++ " and " ++ quote
                 ++ JS.substring0 50 text2 ++ quote
                 ++ " through common elements: "
                 ++ JS.join ", " (JS.slice_to 3 commonWords))
      else None.

(** The coherence level of [calculateInterference].  Frequencies are
    not zero (the table has none), so the ratio is a division of reals. *)
Definition coherence (wave1 wave2 : Wave.t) : R :=
  let phaseDifference := Rabs (Wave.phase wave1 - Wave.phase wave2) in
  let frequencyRatio := Wave.frequency wave1 / Wave.frequency wave2 in
  let phaseCoherence := cos phaseDifference in
  let frequencyCoherence := exp (- Rabs (frequencyRatio - 1)) in
  (phaseCoherence + frequencyCoherence) / 2.

Definition calculateInterference (now : Z) (rand : string)
  (wave1 wave2 : Wave.t) : Pattern.t :=
  let phaseDifference := Rabs (Wave.phase wave1 - Wave.phase wave2) in
  let product := Wave.amplitude wave1 * Wave.amplitude wave2 in
  let constructive := JS.ltb phaseDifference (PI / 4) in
  let resultantAmplitude :=
    if constructive then product * cos phaseDifference
    else product * sin phaseDifference in
  let coherenceLevel := coherence wave1 wave2 in
  let emergentContent :=
    synthesizeContent (Wave.content wave1) (Wave.content wave2)
                      coherenceLevel in
  Pattern.mk ("interference_" ++ JS.show now ++ "_" ++ rand)
             [Wave.id wave1; Wave.id wave2]
             resultantAmplitude
             ((Wave.frequency wave1 + Wave.frequency wave2) / 2)
             coherenceLevel emergentContent constructive now.

Definition classifyBehaviorType (i : Pattern.t) : string :=
  if JS.gtb (Pattern.coherenceLevel i) 0.8 && Pattern.constructive i
     && JS.gtb (Pattern.resultantAmplitude i) 0.7
  then "SYNTHESIS"
  else if JS.gtb (Pattern.coherenceLevel i) 0.7 && Pattern.constructive i
  then "INSIGHT"
  else if negb (Pattern.constructive i)
          && JS.gtb (Pattern.coherenceLevel i) 0.6
  then "CONTRADICTION"
  else "CORRELATION".

(** The pairs [(waves[i], waves[j])], [i < j], in the order of the two
    loops. *)
Fixpoint pairs (waves : list Wave.t) : list (Wave.t * Wave.t) :=
  match waves with
  | [] => []
  | w :: r => map (fun v => (w, v)) r ++ pairs r
  end.

Definition patternId (p : Wave.t * Wave.t) : string :=
  Wave.id (fst p) ++ "-" ++ Wave.id (snd p).

(** The body of the inner loop for the [k]-th pair: [acc] holds the
    call's result map and the engine's pattern cache. *)
Definition score_pair (cfg : HolographicConfig) (e : Env)
  (acc : JsMap.t Pattern.t * JsMap.t Pattern.t)
  (kp : nat * (Wave.t * Wave.t))
  : JsMap.t Pattern.t * JsMap.t Pattern.t :=
  let k := fst kp in
  let p := snd kp in
  let i := calculateInterference (now e) (random e k) (fst p) (snd p) in
  if JS.gtb (Pattern.coherenceLevel i)
            (constructiveThreshold (interference cfg))
  then (JsMap.set (patternId p) i (fst acc),
        JsMap.set (patternId p) i (snd acc))
  else acc.

Definition enumerate {A} (l : list A) : list (nat * A) :=
  combine (seq 0 (List.length l)) l.

Definition qualifies (cfg : HolographicConfig) (i : Pattern.t) : bool :=
  JS.gtb (Pattern.coherenceLevel i) (emergentThreshold (interference cfg))
  && match Pattern.emergentContent i with
     | Some c => negb (String.eqb c EmptyString)
     | None => false
     end.

Definition newBehavior (now : Z) (rand : string) (i : Pattern.t)
  : Behavior.t :=
  Behavior.mk ("emergent_" ++ JS.show now ++ "_" ++ rand) i
    (classifyBehaviorType i) (Pattern.coherenceLevel i)
    (match Pattern.emergentContent i with
     | Some c => c
     | None => EmptyString
     end)
    now.

(** The returned list of behaviours and the updated behaviour cache;
    the draws are [random e 0], [random e 1], ... in the order of the
    qualifying patterns. *)
Definition detectEmergentPatterns (cfg : HolographicConfig) (e : Env)
  (interferenceResults : JsMap.t Pattern.t)
  (cache : JsMap.t Behavior.t)
  : list Behavior.t * JsMap.t Behavior.t :=
  let created :=
    map (fun ki => newBehavior (now e) (random e (fst ki)) (snd ki))
        (enumerate (filter (qualifies cfg)
                           (JsMap.values interferenceResults))) in
  (created,
   fold_left (fun m b => JsMap.set (Behavior.id b) b m) created cache).

Definition calculateSystemCoherence
  (interferenceResults : JsMap.t Pattern.t) : R :=
  if (JsMap.size interferenceResults =? 0)%nat then 0.5
  else
    let coherenceValues :=
      map Pattern.coherenceLevel (JsMap.values interferenceResults) in
    let averageCoherence :=
      fold_left Rplus coherenceValues 0
      / INR (List.length coherenceValues) in
    let complexityBoost :=
      Rmin 0.2 (INR (JsMap.size interferenceResults) * 0.05) in
    Rmin 1.0 (averageCoherence + complexityBoost).

Record Result : Type := mkResult {
  interferenceResults : JsMap.t Pattern.t;
  emergentPatterns : list Behavior.t;
  systemCoherence : R
}.

(** One draw per pair, then one per emergent behaviour. *)
Definition processWaveInterference (cfg : HolographicConfig) (e : Env)
  (waves : list Wave.t) (s : State) : Result * State :=
  let ps := pairs waves in
  let scored :=
    fold_left (score_pair cfg e) (enumerate ps)
              (JsMap.empty, activePatterns s) in
  let detected :=
    detectEmergentPatterns cfg (skip_draws (List.length ps) e)
                           (fst scored) (emergentBehaviors s) in
  (mkResult (fst scored) (fst detected)
            (calculateSystemCoherence (fst scored)),
   mkState (snd scored) (snd detected)).

Definition getActivePatterns (s : State) : list Pattern.t :=
  JsMap.values (activePatterns s).

Definition getEmergentBehaviors (s : State) : list Behavior.t :=
  JsMap.values (emergentBehaviors s).

(** [clearOldPatterns(maxAge)], default five minutes. *)
Definition clearOldPatterns (now : Z) (maxAge : option Z) (s : State)
  : State :=
  let age := match maxAge with Some a => a | None => 300000%Z end in
  mkState
    (filter (fun kv => negb (age <? now - Pattern.timestamp (snd kv))%Z)
            (activePatterns s))
    (filter (fun kv => negb (age <? now - Behavior.timestamp (snd kv))%Z)
            (emergentBehaviors s)).

End Interference.

(** ** [HolographicWaveEngine] *)

Module Engine.

Record State : Type := mkState {
  holographicMemory : Memory.State;
  interferenceEngine : Interference.State;
  activeWaves : JsMap.t Wave.t
}.

Definition construct (cfg : HolographicConfig) (now : Z)
  (storage : Memory.Storage) : State :=
  mkState (Memory.construct cfg now storage) Interference.construct
          JsMap.empty.

Definition extractTextContent (content : Payload) : string :=
  match content with
  | PText s => s
  | PObject _ _ _ json => json
  | POther rendered => rendered
  end.

(** The engine's own [calculatePhase]: the same loop over
    [extractTextContent(content) + sourceRegion]. *)
Definition calculatePhase (content : Payload) (sourceRegion : string)
  : R :=
  phase_of_hash
    (hash_loop 0 (extractTextContent content ++ sourceRegion)).

Definition generateWaveId (now : Z) (rand : string) : string :=
  "wave_" ++ JS.show now ++ "_" ++ rand.

Definition generateSessionId (now : Z) (rand : string) : string :=
  "session_" ++ JS.show now ++ "_" ++ rand.

Definition processWaveInterference (cfg : HolographicConfig) (e : Env)
  (s : State) : Interference.Result * State :=
  let currentWaves := JsMap.values (activeWaves s) in
  let r :=
    Interference.processWaveInterference cfg e currentWaves
                                         (interferenceEngine s) in
  (fst r, mkState (holographicMemory s) (snd r) (activeWaves s)).

(** Stores the insight of the [k]-th emergent behaviour; its two draws
    are the session id, then the fragment id. *)
Definition store_insight (cfg : HolographicConfig) (e : Env)
  (m : Memory.State) (kb : nat * Behavior.t) : Memory.State :=
  let k := fst kb in
  let pattern := snd kb in
  snd (Memory.storeFragment cfg (now e) (random e (2 * k + 1))
         (Behavior.insight pattern) "InterferenceEngine" MEMORY
         (Some (Behavior.confidence pattern))
         (generateSessionId (now e) (random e (2 * k))) m).

(** The draws, in the order of evaluation: the wave id, the session id
    (an argument of [storeFragment]), the fragment id, the draws of the
    interference pass, then two per stored insight.  [amplitude] is
    [None] when omitted (default 1.0); an empty [targetRegions] stands
    for the omitted argument as well. *)
Definition propagateHolographicWave (cfg : HolographicConfig) (e : Env)
  (sourceRegion : string) (content : Payload) (waveType : WaveType)
  (amplitude : option R) (targetRegions : list string) (s : State)
  : string * State :=
  let amp := match amplitude with Some a => a | None => 1.0 end in
  let waveId := generateWaveId (now e) (random e 0) in
  let stored :=
    Memory.storeFragment cfg (now e) (random e 2)
      (extractTextContent content) sourceRegion waveType (Some amp)
      (generateSessionId (now e) (random e 1)) (holographicMemory s) in
  let wave :=
    Wave.mk waveId sourceRegion
      (match targetRegions with [] => ["all"] | _ => targetRegions end)
      waveType (WaveFrequencies waveType)
      (calculatePhase content sourceRegion) amp content
      [fst stored] (now e) in
  let s1 :=
    mkState (snd stored) (interferenceEngine s)
            (JsMap.set waveId wave (activeWaves s)) in
  let e1 := skip_draws 3 e in
  let interferenceResult := processWaveInterference cfg e1 s1 in
  let result := fst interferenceResult in
  let s2 := snd interferenceResult in
  let used :=
    (List.length (Interference.pairs (JsMap.values (activeWaves s1)))
     + List.length (Interference.emergentPatterns result))%nat in
  let mem :=
    fold_left (store_insight cfg (skip_draws used e1))
              (Interference.enumerate
                 (Interference.emergentPatterns result))
              (holographicMemory s2) in
  (waveId, mkState mem (interferenceEngine s2) (activeWaves s2)).

Definition enhanceWithHolographicReconstruction (now : Z)
  (targetContext : Memory.Context) (requiredCoherence : option R)
  (s : State) : Memory.Outcome (option string) * State :=
  let r :=
    Memory.reconstructInformation now targetContext requiredCoherence
                                  (holographicMemory s) in
  (fst r, mkState (snd r) (interferenceEngine s) (activeWaves s)).

Record SystemState : Type := mkSystemState {
  ss_activeWaves : nat;
  ss_fragmentCount : nat;
  ss_systemCoherence : R;
  ss_emergentBehaviors : nat;
  ss_interferencePatterns : nat
}.

Definition getSystemState (cfg : HolographicConfig) (e : Env)
  (s : State) : SystemState * State :=
  let r := processWaveInterference cfg e s in
  let interferenceResult := fst r in
  let s' := snd r in
  (mkSystemState
     (JsMap.size (activeWaves s'))
     (Memory.getFragmentCount (holographicMemory s'))
     (Interference.systemCoherence interferenceResult)
     (List.length (Interference.emergentPatterns interferenceResult))
     (JsMap.size (Interference.interferenceResults interferenceResult)),
   s').

(** The result of [gracefulDegradation]; [reconstructed] is [None]
    when the field is absent. *)
Record Degradation : Type := mkDegradation {
  success : bool;
  method : string;
  confidence : R;
  reconstructed : option string
}.

(** [if (reconstructed)] is false for [null] and for the empty
    string. *)
Definition gracefulDegradation (cfg : HolographicConfig) (now : Z)
  (fallbackContext : Memory.Context) (s : State)
  : Degradation * State :=
  let r :=
    Memory.reconstructInformation now fallbackContext
      (Some (minimumCoherence (degradation cfg)))
      (holographicMemory s) in
  let s' := mkState (snd r) (interferenceEngine s) (activeWaves s) in
  match fst r with
  | Memory.Returned (Some text) =>
      if String.eqb text EmptyString
      then (mkDegradation true "emergency_fallback" 0.3 None, s')
      else (mkDegradation true "holographic_reconstruction" 0.6
                          (Some text), s')
  | Memory.Returned None =>
      (mkDegradation true "emergency_fallback" 0.3 None, s')
  | Memory.Thrown => (mkDegradation false "failed" 0.0 None, s')
  end.

(** *** [updateWaveDecay] *)

(** [Math.exp] is read as the real exponential.  Of the factor, the
    properties of the decay use that it is positive and at most 1 for a
    [deltaTime] that is not negative; where more is used (the product of
    two factors), the statement says that it is one of exact
    arithmetic. *)
Definition decay (deltaTime : R) (w : Wave.t) : Wave.t :=
  Wave.mk (Wave.id w) (Wave.sourceRegion w) (Wave.targetRegions w)
    (Wave.waveType w) (Wave.frequency w) (Wave.phase w)
    (Wave.amplitude w * exp (- deltaTime / 10000))
    (Wave.content w) (Wave.memoryFragmentIds w) (Wave.timestamp w).

(** One turn of the loop: the wave is decayed where it sits and
    deleted when it has become weak. *)
Definition decay_step (deltaTime : R) (kw : string * Wave.t)
  (rest : JsMap.t Wave.t) : JsMap.t Wave.t :=
  let w' := decay deltaTime (snd kw) in
  if JS.ltb (Wave.amplitude w') 0.1 then rest
  else (fst kw, w') :: rest.

Definition updateWaveDecay (now : Z) (deltaTime : R) (s : State)
  : State :=
  mkState (holographicMemory s)
          (Interference.clearOldPatterns now None
                                         (interferenceEngine s))
          (fold_right (decay_step deltaTime) [] (activeWaves s)).

Definition getFragmentsByRegion (region : string) (s : State)
  : list Fragment.t :=
  Memory.getFragmentsByRegion region (holographicMemory s).

Definition getFragmentCount (s : State) : nat :=
  Memory.getFragmentCount (holographicMemory s).

Definition getAllFragments (s : State) : list Fragment.t :=
  let regions := ["InnerBrain"; "FrontalLobe"; "TemporalLobe";
                  "OccipitalLobe"; "Cerebellum"] in
  flat_map (fun region =>
              Memory.getFragmentsByRegion region (holographicMemory s))
           regions.

Definition flushAllMemory (cfg : HolographicConfig) (s : State)
  : State :=
  mkState (Memory.flushAllMemory cfg (holographicMemory s))
          (interferenceEngine s) JsMap.empty.

Definition cleanup (s : State) : State :=
  mkState (Memory.clearCache (holographicMemory s))
          (interferenceEngine s) JsMap.empty.

End Engine.

(** ** Concrete configurations and inputs used by the examples *)

(** [defaultHolographicConfig] of [src/stores/holographicStore.ts]; the
    frequency table it repeats is [WaveFrequencies]. *)
Definition defaultHolographicConfig : HolographicConfig :=
  Build_HolographicConfig WaveFrequencies
    (Build_InterferenceConfig 0.6 0.3 0.8 0.1)
    (Build_MemoryConfig 100 0.6 0.8 true)
    (Build_DegradationConfig true 3 0.4 ["InnerBrain"; "FrontalLobe"]).

(** The default configuration with another region cap and without
    persistence. *)
Definition config_with_cap (cap : nat) : HolographicConfig :=
  Build_HolographicConfig WaveFrequencies
    (Build_InterferenceConfig 0.6 0.3 0.8 0.1)
    (Build_MemoryConfig cap 0.6 0.8 false)
    (Build_DegradationConfig true 3 0.4 ["InnerBrain"; "FrontalLobe"]).

(** The signature as the specification words it, for comparison with
    [generateCoherenceSignature]: the five longest significant words,
    alphabetically ordered and joined. *)
Definition longer_first (a b : string) : bool :=
  (String.length b <=? String.length a)%nat.

Definition five_longest_signature (content : string) : string :=
  JS.join "|"
    (JS.sort_strings
       (JS.slice_to 5 (JS.sort_by longer_first (significant_words content)))).

Definition six_word_content : string :=
  "alpha bravo delta gamma omega extraordinary".

(** Two active waves, one strong and one about to fade. *)
Definition strong_wave : Wave.t :=
  Wave.mk "wave_1_a" "InnerBrain" ["all"] CONTEXT 0.5 0 1 (PText "hello")
          ["frag_1_a"] 1.

Definition faint_wave : Wave.t :=
  Wave.mk "wave_2_b" "InnerBrain" ["all"] CONTEXT 0.5 0 0.05
          (PText "world") ["frag_2_b"] 2.

Definition two_wave_engine : Engine.State :=
  Engine.mkState
    (Memory.mkState JsMap.empty JsMap.empty JsMap.empty None)
    Interference.construct
    [("wave_1_a", strong_wave); ("wave_2_b", faint_wave)].

Definition constant_env (t : Z) : Env := mkEnv t (fun _ => "r4nd0m").

(** "The pattern stored under this key exceeds the threshold [t]". *)
Definition above (t : R) (kv : string * Pattern.t) : Prop :=
  Pattern.coherenceLevel (snd kv) > t.

(** The operations of the store that a caller can interleave, apart from
    [clearCache] and [flushAllMemory]. *)
Inductive MemoryOp : Type :=
  | OpStore (now : Z) (rand content sourceRegion : string)
            (waveType : WaveType) (importance : option R)
            (sessionId : string)
  | OpReconstruct (now : Z) (targetContext : Memory.Context)
                  (requiredCoherence : option R)
  | OpCount
  | OpByRegion (region : string).

Definition run_op (cfg : HolographicConfig) (s : Memory.State)
  (op : MemoryOp) : Memory.State :=
  match op with
  | OpStore now rand content sourceRegion waveType importance sessionId =>
      snd (Memory.storeFragment cfg now rand content sourceRegion waveType
                                importance sessionId s)
  | OpReconstruct now targetContext requiredCoherence =>
      snd (Memory.reconstructInformation now targetContext
                                         requiredCoherence s)
  | OpCount => s
  | OpByRegion _ => s
  end.

(** *** A store with two fragments of empty content *)

Definition blank_store : Memory.State :=
  let s0 := Memory.construct defaultHolographicConfig 1000 None in
  let s1 := snd (Memory.storeFragment defaultHolographicConfig 1000
                   "k3j2h1g0f" EmptyString "InnerBrain" CONTEXT (Some 1)
                   "session_1000_aaaaaaaaa" s0) in
  snd (Memory.storeFragment defaultHolographicConfig 1000
         "z9y8x7w6v" EmptyString "InnerBrain" CONTEXT (Some 1)
         "session_1000_bbbbbbbbb" s1).

Definition blank_engine : Engine.State :=
  Engine.mkState blank_store Interference.construct JsMap.empty.

(** The context [{}]. *)
Definition empty_object_context : Memory.Context :=
  Memory.mkContext (Memory.JsonString "{}") Memory.TypeAbsent.

(** *** A store with two matching fragments and a third, unrelated one *)

Definition alpha_store : Memory.State :=
  let s0 := Memory.construct defaultHolographicConfig 1000 None in
  let s1 := snd (Memory.storeFragment defaultHolographicConfig 1000
                   "aaaaaaaaa" "alpha" "InnerBrain" CONFIDENCE (Some 1)
                   "session_1000_aaaaaaaaa" s0) in
  let s2 := snd (Memory.storeFragment defaultHolographicConfig 2000
                   "bbbbbbbbb" "alpha" "InnerBrain" CONFIDENCE (Some 1)
                   "session_2000_bbbbbbbbb" s1) in
  snd (Memory.storeFragment defaultHolographicConfig 3000
         "ccccccccc" "beta" "InnerBrain" PERSONA (Some 1)
         "session_3000_ccccccccc" s2).

Definition alpha_first : Fragment.t :=
  Memory.newFragment 1000 "aaaaaaaaa" "alpha" "InnerBrain" CONFIDENCE 1
                     "session_1000_aaaaaaaaa".

Definition alpha_second : Fragment.t :=
  Memory.newFragment 2000 "bbbbbbbbb" "alpha" "InnerBrain" CONFIDENCE 1
                     "session_2000_bbbbbbbbb".

Definition beta_third : Fragment.t :=
  Memory.newFragment 3000 "ccccccccc" "beta" "InnerBrain" PERSONA 1
                     "session_3000_ccccccccc".

(** The context [{type: 'CONFIDENCE', topic: 'beta'}] and its JSON
    text. *)
Definition confidence_json : string :=
  "{" ++ Interference.quote ++ "type" ++ Interference.quote ++ ":"
  ++ Interference.quote ++ "CONFIDENCE" ++ Interference.quote ++ ","
  ++ Interference.quote ++ "topic" ++ Interference.quote ++ ":"
  ++ Interference.quote ++ "beta" ++ Interference.quote ++ "}".

Definition confidence_context : Memory.Context :=
  Memory.mkContext (Memory.JsonString confidence_json)
                   (Memory.TypeString "CONFIDENCE").

(** Eleven and thirteen hours after the third fragment was stored. *)
Definition eleven_hours_later : Z := 3000 + 11 * 3600000.
Definition thirteen_hours_later : Z := 3000 + 13 * 3600000.

(** Operations interleaved between two reconstructions in the example:
    a new fragment in the same region and a query for another context. *)
Definition interleaved_ops : list MemoryOp :=
  [OpStore 50000000 "ddddddddd" "gamma" "InnerBrain" PERSONA (Some 0.2)
           "session_50000000_ddddddddd";
   OpReconstruct 50000001 empty_object_context None;
   OpByRegion "InnerBrain"].

Definition blank_first : Fragment.t :=
  Memory.newFragment 1000 "k3j2h1g0f" EmptyString "InnerBrain" CONTEXT 1
                     "session_1000_aaaaaaaaa".

Definition blank_second : Fragment.t :=
  Memory.newFragment 1000 "z9y8x7w6v" EmptyString "InnerBrain" CONTEXT 1
                     "session_1000_bbbbbbbbb".

Definition alpha_engine : Engine.State :=
  Engine.mkState alpha_store Interference.construct JsMap.empty.

(** The three results of [gracefulDegradation]. *)
Definition reconstruction_result (text : string) : Engine.Degradation :=
  Engine.mkDegradation true "holographic_reconstruction" 0.6 (Some text).

Definition emergency_result : Engine.Degradation :=
  Engine.mkDegradation true "emergency_fallback" 0.3 None.

Definition failed_result : Engine.Degradation :=
  Engine.mkDegradation false "failed" 0.0 None.

(** *** A persisted blob with three entries, read eight days after the
    second one was written *)


Definition eight_day_old_entry : Memory.Persisted :=
  Memory.mkPersisted "frag_0_old00000a" "remember this" "InnerBrain" MEMORY
    0.3 1 0.5 (Memory.TsString (Some 0%Z)) 1 "remember|this"
    "session_0_b".


Definition eight_days : Z := 8 * 24 * 60 * 60 * 1000.


(** An entry whose timestamp is a number, and an entry that is
    [null]. *)
Definition numeric_entry : Memory.Persisted :=
  Memory.mkPersisted "frag_7_numeric0d" "number date" "InnerBrain" CONTEXT
    0.5 1 0.25 (Memory.TsOther (Some 691200000%Z)) 1 "number|date"
    "session_7_d".

Definition null_entry : Memory.Persisted :=
  Memory.mkPersisted EmptyString EmptyString EmptyString CONTEXT
    0 0 0 Memory.TsUnreadable 0 EmptyString EmptyString.

(** A blob whose first entry is [null]. *)
Definition null_then_old : JsMap.t Memory.Persisted :=
  [("broken", null_entry);
   ("frag_0_old00000a", eight_day_old_entry)].

(** The entries that the load reaches: those before the first entry
    that is [null]. *)
Fixpoint reached (ps : list Memory.Persisted) : list Memory.Persisted :=
  match ps with
  | [] => []
  | p :: r =>
      match Memory.p_timestamp p with
      | Memory.TsUnreadable => []
      | _ => p :: reached r
      end
  end.

(** The map that [loadPersistedFragments] builds from the entries it
    reaches, one [set] per accepted entry. *)
Definition load_into (now : Z) (m : JsMap.t Fragment.t)
  (ps : list Memory.Persisted) : JsMap.t Fragment.t :=
  fold_left (fun m p => match Memory.restore now p with
                        | Some f => JsMap.set (Fragment.id f) f m
                        | None => m
                        end) ps m.

(** *** Vocabulary for the interference pass *)

(** "The pair is retained": its coherence exceeds the constructive
    threshold. *)
Definition retained (cfg : HolographicConfig) (p : Wave.t * Wave.t)
  : bool :=
  JS.gtb (Interference.coherence (fst p) (snd p))
         (constructiveThreshold (interference cfg)).

(** "The pair qualifies": its coherence exceeds the emergent threshold
    and the synthesis of the two payloads yields content. *)
Definition pair_qualifies (cfg : HolographicConfig) (p : Wave.t * Wave.t)
  : bool :=
  JS.gtb (Interference.coherence (fst p) (snd p))
         (emergentThreshold (interference cfg))
  && match Interference.synthesizeContent
             (Wave.content (fst p)) (Wave.content (snd p))
             (Interference.coherence (fst p) (snd p)) with
     | Some c => negb (String.eqb c EmptyString)
     | None => false
     end.

(** The map entry that the [k]-th pair leaves when it is retained. *)
Definition scored (e : Env) (kp : nat * (Wave.t * Wave.t))
  : string * Pattern.t :=
  (Interference.patternId (snd kp),
   Interference.calculateInterference (now e) (random e (fst kp))
     (fst (snd kp)) (snd (snd kp))).

(** The id of a behaviour created with the [k]-th draw. *)
Definition emergent_id (e : Env) (k : nat) : string :=
  "emergent_" ++ JS.show (now e) ++ "_" ++ random e k.

(** The ids that one interference pass over [n] pairs can give to new
    behaviours: the draws after the [n] draws of the pairs. *)
Definition candidate_ids (e : Env) (n : nat) : list string :=
  map (fun k => emergent_id e (n + k)) (seq 0 n).

(** Scenario A: two waves of equal phase and frequency with overlapping
    vocabulary. *)
Definition rust_wave : Wave.t :=
  Wave.mk "wave_1_a" "FrontalLobe" ["all"] INTENT 1.0 0.5 1
          (PText "Rust and Go are great") ["frag_1_a"] 1.

Definition systems_wave : Wave.t :=
  Wave.mk "wave_2_b" "TemporalLobe" ["all"] INTENT 1.0 0.5 1
          (PText "Rust is excellent for systems work") ["frag_2_b"] 2.

Definition rust_engine : Engine.State :=
  Engine.mkState
    (Memory.mkState JsMap.empty JsMap.empty JsMap.empty None)
    Interference.construct
    [("wave_1_a", rust_wave); ("wave_2_b", systems_wave)].

(** A random source that never repeats: the draw number in decimal. *)
Definition counting_env (t : Z) : Env :=
  mkEnv t (fun k => JS.show (Z.of_nat k)).

(** *** Vocabulary for the eviction *)

(** What every [Map] of fragments built by the store satisfies: the keys
    are distinct and each fragment sits under its own id. *)
Definition well_keyed (m : JsMap.t Fragment.t) : Prop :=
  NoDup (JsMap.keys m)
  /\ Forall (fun kv => fst kv = Fragment.id (snd kv)) m.

Definition id_in (ids : list string) (k : string) : bool :=
  existsb (String.eqb k) ids.

(** Two [storeFragment] calls within the same millisecond, into the same
    region, with a region cap of one. *)
Definition tie_first : string * Memory.State :=
  Memory.storeFragment (config_with_cap 1) 1000 "aaaaaaaaa" "first"
    "InnerBrain" CONTEXT (Some 1) "session_1000_xxxxxxxxx"
    (Memory.construct (config_with_cap 1) 1000 None).

Definition tie_second : string * Memory.State :=
  Memory.storeFragment (config_with_cap 1) 1000 "bbbbbbbbb" "second"
    "InnerBrain" CONTEXT (Some 1) "session_1000_yyyyyyyyy"
    (snd tie_first).

(** The same two calls one millisecond apart. *)
Definition later_second : string * Memory.State :=
  Memory.storeFragment (config_with_cap 1) 1001 "bbbbbbbbb" "second"
    "InnerBrain" CONTEXT (Some 1) "session_1001_yyyyyyyyy"
    (snd tie_first).

(** One [storeFragment] call, as data. *)
Record StoreCall : Type := mkStoreCall {
  sc_now : Z;
  sc_rand : string;
  sc_content : string;
  sc_region : string;
  sc_waveType : WaveType;
  sc_importance : option R;
  sc_sessionId : string
}.

Definition run_store (cfg : HolographicConfig) (s : Memory.State)
  (c : StoreCall) : Memory.State :=
  snd (Memory.storeFragment cfg (sc_now c) (sc_rand c) (sc_content c)
         (sc_region c) (sc_waveType c) (sc_importance c) (sc_sessionId c)
         s).

Definition store_id (c : StoreCall) : string :=
  Memory.generateFragmentId (sc_now c) (sc_rand c).

Definition calls_into (region : string) (calls : list StoreCall) : nat :=
  List.length (filter (fun c => String.eqb (sc_region c) region) calls).



(** A configuration in which nothing is retained (the constructive
    threshold is 1, the top of its range) while the emergent threshold
    is 0.5. *)
Definition strict_retention_config : HolographicConfig :=
  Build_HolographicConfig WaveFrequencies
    (Build_InterferenceConfig 1.0 0.3 0.5 0.1)
    (Build_MemoryConfig 100 0.6 0.8 false)
    (Build_DegradationConfig true 3 0.4 ["InnerBrain"; "FrontalLobe"]).

(** Eleven [storeFragment] calls within one millisecond into one region,
    as the loop over emergent insights makes them. *)
Definition insight_call (k : nat) : StoreCall :=
  mkStoreCall 1000 (JS.show (Z.of_nat k))
    ("insight " ++ JS.show (Z.of_nat k)) "InterferenceEngine" MEMORY
    (Some 0.9) "session_1000_zzzzzzzzz".

Definition eleven_insights : list StoreCall := map insight_call (seq 0 11).

Definition after_eleven_insights : Memory.State :=
  fold_left (run_store (config_with_cap 10)) eleven_insights
            (Memory.construct (config_with_cap 10) 1000 None).

(** ** Vocabulary for the further properties *)

(** The polynomial that the hash loop evaluates, without the 32-bit
    wrap-around: [h * 31^n + c1 * 31^(n-1) + ... + cn]. *)
Fixpoint horner (h : Z) (str : string) : Z :=
  match str with
  | EmptyString => h
  | String c r => horner (31 * h + JS.code c) r
  end.


(** The default configuration with the constructive threshold at the
    top of its slider. *)
Definition closed_threshold_config : HolographicConfig :=
  Build_HolographicConfig WaveFrequencies
    (Build_InterferenceConfig 1 0.3 0.8 0.1)
    (Build_MemoryConfig 100 0.6 0.8 true)
    (Build_DegradationConfig true 3 0.4 ["InnerBrain"; "FrontalLobe"]).

(** *** Invariants of the engine's state *)

(** The amplitude of every fragment, under its key. *)
Definition amplitudes (m : JsMap.t Fragment.t) : JsMap.t R :=
  map (fun kv => (fst kv, Fragment.amplitude (snd kv))) m.

(** The fragment map holds every fragment once, under its own id, and
    the coherence map mirrors it. *)
Definition memory_invariant (m : Memory.State) : Prop :=
  well_keyed (Memory.fragments m)
  /\ Memory.coherenceMap m = amplitudes (Memory.fragments m).

(** An active wave sits under its own id, with the frequency of its
    type and a phase within a turn. *)
Definition wave_ok (kv : string * Wave.t) : Prop :=
  fst kv = Wave.id (snd kv)
  /\ Wave.frequency (snd kv) = WaveFrequencies (Wave.waveType (snd kv))
  /\ 0 <= Wave.phase (snd kv) < 2 * PI.

Definition engine_invariant (s : Engine.State) : Prop :=
  memory_invariant (Engine.holographicMemory s)
  /\ NoDup (JsMap.keys (Engine.activeWaves s))
  /\ Forall wave_ok (Engine.activeWaves s)
  /\ NoDup (JsMap.keys (Interference.activePatterns
                          (Engine.interferenceEngine s)))
  /\ NoDup (JsMap.keys (Interference.emergentBehaviors
                          (Engine.interferenceEngine s)))
  /\ Forall (fun kv => fst kv = Behavior.id (snd kv))
            (Interference.emergentBehaviors (Engine.interferenceEngine s)).

(** The public operations of [HolographicWaveEngine] that change or may
    change its state. *)
Inductive EngineOp : Type :=
  | EPropagate (e : Env) (sourceRegion : string) (content : Payload)
               (waveType : WaveType) (amplitude : option R)
               (targetRegions : list string)
  | EEnhance (now : Z) (targetContext : Memory.Context)
             (requiredCoherence : option R)
  | EInterfere (e : Env)
  | ESystemState (e : Env)
  | EDegrade (now : Z) (fallbackContext : Memory.Context)
  | EDecay (now : Z) (deltaTime : R)
  | EFlush
  | ECleanup.

Definition run_engine_op (cfg : HolographicConfig) (s : Engine.State)
  (op : EngineOp) : Engine.State :=
  match op with
  | EPropagate e sourceRegion content waveType amplitude targetRegions =>
      snd (Engine.propagateHolographicWave cfg e sourceRegion content
             waveType amplitude targetRegions s)
  | EEnhance now targetContext requiredCoherence =>
      snd (Engine.enhanceWithHolographicReconstruction now targetContext
             requiredCoherence s)
  | EInterfere e => snd (Engine.processWaveInterference cfg e s)
  | ESystemState e => snd (Engine.getSystemState cfg e s)
  | EDegrade now fallbackContext =>
      snd (Engine.gracefulDegradation cfg now fallbackContext s)
  | EDecay now deltaTime => Engine.updateWaveDecay now deltaTime s
  | EFlush => Engine.flushAllMemory cfg s
  | ECleanup => Engine.cleanup s
  end.

Definition run_engine (cfg : HolographicConfig) (ops : list EngineOp)
  (s : Engine.State) : Engine.State :=
  fold_left (run_engine_op cfg) ops s.

(** The five regions that [getAllFragments] lists. *)
Definition named_regions : list string :=
  ["InnerBrain"; "FrontalLobe"; "TemporalLobe"; "OccipitalLobe";
   "Cerebellum"].

Definition in_named_region (f : Fragment.t) : bool :=
  JS.array_includes named_regions (Fragment.sourceRegion f).

(** *** Vocabulary for the persisted blob *)



(** ** [useHolographicStore] ([src/stores/holographicStore.ts])

    The store holds the engine instance, the switch and the
    configuration.  The calls that [propagateWave] and [flushMemory]
    defer with [setTimeout] are the separate operation
    [updateSystemState]. *)

Module Store.

(** [Partial<HolographicConfig>]: the keys that an update carries. *)
Record ConfigUpdates : Type := mkUpdates {
  u_frequencies : option (WaveType -> R);
  u_interference : option InterferenceConfig;
  u_memory : option MemoryConfig;
  u_degradation : option DegradationConfig
}.

(** [{ ...config, ...updates }]: a shallow merge. *)
Definition merge (config : HolographicConfig) (updates : ConfigUpdates)
  : HolographicConfig :=
  Build_HolographicConfig
    (match u_frequencies updates with
     | Some x => x | None => frequencies config end)
    (match u_interference updates with
     | Some x => x | None => interference config end)
    (match u_memory updates with
     | Some x => x | None => memory config end)
    (match u_degradation updates with
     | Some x => x | None => degradation config end).

(** An engine with the configuration it was constructed with
    ([this.config] of the engine and of its two parts). *)
Record Instance : Type := mkInstance {
  engineConfig : HolographicConfig;
  engine : Engine.State
}.

(** [browserStorage] is the blob store as long as no engine exists;
    an engine carries it in its memory system. *)
Record State : Type := mkState {
  waveEngine : option Instance;
  isEnabled : bool;
  config : HolographicConfig;
  systemState : option Engine.SystemState;
  browserStorage : Memory.Storage
}.

Definition initial (storage : Memory.Storage) : State :=
  mkState None false defaultHolographicConfig None storage.

Definition storage (st : State) : Memory.Storage :=
  match waveEngine st with
  | Some i => Memory.localStorage (Engine.holographicMemory (engine i))
  | None => browserStorage st
  end.

Definition initializeEngine (now : Z) (cfg : HolographicConfig)
  (st : State) : State :=
  mkState (Some (mkInstance cfg (Engine.construct cfg now (storage st))))
          true cfg (systemState st) (storage st).

(** [amplitude] is [None] when omitted (default 1.0); the engine is
    called without target regions. *)
Definition propagateWave (e : Env) (sourceRegion : string)
  (content : Payload) (waveType : WaveType) (amplitude : option R)
  (st : State) : string * State :=
  match waveEngine st with
  | None => (EmptyString, st)
  | Some i =>
      if negb (isEnabled st) then (EmptyString, st)
      else
        let amp := match amplitude with Some a => a | None => 1.0 end in
        let r :=
          Engine.propagateHolographicWave (engineConfig i) e sourceRegion
            content waveType (Some amp) [] (engine i) in
        (fst r,
         mkState (Some (mkInstance (engineConfig i) (snd r)))
                 (isEnabled st) (config st) (systemState st)
                 (browserStorage st))
  end.

Definition updateSystemState (e : Env) (st : State) : State :=
  match waveEngine st with
  | None => st
  | Some i =>
      let r := Engine.getSystemState (engineConfig i) e (engine i) in
      mkState (Some (mkInstance (engineConfig i) (snd r)))
              (isEnabled st) (config st) (Some (fst r))
              (browserStorage st)
  end.

Definition setEnabled (enabled : bool) (st : State) : State :=
  mkState (waveEngine st) enabled (config st) (systemState st)
          (browserStorage st).

Definition updateConfig (now : Z) (updates : ConfigUpdates) (st : State)
  : State :=
  let newConfig := merge (config st) updates in
  initializeEngine now newConfig
    (mkState (waveEngine st) (isEnabled st) newConfig (systemState st)
             (browserStorage st)).

Definition flushMemory (st : State) : State :=
  match waveEngine st with
  | None => st
  | Some i =>
      mkState (Some (mkInstance (engineConfig i)
                       (Engine.flushAllMemory (engineConfig i) (engine i))))
              (isEnabled st) (config st) (systemState st)
              (browserStorage st)
  end.

End Store.

(** The operations of the store, for sequences of calls. *)
Inductive StoreOp : Type :=
  | SInitialize (now : Z) (cfg : HolographicConfig)
  | SPropagate (e : Env) (sourceRegion : string) (content : Payload)
               (waveType : WaveType) (amplitude : option R)
  | SUpdateSystemState (e : Env)
  | SSetEnabled (enabled : bool)
  | SUpdateConfig (now : Z) (updates : Store.ConfigUpdates)
  | SFlush.

Definition run_store_op (st : Store.State) (op : StoreOp) : Store.State :=
  match op with
  | SInitialize now cfg => Store.initializeEngine now cfg st
  | SPropagate e sourceRegion content waveType amplitude =>
      snd (Store.propagateWave e sourceRegion content waveType amplitude
                               st)
  | SUpdateSystemState e => Store.updateSystemState e st
  | SSetEnabled enabled => Store.setEnabled enabled st
  | SUpdateConfig now updates => Store.updateConfig now updates st
  | SFlush => Store.flushMemory st
  end.

(** The engine of the store runs under the store's configuration and
    satisfies the invariants of the engine. *)
Definition store_invariant (st : Store.State) : Prop :=
  match Store.waveEngine st with
  | Some i =>
      Store.engineConfig i = Store.config st
      /\ engine_invariant (Store.engine i)
  | None =>
      Store.config st = defaultHolographicConfig
      /\ Store.systemState st = None
  end.

(** ** The caller of [gracefulDegradation] in [CognitiveEngine] *)

Module Cognitive.

(** [attemptGracefulDegradation]: [fallbackJson] is what
    [JSON.stringify] makes of the object [{ input, context, error }],
    which has no [type] property.  [Thrown] stands for
    [throw originalError]. *)
Definition attemptGracefulDegradation (now : Z)
  (fallbackJson : Memory.JsonText) (st : Store.State)
  : Memory.Outcome string * Store.State :=
  match Store.waveEngine st with
  | None => (Memory.Thrown, st)
  | Some i =>
      let r :=
        Engine.gracefulDegradation (Store.engineConfig i) now
          (Memory.mkContext fallbackJson Memory.TypeAbsent)
          (Store.engine i) in
      let st' :=
        Store.mkState (Some (Store.mkInstance (Store.engineConfig i)
                                              (snd r)))
          (Store.isEnabled st) (Store.config st) (Store.systemState st)
          (Store.browserStorage st) in
      match Engine.reconstructed (fst r) with
      | Some text =>
          if Engine.success (fst r) && negb (String.eqb text EmptyString)
          then (Memory.Returned text, st')
          else (Memory.Thrown, st')
      | None => (Memory.Thrown, st')
      end
  end.

End Cognitive.

(** A random source that never repeats, in unary: the [k]-th draw is
    [k] times the letter x. *)
Fixpoint tally (k : nat) : string :=
  match k with
  | O => EmptyString
  | S k' => String "x" (tally k')
  end.

Definition tally_env (t : Z) : Env := mkEnv t tally.

(** Caches that hold one pattern and one behaviour created at the clock
    reading 5. *)
Definition aged_caches : Interference.State :=
  Interference.mkState
    [("wave_1_a-wave_2_b",
      Interference.calculateInterference 5 "r4nd0m" rust_wave
                                         systems_wave)]
    [("emergent_5_r4nd0m",
      Interference.newBehavior 5 "r4nd0m"
        (Interference.calculateInterference 5 "r4nd0m" rust_wave
                                            systems_wave))].

(** A store that has been initialised with the default configuration,
    and a store whose engine holds the three fragments of
    [alpha_store]. *)
Definition ready_shop : Store.State :=
  Store.initializeEngine 1000 defaultHolographicConfig (Store.initial None).

Definition alpha_shop : Store.State :=
  Store.mkState
    (Some (Store.mkInstance defaultHolographicConfig alpha_engine))
    true defaultHolographicConfig None None.

(** The JSON text of a fallback context whose input is the word
    alpha. *)
Definition alpha_json : string :=
  "{" ++ Interference.quote ++ "input" ++ Interference.quote ++ ":"
  ++ Interference.quote ++ "alpha" ++ Interference.quote ++ "}".

Definition alpha_fallback : Memory.Context :=
  Memory.mkContext (Memory.JsonString alpha_json) Memory.TypeAbsent.
(** * Properties *)

(** ** Facts about the primitives *)

Lemma gtb_true_iff (x y : R) : JS.gtb x y = true <-> x > y.
Proof.
  unfold JS.gtb, JS.ltb. destruct (Rlt_dec y x); split; intros; easy.
Qed.

Lemma ltb_true_iff (x y : R) : JS.ltb x y = true <-> x < y.
Proof.
  unfold JS.ltb. destruct (Rlt_dec x y); split; intros; easy.
Qed.

Lemma ltb_false_iff (x y : R) : JS.ltb x y = false <-> y <= x.
Proof.
  unfold JS.ltb. destruct (Rlt_dec x y); split; intros; try easy; lra.
Qed.

Lemma gtb_false_iff (x y : R) : JS.gtb x y = false <-> x <= y.
Proof. unfold JS.gtb. apply ltb_false_iff. Qed.

Lemma leb_true_iff (x y : R) : JS.leb x y = true <-> x <= y.
Proof.
  unfold JS.leb. rewrite negb_true_iff. apply ltb_false_iff.
Qed.

Lemma get_set_same {V} (k : string) (v : V) (m : JsMap.t V) :
  JsMap.get k (JsMap.set k v m) = Some v.
Proof.
  induction m as [|[k' v'] r IH]; simpl.
  - now rewrite String.eqb_refl.
  - destruct (String.eqb k' k) eqn:E; simpl.
    + now rewrite String.eqb_refl.
    + now rewrite E.
Qed.

Lemma get_set_other {V} (k k0 : string) (v : V) (m : JsMap.t V) :
  k0 <> k -> JsMap.get k0 (JsMap.set k v m) = JsMap.get k0 m.
Proof.
  intros Hne. induction m as [|[k' v'] r IH]; simpl.
  - destruct (String.eqb_spec k k0); [congruence | reflexivity].
  - destruct (String.eqb_spec k' k) as [->|Hk]; simpl.
    + destruct (String.eqb_spec k k0); [congruence|].
      reflexivity.
    + destruct (String.eqb_spec k' k0); [reflexivity | exact IH].
Qed.

Lemma get_delete {V} (k k0 : string) (m : JsMap.t V) :
  JsMap.get k0 (JsMap.delete k m)
  = if String.eqb k k0 then None else JsMap.get k0 m.
Proof.
  unfold JsMap.delete.
  induction m as [|[k' v'] r IH]; simpl.
  - now destruct (String.eqb k k0).
  - destruct (String.eqb_spec k' k) as [->|Hk]; simpl.
    + rewrite IH. now destruct (String.eqb_spec k k0).
    + rewrite IH. destruct (String.eqb_spec k' k0) as [->|]; [|easy].
      destruct (String.eqb_spec k k0); [congruence | easy].
Qed.

Lemma get_delete_some {V} (k k0 : string) (v : V) (m : JsMap.t V) :
  JsMap.get k0 (JsMap.delete k m) = Some v -> JsMap.get k0 m = Some v.
Proof.
  rewrite get_delete. now destruct (String.eqb k k0).
Qed.

(** ** The primitives on concrete inputs *)

Example split_space_keeps_empty_words :
  JS.split_space "a  b " = ["a"; EmptyString; "b"; EmptyString].
Proof. reflexivity. Qed.

Example split_ws_merges_runs :
  JS.split_ws " a  b" = [EmptyString; "a"; "b"].
Proof. reflexivity. Qed.

Example trim_both_ends : JS.trim "  a b  " = "a b".
Proof. reflexivity. Qed.

Example toLowerCase_ascii : JS.toLowerCase "Rust And GO" = "rust and go".
Proof. reflexivity. Qed.

Example unique_first_occurrences :
  JS.unique ["b"; "a"; "b"; "c"; "a"] = ["b"; "a"; "c"].
Proof. reflexivity. Qed.

Example to_int32_wraps :
  JS.to_int32 2147483648 = (-2147483648)%Z
  /\ JS.to_int32 4294967295 = (-1)%Z.
Proof. split; reflexivity. Qed.

(** The loop is the classical 31-multiplier string hash. *)
Example hash_hello_world : hash_loop 0 "hello world" = 1794106052%Z.
Proof. reflexivity. Qed.

Example signature_first_five :
  generateCoherenceSignature
    "Rust and Go are GREAT systems languages for everything wonderful"
  = "everything|great|languages|rust|systems".
Proof. reflexivity. Qed.

Example fragment_id_format :
  Memory.generateFragmentId 1700000000000 "k3j2h1g0f"
  = "frag_1700000000000_k3j2h1g0f".
Proof. reflexivity. Qed.

(** ** The phase hash *)

Lemma two_PI_above : 6.27 < 2 * PI.
Proof.
  pose proof (PI_2_3_7_ineq 0) as [H _].
  unfold sum_f_R0, tg_alt, PI_2_3_7_tg, Ratan_seq in H.
  simpl in H. lra.
Qed.

Lemma phase_of_hash_range (h : Z) : 0 <= phase_of_hash h < 2 * PI.
Proof.
  unfold phase_of_hash.
  assert (Hm : (0 <= Z.abs h mod 628 < 628)%Z)
    by (apply Z.mod_pos_bound; lia).
  destruct Hm as [H0 H1].
  apply IZR_le in H0. assert (H2 : (Z.abs h mod 628 <= 627)%Z) by lia.
  apply IZR_le in H2.
  pose proof two_PI_above. split; lra.
Qed.

Lemma calculatePhase_range (content sourceRegion : string) :
  0 <= calculatePhase content sourceRegion < 2 * PI.
Proof. apply phase_of_hash_range. Qed.

(** The hash never leaves the signed 32-bit range, as [& 0xffffffff]
    promises. *)
Lemma to_int32_range (x : Z) :
  (-2147483648 <= JS.to_int32 x < 2147483648)%Z.
Proof.
  unfold JS.to_int32.
  assert (0 <= x mod 4294967296 < 4294967296)%Z
    by (apply Z.mod_pos_bound; lia).
  destruct (Z.ltb_spec (x mod 4294967296) 2147483648); lia.
Qed.

Lemma to_int32_id (x : Z) :
  (-2147483648 <= x < 2147483648)%Z -> JS.to_int32 x = x.
Proof.
  intros H. unfold JS.to_int32.
  destruct (Z_le_gt_dec 0 x).
  - rewrite Z.mod_small by lia.
    destruct (Z.ltb_spec x 2147483648); lia.
  - replace (x mod 4294967296)%Z with (x + 4294967296)%Z.
    + destruct (Z.ltb_spec (x + 4294967296) 2147483648); lia.
    + apply Z.mod_unique with (q := (-1)%Z); lia.
Qed.

(** [x & 0xffffffff] is [ToInt32 x]: the mask is the integer [-1]. *)
Lemma band_mask (x : Z) : JS.band x 4294967295 = JS.to_int32 x.
Proof.
  unfold JS.band.
  replace (JS.to_int32 4294967295) with (-1)%Z by reflexivity.
  apply Z.land_m1_r.
Qed.

Lemma hash_step_range (h : Z) (c : ascii) :
  (-2147483648 <= hash_step h c < 2147483648)%Z.
Proof. unfold hash_step. rewrite band_mask. apply to_int32_range. Qed.

(** The cleanup after an insertion only deletes: what is found under a
    key afterwards was there before. *)
Lemma cleanup_get_some cfg region s k f :
  JsMap.get k (Memory.fragments (Memory.cleanupOldFragments cfg region s))
  = Some f ->
  JsMap.get k (Memory.fragments s) = Some f.
Proof.
  unfold Memory.cleanupOldFragments.
  destruct (_ <? _)%nat; [|easy].
  generalize (JS.slice_from (maxFragmentsPerRegion (memory cfg))
                (Memory.regionFragments region s)).
  intros l. revert s. induction l as [|x l IH]; simpl; intros s H; [easy|].
  apply IH in H. simpl in H. now apply get_delete_some in H.
Qed.

(** ** The stable sort *)

Section SortBy.
Context {A : Type} (le : A -> A -> bool).

Lemma insert_sorted_perm (x : A) (l : list A) :
  Permutation (JS.insert_sorted le x l) (x :: l).
Proof.
  induction l as [|y r IH]; simpl; [reflexivity|].
  destruct (le x y); [reflexivity|].
  rewrite IH. apply perm_swap.
Qed.

Lemma sort_by_perm (l : list A) : Permutation (JS.sort_by le l) l.
Proof.
  induction l as [|x r IH]; simpl; [reflexivity|].
  rewrite insert_sorted_perm. now constructor.
Qed.

Lemma sort_by_length (l : list A) :
  List.length (JS.sort_by le l) = List.length l.
Proof. apply Permutation_length, sort_by_perm. Qed.

Hypothesis le_total : forall a b, le a b = true \/ le b a = true.

Lemma insert_sorted_sorted (x : A) (l : list A) :
  Sorted (fun a b => le a b = true) l ->
  Sorted (fun a b => le a b = true) (JS.insert_sorted le x l).
Proof.
  induction 1 as [|y r Hs IH Hd]; simpl.
  - repeat constructor.
  - destruct (le x y) eqn:E.
    + constructor; [now constructor | now constructor].
    + constructor; [exact IH|].
      destruct r as [|z r']; simpl.
      * constructor. destruct (le_total x y); congruence.
      * destruct (le x z); constructor.
        -- destruct (le_total x y); congruence.
        -- now inversion Hd.
Qed.

Lemma sort_by_sorted (l : list A) :
  Sorted (fun a b => le a b = true) (JS.sort_by le l).
Proof.
  induction l as [|x r IH]; simpl; [constructor|].
  now apply insert_sorted_sorted.
Qed.

End SortBy.

(** ** C8: the coherence signature *)

Lemma significant_words_spec (content w : string) :
  In w (significant_words content) <->
  In w (JS.split_space (JS.toLowerCase content))
  /\ (3 < String.length w)%nat.
Proof.
  unfold significant_words. rewrite filter_In.
  now rewrite Nat.ltb_lt.
Qed.

(** C8, the claim refuted.  On six significant words of which the last
    is the longest, the signature joins the first five and leaves the
    longest word out: it is not the signature of the five longest. *)
Lemma signature_not_five_longest :
  generateCoherenceSignature six_word_content
    = "alpha|bravo|delta|gamma|omega"
  /\ In "extraordinary" (significant_words six_word_content)
  /\ five_longest_signature six_word_content
     = "alpha|bravo|delta|extraordinary|gamma"
  /\ generateCoherenceSignature six_word_content
     <> five_longest_signature six_word_content.
Proof.
  split; [reflexivity|]. split; [vm_compute; tauto|].
  split; [reflexivity|]. vm_compute. discriminate.
Qed.

(** C8, amended.  The signature joins with a bar the FIRST five
    significant words of the content, in alphabetical order of their
    code units; a significant word is a word of the lower-cased content,
    split at single spaces, that is longer than three characters. *)
Theorem signature_first_five_sorted (content : string) :
  exists ws : list string,
    generateCoherenceSignature content = JS.join "|" ws
    /\ Permutation ws (firstn 5 (significant_words content))
    /\ Sorted (fun a b => String.leb a b = true) ws
    /\ (List.length ws <= 5)%nat
    /\ Forall (fun w =>
                 In w (JS.split_space (JS.toLowerCase content))
                 /\ (3 < String.length w)%nat) ws.
Proof.
  exists (JS.sort_strings (JS.slice_to 5 (significant_words content))).
  unfold JS.sort_strings, JS.slice_to.
  split; [reflexivity|]. split; [apply sort_by_perm|].
  split; [apply sort_by_sorted, String.leb_total|].
  split.
  - rewrite sort_by_length. apply firstn_le_length.
  - apply Forall_forall. intros w Hw.
    apply (Permutation_in _ (sort_by_perm _ _)) in Hw.
    apply significant_words_spec.
    revert Hw. generalize (significant_words content). intros l.
    intros H. rewrite <- (firstn_skipn 5 l). apply in_or_app. now left.
Qed.

(** ** Maps with distinct keys *)



Lemma in_get {V} (k : string) (v : V) (m : JsMap.t V) :
  NoDup (JsMap.keys m) -> In (k, v) m -> JsMap.get k m = Some v.
Proof.
  induction m as [|[k' v'] r IH]; simpl; [easy|].
  intros Hnd [H|H].
  - injection H as -> ->. now rewrite String.eqb_refl.
  - inversion Hnd as [|? ? Hnot Hnd']; subst.
    destruct (String.eqb_spec k' k) as [->|Hk].
    + exfalso. apply Hnot. change (In (fst (k, v)) (map fst r)).
      now apply in_map.
    + now apply IH.
Qed.

(** ** C7: the decay of the active waves *)



Lemma decayed_waves_keys (deltaTime : R) (m : JsMap.t Wave.t) :
  NoDup (JsMap.keys m) ->
  NoDup (JsMap.keys (fold_right (Engine.decay_step deltaTime) [] m))
  /\ incl (JsMap.keys (fold_right (Engine.decay_step deltaTime) [] m))
          (JsMap.keys m).
Proof.
  induction m as [|[k w] r IH]; simpl; intros Hnd.
  - split; [constructor | easy].
  - inversion Hnd as [|? ? Hnot Hnd']; subst.
    destruct (IH Hnd') as [IH1 IH2].
    unfold Engine.decay_step at 1 3. cbn [fst snd].
    destruct (JS.ltb _ 0.1); simpl.
    + split; [exact IH1|]. intros x Hx. right. now apply IH2.
    + split.
      * constructor; [|exact IH1]. intros Hin. apply Hnot. now apply IH2.
      * intros x [<-|Hx]; [now left | right; now apply IH2].
Qed.




(** ** The system coherence *)

Lemma set_Forall {V} (P : string * V -> Prop) k v (m : JsMap.t V) :
  Forall P m -> P (k, v) -> Forall P (JsMap.set k v m).
Proof.
  intros Hm Hv. induction Hm as [|[k' v'] r Hx Hr IH]; simpl.
  - now constructor.
  - destruct (String.eqb k' k); constructor; auto.
Qed.

(** Every pattern of the call's result exceeds the constructive
    threshold. *)
Lemma retained_above cfg e l acc :
  Forall (above (constructiveThreshold (interference cfg))) (fst acc) ->
  Forall (above (constructiveThreshold (interference cfg)))
         (fst (fold_left (Interference.score_pair cfg e) l acc)).
Proof.
  revert acc. induction l as [|kp l IH]; intros acc H; simpl; [exact H|].
  apply IH. unfold Interference.score_pair. cbv zeta.
  destruct (JS.gtb _ _) eqn:E; [|exact H].
  simpl. apply set_Forall; [exact H|].
  unfold above. simpl. now apply gtb_true_iff in E.
Qed.

Lemma sum_above (t : R) (l : list R) (a : R) :
  Forall (fun x => x > t) l ->
  fold_left Rplus l a >= a + INR (List.length l) * t
  /\ (l <> [] -> fold_left Rplus l a > a + INR (List.length l) * t).
Proof.
  intros H. revert a. induction H as [|x r Hx Hr IH]; intros a.
  - simpl. split; [lra | congruence].
  - cbn [fold_left]. destruct (IH (a + x)) as [IH1 _].
    rewrite length_cons, S_INR. split; [|intros _]; lra.
Qed.

Lemma calculateSystemCoherence_bounds (t : R) (m : JsMap.t Pattern.t) :
  0 <= t -> Forall (above t) m -> m <> [] ->
  let n := JsMap.size m in
  let mean :=
    fold_left Rplus (map Pattern.coherenceLevel (JsMap.values m)) 0
    / INR n in
  Interference.calculateSystemCoherence m
    = Rmin 1 (mean + Rmin 0.2 (INR n * 0.05))
  /\ mean > t
  /\ Rmin 0.2 (INR n * 0.05) >= 0.05.
Proof.
  intros Ht Hall Hne n mean.
  assert (Hn : (1 <= n)%nat).
  { subst n. unfold JsMap.size. destruct m; [congruence | simpl; lia]. }
  assert (HnR : 1 <= INR n) by (apply le_INR in Hn; exact Hn).
  split; [|split].
  - unfold Interference.calculateSystemCoherence.
    destruct (Nat.eqb_spec (JsMap.size m) 0); [fold n in e; lia|].
    subst mean n. unfold JsMap.size, JsMap.values.
    rewrite !length_map. replace 1.0 with 1 by lra. reflexivity.
  - assert (Hv : Forall (fun x => x > t)
                   (map Pattern.coherenceLevel (JsMap.values m))).
    { unfold JsMap.values. rewrite map_map. apply Forall_map.
      exact Hall. }
    destruct (sum_above t _ 0 Hv) as [_ Hs].
    assert (Hl : List.length (map Pattern.coherenceLevel (JsMap.values m))
                 = n).
    { unfold JsMap.values. now rewrite !length_map. }
    rewrite Hl in Hs.
    assert (Hs' : fold_left Rplus
                    (map Pattern.coherenceLevel (JsMap.values m)) 0
                  > INR n * t).
    { rewrite <- (Rplus_0_l (INR n * t)). apply Hs.
      destruct m; [congruence | simpl; discriminate]. }
    subst mean. apply Rlt_gt. apply Rmult_lt_reg_r with (r := INR n);
      [lra|].
    unfold Rdiv. rewrite Rmult_assoc, Rinv_l by lra. lra.
  - apply Rle_ge. apply Rmin_glb; lra.
Qed.

(** X30.  With a non-negative constructive threshold the system
    coherence of [processWaveInterference] lies in [0, 1]; it is 0.5 when
    no pattern is retained; with patterns retained it is the mean
    coherence of the retained patterns plus [min (0.2, count * 0.05)],
    clamped to at most 1; and when the threshold is at least 0.45 (the
    default is 0.6) it is 0.5 only when no pattern is retained. *)
Theorem systemCoherence_range_and_neutral cfg e waves s :
  0 <= constructiveThreshold (interference cfg) ->
  let r := fst (Interference.processWaveInterference cfg e waves s) in
  let n := JsMap.size (Interference.interferenceResults r) in
  let mean :=
    fold_left Rplus
      (map Pattern.coherenceLevel
           (JsMap.values (Interference.interferenceResults r))) 0
    / INR n in
  0 <= Interference.systemCoherence r <= 1
  /\ (n = 0%nat -> Interference.systemCoherence r = 0.5)
  /\ (n <> 0%nat ->
      Interference.systemCoherence r
        = Rmin 1 (mean + Rmin 0.2 (INR n * 0.05)))
  /\ (0.45 <= constructiveThreshold (interference cfg) ->
      (Interference.systemCoherence r = 0.5 <-> n = 0%nat)).
Proof.
  intros Ht r n mean.
  assert (Hall : Forall (above (constructiveThreshold (interference cfg)))
                        (Interference.interferenceResults r)).
  { subst r. unfold Interference.processWaveInterference. cbv zeta.
    cbn [fst Interference.interferenceResults].
    apply retained_above. constructor. }
  assert (Hsc : Interference.systemCoherence r
                = Interference.calculateSystemCoherence
                    (Interference.interferenceResults r)) by reflexivity.
  destruct (Nat.eq_dec n 0) as [Hn|Hn].
  - assert (Em : Interference.interferenceResults r = []).
    { unfold n, JsMap.size in Hn.
      destruct (Interference.interferenceResults r);
        [reflexivity | discriminate Hn]. }
    assert (Hz : Interference.systemCoherence r = 0.5).
    { rewrite Hsc, Em. reflexivity. }
    rewrite Hz.
    split; [lra|]. split; [easy|]. split; [easy|]. easy.
  - assert (Hne : Interference.interferenceResults r <> []).
    { intros Em. apply Hn. unfold n. now rewrite Em. }
    destruct (calculateSystemCoherence_bounds _ _ Ht Hall Hne)
      as [Heq [Hmean Hboost]].
    fold n in Heq, Hmean, Hboost. fold mean in Heq, Hmean.
    rewrite Hsc, Heq.
    split; [|split; [easy|split; [easy|]]].
    + split.
      * apply Rmin_glb; lra.
      * apply Rmin_l.
    + intros H45. split; [|easy].
      intros H5. exfalso.
      assert (H : Rmin 1 (mean + Rmin 0.2 (INR n * 0.05)) > 0.5)
        by (apply Rmin_glb_lt; lra).
      lra.
Qed.

Lemma systemCoherence_witness :
  0 <= Interference.systemCoherence
         (fst (Interference.processWaveInterference defaultHolographicConfig
                 (constant_env 5) [rust_wave; systems_wave]
                 Interference.construct)) <= 1.
Proof.
  apply (systemCoherence_range_and_neutral defaultHolographicConfig
           (constant_env 5) [rust_wave; systems_wave]
           Interference.construct).
  simpl. lra.
Defined.

(** ** The reconstruction cache *)

Lemma cleanup_cache cfg region s :
  Memory.reconstructionCache (Memory.cleanupOldFragments cfg region s)
  = Memory.reconstructionCache s.
Proof.
  unfold Memory.cleanupOldFragments.
  destruct (_ <? _)%nat; [|reflexivity].
  generalize (JS.slice_from (maxFragmentsPerRegion (memory cfg))
                (Memory.regionFragments region s)).
  intros l. revert s. induction l as [|x l IH]; intros s; simpl;
    [reflexivity|].
  now rewrite IH.
Qed.

Lemma store_cache cfg now rand content region wt imp sid s :
  Memory.reconstructionCache
    (snd (Memory.storeFragment cfg now rand content region wt imp sid s))
  = Memory.reconstructionCache s.
Proof. unfold Memory.storeFragment. simpl. now rewrite cleanup_cache. Qed.

Lemma reconstruct_cached now c r s k t :
  Memory.json c = Memory.JsonString k ->
  JsMap.get k (Memory.reconstructionCache s) = Some t ->
  Memory.reconstructInformation now c r s = (Memory.Returned (Some t), s).
Proof.
  intros Hk Hc. unfold Memory.reconstructInformation.
  now rewrite Hk, Hc.
Qed.

(** A call that misses the cache returns what [reconstructFresh]
    computes; a [null] leaves the state as it was. *)
Lemma reconstruct_missed now c r s k :
  Memory.json c = Memory.JsonString k ->
  JsMap.get k (Memory.reconstructionCache s) = None ->
  let required := match r with Some x => x | None => 0.6 end in
  fst (Memory.reconstructInformation now c r s)
  = Memory.Returned (Memory.reconstructFresh now k c required s)
  /\ (Memory.reconstructFresh now k c required s = None ->
      snd (Memory.reconstructInformation now c r s) = s).
Proof.
  intros Hk Hc required. unfold Memory.reconstructInformation.
  rewrite Hk, Hc. fold required.
  destruct (Memory.reconstructFresh now k c required s); simpl; auto.
  split; [reflexivity | discriminate].
Qed.

(** A call that returns text leaves that text in the cache under the
    serialized context. *)
Lemma reconstruct_text_cached now c r s t :
  fst (Memory.reconstructInformation now c r s)
  = Memory.Returned (Some t) ->
  exists k,
    Memory.json c = Memory.JsonString k
    /\ JsMap.get k (Memory.reconstructionCache
                      (snd (Memory.reconstructInformation now c r s)))
       = Some t.
Proof.
  unfold Memory.reconstructInformation.
  destruct (Memory.json c) as [| |k]; simpl; try discriminate.
  destruct (JsMap.get k (Memory.reconstructionCache s)) as [cached|] eqn:Hc.
  - simpl. intros [= ->]. exists k. now split.
  - destruct (Memory.reconstructFresh _ _ _ _ _) as [text|];
      simpl; [|discriminate].
    intros [= ->]. exists k. split; [reflexivity|]. apply get_set_same.
Qed.

(** A call that returns [null] changes nothing and finds nothing cached
    under its key. *)
Lemma reconstruct_null_uncached now c r s :
  fst (Memory.reconstructInformation now c r s) = Memory.Returned None ->
  snd (Memory.reconstructInformation now c r s) = s
  /\ exists k,
       Memory.json c = Memory.JsonString k
       /\ JsMap.get k (Memory.reconstructionCache s) = None.
Proof.
  unfold Memory.reconstructInformation.
  destruct (Memory.json c) as [| |k]; simpl; try discriminate.
  destruct (JsMap.get k (Memory.reconstructionCache s)) as [cached|] eqn:Hc.
  - simpl. discriminate.
  - destruct (Memory.reconstructFresh _ _ _ _ _) as [text|];
      simpl; [discriminate|].
    intros _. split; [reflexivity|]. exists k. now split.
Qed.

(** No operation other than [clearCache] and [flushAllMemory] removes or
    replaces a cache entry. *)
Lemma run_op_keeps_cache cfg s op k t :
  JsMap.get k (Memory.reconstructionCache s) = Some t ->
  JsMap.get k (Memory.reconstructionCache (run_op cfg s op)) = Some t.
Proof.
  intros Hk. destruct op as [now rand content region wt imp sid
                            |now c r| |region];
    cbn [run_op]; try exact Hk.
  - now rewrite store_cache.
  - unfold Memory.reconstructInformation.
    destruct (Memory.json c) as [| |k']; simpl; try exact Hk.
    destruct (JsMap.get k' (Memory.reconstructionCache s)) as [cached|]
      eqn:Hc; simpl; [exact Hk|].
    destruct (Memory.reconstructFresh _ _ _ _ _) as [text|];
      simpl; [|exact Hk].
    rewrite get_set_other; [exact Hk|]. congruence.
Qed.

Lemma run_ops_keep_cache cfg ops s k t :
  JsMap.get k (Memory.reconstructionCache s) = Some t ->
  JsMap.get k (Memory.reconstructionCache (fold_left (run_op cfg) ops s))
  = Some t.
Proof.
  revert s. induction ops as [|op ops IH]; intros s Hk; simpl; [exact Hk|].
  apply IH. now apply run_op_keeps_cache.
Qed.

(** ** Evaluating the store on the example with three fragments *)

Lemma alpha_fragments :
  Memory.fragments alpha_store
  = [("frag_1000_aaaaaaaaa", alpha_first);
     ("frag_2000_bbbbbbbbb", alpha_second);
     ("frag_3000_ccccccccc", beta_third)].
Proof. reflexivity. Qed.

Lemma temporalBoost_nonneg now f : 0 <= Memory.temporalBoost now f.
Proof. unfold Memory.temporalBoost. apply Rmax_l. Qed.

(** A fragment of the context's type with importance 1 is relevant at
    any time: the type match alone scores 0.3. *)
Lemma alpha_relevant now (f : Fragment.t) :
  Memory.commonContextWords (JS.toLowerCase confidence_json) f = [] ->
  Fragment.waveType f = CONFIDENCE ->
  Fragment.importance f = 1 ->
  Memory.is_relevant now (JS.toLowerCase confidence_json)
                     confidence_context f = true.
Proof.
  intros Hw Ht Hi. unfold Memory.is_relevant, Memory.relevanceScore.
  rewrite Hw. unfold Memory.type_matches.
  cbn [Memory.type_field confidence_context]. rewrite Ht, Hi.
  simpl. apply gtb_true_iff.
  pose proof (temporalBoost_nonneg now f). lra.
Qed.

Lemma alpha_first_relevant now :
  Memory.is_relevant now (JS.toLowerCase confidence_json)
                     confidence_context alpha_first = true.
Proof. now apply alpha_relevant. Qed.

Lemma alpha_second_relevant now :
  Memory.is_relevant now (JS.toLowerCase confidence_json)
                     confidence_context alpha_second = true.
Proof. now apply alpha_relevant. Qed.

(** The third fragment shares one word with the context and has no type
    match: its score is [0.1 + 0.2 * boost], above 0.2 only while it is
    younger than twelve hours. *)
Lemma beta_relevant_early :
  Memory.is_relevant eleven_hours_later (JS.toLowerCase confidence_json)
                     confidence_context beta_third = true.
Proof.
  unfold Memory.is_relevant, Memory.relevanceScore.
  replace (Memory.commonContextWords (JS.toLowerCase confidence_json)
                                     beta_third)
    with ["beta"] by reflexivity.
  simpl. apply gtb_true_iff. unfold Memory.temporalBoost.
  replace (eleven_hours_later - Fragment.timestamp beta_third)%Z
    with 39600000%Z by reflexivity.
  rewrite Rmax_right by lra. lra.
Qed.

Lemma beta_irrelevant_late :
  Memory.is_relevant thirteen_hours_later (JS.toLowerCase confidence_json)
                     confidence_context beta_third = false.
Proof.
  unfold Memory.is_relevant, Memory.relevanceScore.
  replace (Memory.commonContextWords (JS.toLowerCase confidence_json)
                                     beta_third)
    with ["beta"] by reflexivity.
  simpl. apply gtb_false_iff. unfold Memory.temporalBoost.
  replace (thirteen_hours_later - Fragment.timestamp beta_third)%Z
    with 46800000%Z by reflexivity.
  rewrite Rmax_right by lra. lra.
Qed.

(** The stable sort leaves fragments of equal importance in place. *)
Lemma sort_equal_importance (l : list Fragment.t) :
  Forall (fun f => Fragment.importance f = 1) l ->
  JS.sort_by Memory.more_important_first l = l.
Proof.
  induction 1 as [|x r Hx Hr IH]; simpl; [reflexivity|].
  rewrite IH. destruct r as [|y r']; simpl; [reflexivity|].
  unfold Memory.more_important_first. inversion Hr; subst.
  replace (JS.leb (Fragment.importance y) (Fragment.importance x))
    with true; [reflexivity|].
  symmetry. apply leb_true_iff. lra.
Qed.

Lemma relevant_early :
  Memory.findRelevantFragments eleven_hours_later
    (JS.toLowerCase confidence_json) confidence_context alpha_store
  = [alpha_first; alpha_second; beta_third].
Proof.
  unfold Memory.findRelevantFragments. rewrite alpha_fragments.
  cbn [JsMap.values map snd filter].
  rewrite alpha_first_relevant, alpha_second_relevant, beta_relevant_early.
  apply sort_equal_importance. repeat constructor.
Qed.

Lemma relevant_late :
  Memory.findRelevantFragments thirteen_hours_later
    (JS.toLowerCase confidence_json) confidence_context alpha_store
  = [alpha_first; alpha_second].
Proof.
  unfold Memory.findRelevantFragments. rewrite alpha_fragments.
  cbn [JsMap.values map snd filter].
  rewrite alpha_first_relevant, alpha_second_relevant, beta_irrelevant_late.
  apply sort_equal_importance. repeat constructor.
Qed.

(** Same content, same region, same type: the coherence is 1. *)
Lemma coherence_alpha :
  Memory.calculateFragmentCoherence alpha_first alpha_second = 1.
Proof.
  unfold Memory.calculateFragmentCoherence.
  replace (Memory.sharedWords alpha_first alpha_second) with ["alpha"]
    by reflexivity.
  replace (Memory.contentWords alpha_first) with ["alpha"] by reflexivity.
  replace (Memory.contentWords alpha_second) with ["alpha"] by reflexivity.
  cbn [Fragment.frequency Fragment.phase alpha_first alpha_second
       Memory.newFragment].
  rewrite !Rminus_diag, Rabs_R0, Ropp_0, exp_0, cos_0. simpl. lra.
Qed.

Lemma exp_neg_le_one (x : R) : 0 <= x -> exp (- x) <= 1.
Proof.
  intros [H|<-].
  - left. rewrite <- exp_0. apply exp_increasing. lra.
  - rewrite Ropp_0, exp_0. lra.
Qed.

Lemma coherence_beta_bound (f : Fragment.t) :
  Memory.sharedWords f beta_third = [] ->
  Memory.calculateFragmentCoherence f beta_third <= 0.6.
Proof.
  intros Hs. unfold Memory.calculateFragmentCoherence. rewrite Hs.
  pose proof (exp_neg_le_one
                (Rabs (Fragment.frequency f - Fragment.frequency beta_third))
                (Rabs_pos _)).
  pose proof (COS_bound
                (Rabs (Fragment.phase f - Fragment.phase beta_third)))
    as [_ Hc].
  simpl List.length. simpl INR at 1. unfold Rdiv at 1.
  rewrite Rmult_0_l. lra.
Qed.

Lemma viability_early :
  Memory.assessReconstructionViability
    [alpha_first; alpha_second; beta_third] < 0.7.
Proof.
  unfold Memory.assessReconstructionViability.
  cbn [Memory.pair_totals fold_left fst snd Nat.ltb Nat.leb List.length].
  rewrite coherence_alpha.
  pose proof (coherence_beta_bound alpha_first eq_refl).
  pose proof (coherence_beta_bound alpha_second eq_refl).
  simpl INR.
  rewrite Rmin_right by lra. lra.
Qed.

Lemma viability_late :
  Memory.assessReconstructionViability [alpha_first; alpha_second] = 0.82.
Proof.
  unfold Memory.assessReconstructionViability.
  cbn [Memory.pair_totals fold_left fst snd Nat.ltb Nat.leb List.length].
  rewrite coherence_alpha. simpl INR.
  rewrite Rmin_right by lra. lra.
Qed.

Lemma reconstruction_late :
  Memory.performHolographicReconstruction [alpha_first; alpha_second]
  = "alpha".
Proof.
  unfold Memory.performHolographicReconstruction.
  replace (JS.unique (map Fragment.content [alpha_first; alpha_second]))
    with ["alpha"] by reflexivity.
  cbn [fold_left].
  replace (JS.gtb (Memory.totalAmplitude [alpha_first; alpha_second]
                                         "alpha") 0.3) with true.
  - reflexivity.
  - symmetry. apply gtb_true_iff. unfold Memory.totalAmplitude.
    simpl. lra.
Qed.

Lemma alpha_cache_empty :
  Memory.reconstructionCache alpha_store = [].
Proof. reflexivity. Qed.

Lemma fresh_early :
  Memory.reconstructFresh eleven_hours_later confidence_json
    confidence_context 0.7 alpha_store = None.
Proof.
  unfold Memory.reconstructFresh. rewrite relevant_early.
  cbv zeta. pose proof viability_early as H.
  apply ltb_true_iff in H. now rewrite H.
Qed.

Lemma fresh_late_at (required : R) :
  required <= 0.82 ->
  Memory.reconstructFresh thirteen_hours_later confidence_json
    confidence_context required alpha_store = Some "alpha".
Proof.
  intros Hr. unfold Memory.reconstructFresh. rewrite relevant_late.
  cbv zeta. rewrite viability_late, reconstruction_late.
  replace (JS.ltb 0.82 required) with false; [reflexivity|].
  symmetry. now apply ltb_false_iff.
Qed.

Lemma fresh_late :
  Memory.reconstructFresh thirteen_hours_later confidence_json
    confidence_context 0.7 alpha_store = Some "alpha".
Proof. apply fresh_late_at. lra. Qed.

Lemma first_call_early :
  Memory.reconstructInformation eleven_hours_later confidence_context
    (Some 0.7) alpha_store = (Memory.Returned None, alpha_store).
Proof.
  unfold Memory.reconstructInformation.
  cbn [Memory.json confidence_context].
  rewrite alpha_cache_empty. cbn [JsMap.get].
  now rewrite fresh_early.
Qed.

Lemma call_late :
  Memory.reconstructInformation thirteen_hours_later confidence_context
    (Some 0.7) alpha_store
  = (Memory.Returned (Some "alpha"),
     Memory.cache_set confidence_json "alpha" alpha_store).
Proof.
  unfold Memory.reconstructInformation.
  cbn [Memory.json confidence_context].
  rewrite alpha_cache_empty. cbn [JsMap.get].
  now rewrite fresh_late.
Qed.

(** A call either leaves the state as it was or returns text. *)
Lemma reconstruct_state_cases now c r s :
  snd (Memory.reconstructInformation now c r s) = s
  \/ exists t, fst (Memory.reconstructInformation now c r s)
               = Memory.Returned (Some t).
Proof.
  unfold Memory.reconstructInformation.
  destruct (Memory.json c) as [| |k]; try (now left).
  destruct (JsMap.get k (Memory.reconstructionCache s)); try (now left).
  destruct (Memory.reconstructFresh _ _ _ _ _) as [text|]; [|now left].
  right. now exists text.
Qed.

(** ** C3: idempotence of [reconstructInformation] *)

(** C3, the claim refuted.  Same context, same required coherence, same
    fragments: eleven hours after the third fragment was stored the call
    returns [null] (three relevant fragments, viability below 0.7), and
    the next call, two hours later, returns text (the third fragment is
    no longer relevant and the two that are left cohere). *)
Lemma reconstruction_changes_with_the_clock :
  let first :=
    Memory.reconstructInformation eleven_hours_later confidence_context
                                  (Some 0.7) alpha_store in
  let second :=
    Memory.reconstructInformation thirteen_hours_later confidence_context
                                  (Some 0.7) (snd first) in
  fst first = Memory.Returned None
  /\ snd first = alpha_store
  /\ fst second = Memory.Returned (Some "alpha")
  /\ fst second <> fst first.
Proof.
  cbv zeta. rewrite first_call_early. cbn [fst snd]. rewrite call_late.
  cbn [fst]. repeat split. discriminate.
Qed.

(** C3, amended.  Of two consecutive calls with the same context and
    the same required coherence, with no operation in between: when the
    first returns text, the second returns the same text, from the cache
    and without changing the state, whatever the clock reads; when the
    first returns [null] (or throws), the second does the same provided
    the clock reads the same at both calls.  Neither call changes the
    fragments. *)
Theorem reconstructInformation_idempotent now1 now2 c r s :
  let first := Memory.reconstructInformation now1 c r s in
  let second := Memory.reconstructInformation now2 c r (snd first) in
  (forall t, fst first = Memory.Returned (Some t) ->
             second = (Memory.Returned (Some t), snd first))
  /\ (now1 = now2 -> fst second = fst first /\ snd second = snd first)
  /\ Memory.fragments (snd first) = Memory.fragments s.
Proof.
  cbv zeta. split; [|split].
  - intros t Ht. destruct (reconstruct_text_cached _ _ _ _ _ Ht)
      as [k [Hk Hc]].
    now apply reconstruct_cached with (k := k).
  - intros <-.
    destruct (reconstruct_state_cases now1 c r s) as [Hs|[t Ht]].
    + rewrite Hs. now split.
    + destruct (reconstruct_text_cached _ _ _ _ _ Ht) as [k [Hk Hc]].
      rewrite (reconstruct_cached now1 c r _ k t Hk Hc).
      now split.
  - unfold Memory.reconstructInformation.
    destruct (Memory.json c) as [| |k]; try reflexivity.
    destruct (JsMap.get k (Memory.reconstructionCache s)); try reflexivity.
    now destruct (Memory.reconstructFresh _ _ _ _ _).
Qed.

Lemma reconstructInformation_idempotent_witness :
  Memory.reconstructInformation eleven_hours_later confidence_context
    (Some 0.7)
    (snd (Memory.reconstructInformation thirteen_hours_later
            confidence_context (Some 0.7) alpha_store))
  = (Memory.Returned (Some "alpha"),
     snd (Memory.reconstructInformation thirteen_hours_later
            confidence_context (Some 0.7) alpha_store)).
Proof.
  apply (reconstructInformation_idempotent thirteen_hours_later
           eleven_hours_later confidence_context (Some 0.7) alpha_store).
  now rewrite call_late.
Defined.

(** ** C9: the cache is never invalidated by fragment mutation *)

(** C9.  Once [reconstructInformation] has returned a string [t] for a
    context, every later call for that context returns [t] and leaves
    the state alone, for any required coherence and clock reading, and
    after any interleaving of [storeFragment] calls (with their
    evictions) and other reconstructions; only [clearCache] and
    [flushAllMemory] empty the cache.  A [null] result caches nothing:
    the state is unchanged, nothing is stored under the context's key,
    and every later call on that state computes its result afresh. *)
Theorem reconstruction_cache_never_invalidated cfg c now1 r1 s :
  (forall t,
      fst (Memory.reconstructInformation now1 c r1 s)
      = Memory.Returned (Some t) ->
      forall ops now2 r2,
        let s' :=
          fold_left (run_op cfg) ops
                    (snd (Memory.reconstructInformation now1 c r1 s)) in
        Memory.reconstructInformation now2 c r2 s'
        = (Memory.Returned (Some t), s'))
  /\ (fst (Memory.reconstructInformation now1 c r1 s) = Memory.Returned None ->
      snd (Memory.reconstructInformation now1 c r1 s) = s
      /\ exists k,
           Memory.json c = Memory.JsonString k
           /\ JsMap.get k (Memory.reconstructionCache s) = None
           /\ forall now2 r2,
                fst (Memory.reconstructInformation now2 c r2 s)
                = Memory.Returned
                    (Memory.reconstructFresh now2 k c
                       (match r2 with Some x => x | None => 0.6 end) s))
  /\ (forall k,
        JsMap.get k (Memory.reconstructionCache (Memory.clearCache s)) = None
        /\ JsMap.get k (Memory.reconstructionCache
                          (Memory.flushAllMemory cfg s)) = None).
Proof.
  split; [|split].
  - intros t Ht ops now2 r2 s'.
    destruct (reconstruct_text_cached _ _ _ _ _ Ht) as [k [Hk Hc]].
    apply reconstruct_cached with (k := k); [exact Hk|].
    subst s'. now apply run_ops_keep_cache.
  - intros Hn. destruct (reconstruct_null_uncached _ _ _ _ Hn)
      as [Hs [k [Hk Hc]]].
    split; [exact Hs|]. exists k. split; [exact Hk|]. split; [exact Hc|].
    intros now2 r2. now apply reconstruct_missed.
  - intros k. split; reflexivity.
Qed.

Lemma reconstruction_cache_witness :
  let s' :=
    fold_left (run_op defaultHolographicConfig) interleaved_ops
      (snd (Memory.reconstructInformation thirteen_hours_later
              confidence_context (Some 0.7) alpha_store)) in
  Memory.reconstructInformation 60000000 confidence_context (Some 1) s'
  = (Memory.Returned (Some "alpha"), s').
Proof.
  apply (reconstruction_cache_never_invalidated defaultHolographicConfig
           confidence_context thirteen_hours_later (Some 0.7) alpha_store).
  now rewrite call_late.
Defined.

(** ** Evaluating the store on the example with empty contents *)

Lemma blank_fragments :
  Memory.fragments blank_store
  = [("frag_1000_k3j2h1g0f", blank_first);
     ("frag_1000_z9y8x7w6v", blank_second)].
Proof. reflexivity. Qed.

Lemma blank_relevant (f : Fragment.t) :
  Fragment.content f = EmptyString ->
  Fragment.timestamp f = 1000%Z ->
  Fragment.importance f = 1 ->
  Memory.is_relevant 1000 "{}" empty_object_context f = true.
Proof.
  intros Hc Ht Hi. unfold Memory.is_relevant, Memory.relevanceScore.
  replace (Memory.commonContextWords "{}" f) with [EmptyString]
    by (unfold Memory.commonContextWords; now rewrite Hc).
  cbn [Memory.type_matches Memory.type_field empty_object_context].
  cbv zeta. apply gtb_true_iff. unfold Memory.temporalBoost.
  rewrite Ht, Hi. replace (1000 - 1000)%Z with 0%Z by reflexivity.
  rewrite Rmax_right by lra. simpl. lra.
Qed.

Lemma blank_relevant_fragments :
  Memory.findRelevantFragments 1000 (JS.toLowerCase "{}")
    empty_object_context blank_store = [blank_first; blank_second].
Proof.
  unfold Memory.findRelevantFragments. rewrite blank_fragments.
  cbn [JsMap.values map snd filter].
  change (JS.toLowerCase "{}") with "{}".
  rewrite !blank_relevant by reflexivity.
  apply sort_equal_importance. repeat constructor.
Qed.

Lemma blank_coherence :
  Memory.calculateFragmentCoherence blank_first blank_second = 1.
Proof.
  unfold Memory.calculateFragmentCoherence.
  replace (Memory.sharedWords blank_first blank_second)
    with [EmptyString] by reflexivity.
  replace (Memory.contentWords blank_first) with [EmptyString]
    by reflexivity.
  replace (Memory.contentWords blank_second) with [EmptyString]
    by reflexivity.
  cbn [Fragment.frequency Fragment.phase blank_first blank_second
       Memory.newFragment].
  rewrite !Rminus_diag, Rabs_R0, Ropp_0, exp_0, cos_0. simpl. lra.
Qed.

Lemma blank_viability :
  Memory.assessReconstructionViability [blank_first; blank_second] = 0.82.
Proof.
  unfold Memory.assessReconstructionViability.
  cbn [Memory.pair_totals fold_left fst snd Nat.ltb Nat.leb List.length].
  rewrite blank_coherence. simpl INR.
  rewrite Rmin_right by lra. lra.
Qed.

Lemma blank_reconstruction :
  Memory.performHolographicReconstruction [blank_first; blank_second]
  = EmptyString.
Proof.
  unfold Memory.performHolographicReconstruction.
  replace (JS.unique (map Fragment.content [blank_first; blank_second]))
    with [EmptyString] by reflexivity.
  cbn [fold_left].
  replace (JS.gtb (Memory.totalAmplitude [blank_first; blank_second]
                                         EmptyString) 0.3) with true.
  - reflexivity.
  - symmetry. apply gtb_true_iff. unfold Memory.totalAmplitude.
    simpl. lra.
Qed.

Lemma blank_call :
  Memory.reconstructInformation 1000 empty_object_context (Some 0.4)
                                blank_store
  = (Memory.Returned (Some EmptyString),
     Memory.cache_set "{}" EmptyString blank_store).
Proof.
  unfold Memory.reconstructInformation.
  cbn [Memory.json empty_object_context].
  replace (JsMap.get "{}" (Memory.reconstructionCache blank_store))
    with (@None string) by reflexivity.
  unfold Memory.reconstructFresh. rewrite blank_relevant_fragments.
  cbv zeta. rewrite blank_viability, blank_reconstruction.
  replace (JS.ltb 0.82 0.4) with false; [reflexivity|].
  symmetry. apply ltb_false_iff. lra.
Qed.

(** ** C6: graceful degradation *)

(** C6, the claim refuted.  The store holds two fragments of empty
    content; at the default floor 0.4 the reconstruction for the context
    [{}] succeeds (viability 0.82) and yields the empty string, which is
    not [null]; [gracefulDegradation] nevertheless answers with the
    emergency fallback. *)
Lemma empty_reconstruction_falls_back :
  fst (Memory.reconstructInformation 1000 empty_object_context
         (Some (minimumCoherence (degradation defaultHolographicConfig)))
         (Engine.holographicMemory blank_engine))
  = Memory.Returned (Some EmptyString)
  /\ fst (Engine.gracefulDegradation defaultHolographicConfig 1000
            empty_object_context blank_engine)
     = emergency_result
  /\ fst (Engine.gracefulDegradation defaultHolographicConfig 1000
            empty_object_context blank_engine)
     <> reconstruction_result EmptyString.
Proof.
  assert (H : fst (Engine.gracefulDegradation defaultHolographicConfig 1000
                     empty_object_context blank_engine)
              = emergency_result).
  { unfold Engine.gracefulDegradation.
    cbn [minimumCoherence degradation defaultHolographicConfig
         Engine.holographicMemory blank_engine].
    rewrite blank_call. reflexivity. }
  split; [|split].
  - cbn [minimumCoherence degradation defaultHolographicConfig
         Engine.holographicMemory blank_engine].
    now rewrite blank_call.
  - exact H.
  - rewrite H. discriminate.
Qed.

(** C6, amended.  [gracefulDegradation] is total and returns one of
    three results, decided by the reconstruction at the configured
    minimum coherence: NON-EMPTY text gives the reconstruction result
    with that text and confidence 0.6; [null] OR THE EMPTY STRING gives
    the emergency fallback with confidence 0.3 and no text, in particular
    when the relevant fragments' viability is below the floor; an
    exception gives the failed result with confidence 0. *)
Theorem gracefulDegradation_three_results cfg now c s :
  let floor := minimumCoherence (degradation cfg) in
  let attempt :=
    fst (Memory.reconstructInformation now c (Some floor)
                                       (Engine.holographicMemory s)) in
  let d := fst (Engine.gracefulDegradation cfg now c s) in
  (forall text,
      attempt = Memory.Returned (Some text) -> text <> EmptyString ->
      d = reconstruction_result text)
  /\ (attempt = Memory.Returned None
      \/ attempt = Memory.Returned (Some EmptyString) ->
      d = emergency_result)
  /\ (attempt = Memory.Thrown -> d = failed_result)
  /\ ((exists text, text <> EmptyString /\ d = reconstruction_result text)
      \/ d = emergency_result \/ d = failed_result)
  /\ (forall k,
        Memory.json c = Memory.JsonString k ->
        JsMap.get k (Memory.reconstructionCache (Engine.holographicMemory s))
        = None ->
        let relevant :=
          Memory.findRelevantFragments now (JS.toLowerCase k) c
                                       (Engine.holographicMemory s) in
        relevant <> [] ->
        Memory.assessReconstructionViability relevant < floor ->
        d = emergency_result).
Proof.
  intros floor attempt d.
  assert (Hd : d = match attempt with
                   | Memory.Returned (Some text) =>
                       if String.eqb text EmptyString then emergency_result
                       else reconstruction_result text
                   | Memory.Returned None => emergency_result
                   | Memory.Thrown => failed_result
                   end).
  { subst d attempt floor. unfold Engine.gracefulDegradation. cbv zeta.
    destruct (fst (Memory.reconstructInformation _ _ _ _)) as [|[text|]];
      try reflexivity.
    now destruct (String.eqb text EmptyString). }
  split; [|split; [|split; [|split]]].
  - intros text Ha Hne. rewrite Hd, Ha.
    destruct (String.eqb_spec text EmptyString); [contradiction|easy].
  - intros [Ha|Ha]; rewrite Hd, Ha; reflexivity.
  - intros Ha. now rewrite Hd, Ha.
  - rewrite Hd. destruct attempt as [|[text|]]; auto.
    destruct (String.eqb_spec text EmptyString); auto.
    left. now exists text.
  - intros k Hk Hc relevant Hne Hv. rewrite Hd.
    destruct (reconstruct_missed now c (Some floor) _ k Hk Hc)
      as [Hfst _].
    fold attempt in Hfst. rewrite Hfst.
    unfold Memory.reconstructFresh. fold relevant.
    destruct relevant as [|f l]; [congruence|].
    cbv zeta. apply ltb_true_iff in Hv. now rewrite Hv.
Qed.

Lemma gracefulDegradation_witness :
  fst (Engine.gracefulDegradation defaultHolographicConfig
         thirteen_hours_later confidence_context alpha_engine)
  = reconstruction_result "alpha".
Proof.
  apply (gracefulDegradation_three_results defaultHolographicConfig
           thirteen_hours_later confidence_context alpha_engine).
  - cbn [minimumCoherence degradation defaultHolographicConfig
         Engine.holographicMemory alpha_engine].
    destruct (reconstruct_missed thirteen_hours_later confidence_context
                (Some 0.4) alpha_store confidence_json eq_refl eq_refl)
      as [H _].
    rewrite H. cbv zeta. rewrite fresh_late_at by lra. reflexivity.
  - discriminate.
Defined.

(** ** C1: loading the persisted fragments *)

Lemma load_fragments now ps s :
  Memory.fragments (Memory.load_entries now ps s)
  = load_into now (Memory.fragments s) (reached ps).
Proof.
  unfold load_into. revert s.
  induction ps as [|p ps IH]; intros s; [reflexivity|].
  cbn [Memory.load_entries reached]. unfold Memory.load_entry.
  destruct (Memory.p_timestamp p); cbn [fold_left]; try reflexivity;
    rewrite IH; now destruct (Memory.restore now p).
Qed.



Lemma reached_readable (ps : list Memory.Persisted) p :
  In p (reached ps) ->
  In p ps /\ Memory.p_timestamp p <> Memory.TsUnreadable.
Proof.
  induction ps as [|q ps IH]; [easy|]. cbn [reached].
  destruct (Memory.p_timestamp q) eqn:Hq; try easy;
    (intros [<-|H]; [split; [now left | congruence]
                    | destruct (IH H); split; [now right | assumption]]).
Qed.

(** What [restore] accepts: a string timestamp that parses and a decayed
    amplitude above 0.1; the accepted fragment carries the parsed date
    and the decayed amplitude, and the other fields unchanged. *)
Lemma restore_spec now p f :
  Memory.restore now p = Some f <->
  exists t,
    Memory.p_timestamp p = Memory.TsString (Some t)
    /\ Memory.p_amplitude p
       * exp (- IZR (now - t) / IZR Memory.sevenDays) > 0.1
    /\ f = Fragment.mk (Memory.p_id p) (Memory.p_content p)
             (Memory.p_sourceRegion p) (Memory.p_waveType p)
             (Memory.p_frequency p)
             (Memory.p_amplitude p
              * exp (- IZR (now - t) / IZR Memory.sevenDays))
             (Memory.p_phase p) t (Memory.p_importance p)
             (Memory.p_coherenceSignature p) (Memory.p_sessionId p).
Proof.
  unfold Memory.restore, Memory.validTimestamp, Memory.decayFactor.
  destruct (Memory.p_timestamp p) as [[t|]|o|].
  - destruct (JS.gtb _ 0.1) eqn:E.
    + apply gtb_true_iff in E. split.
      * intros [= <-]. exists t. now repeat split.
      * intros [t' [[= <-] [_ ->]]]. reflexivity.
    + apply gtb_false_iff in E. split; [discriminate|].
      intros [t' [[= <-] [H _]]]. lra.
  - split; [discriminate|]. intros [t [H _]]. discriminate.
  - split; [discriminate|]. intros [t [H _]]. discriminate.
  - split; [discriminate|]. intros [t [H _]]. discriminate.
Qed.

Lemma restore_id now p f :
  Memory.restore now p = Some f -> Fragment.id f = Memory.p_id p.
Proof.
  intros H. apply restore_spec in H. destruct H as [t [_ [_ ->]]].
  reflexivity.
Qed.


Lemma load_into_skips now ps m k :
  (forall p, In p ps -> Memory.p_id p = k -> Memory.restore now p = None) ->
  JsMap.get k (load_into now m ps) = JsMap.get k m.
Proof.
  unfold load_into. revert m.
  induction ps as [|p ps IH]; intros m H; simpl; [reflexivity|].
  rewrite IH by (intros q Hq; apply H; now right).
  destruct (Memory.restore now p) as [g|] eqn:Hr; [|reflexivity].
  apply get_set_other. intros Hk.
  pose proof (restore_id _ _ _ Hr) as Hid.
  rewrite (H p (or_introl eq_refl)) in Hr; [discriminate|].
  congruence.
Qed.

Lemma load_into_complete now ps m p f :
  NoDup (map Memory.p_id ps) -> In p ps ->
  Memory.restore now p = Some f ->
  JsMap.get (Memory.p_id p) (load_into now m ps) = Some f.
Proof.
  revert m. induction ps as [|q ps IH]; intros m Hnd Hin Hr; [easy|].
  simpl in Hnd. inversion Hnd as [|? ? Hnot Hnd']; subst.
  destruct Hin as [->|Hin].
  - unfold load_into. simpl. rewrite Hr. fold (load_into now
      (JsMap.set (Fragment.id f) f m) ps).
    rewrite load_into_skips.
    + rewrite <- (restore_id _ _ _ Hr). apply get_set_same.
    + intros p' Hp' Hid. exfalso. apply Hnot. rewrite <- Hid.
      now apply in_map.
  - unfold load_into. simpl.
    match goal with
    | |- JsMap.get _ (fold_left ?F ps ?m') = _ =>
        change (JsMap.get (Memory.p_id p) (load_into now m' ps) = Some f)
    end.
    now apply IH.
Qed.

Lemma construct_fragments cfg now entries :
  crossSessionEnabled (memory cfg) = true ->
  Memory.fragments (Memory.construct cfg now (Some entries))
  = load_into now JsMap.empty (reached (JsMap.values entries)).
Proof.
  intros H. unfold Memory.construct, Memory.loadPersistedFragments.
  rewrite H. now rewrite load_fragments.
Qed.

Lemma exp_eight_sevenths : exp (- (8 / 7)) > 0.1.
Proof.
  assert (H2 : exp 2 <= 9).
  { replace 2 with (1 + 1) by lra. rewrite exp_plus.
    pose proof exp_le_3. pose proof (exp_pos 1). nra. }
  assert (H87 : exp (8 / 7) < exp 2) by (apply exp_increasing; lra).
  rewrite exp_Ropp.
  assert (Hp : 0 < exp (8 / 7)) by apply exp_pos.
  apply Rlt_gt. apply Rmult_lt_reg_r with (r := exp (8 / 7)); [exact Hp|].
  rewrite Rinv_l by lra. lra.
Qed.

Lemma old_entry_restored :
  exists f,
    Memory.restore eight_days eight_day_old_entry = Some f
    /\ Fragment.amplitude f = 1 * exp (- (8 / 7)).
Proof.
  eexists. split.
  - apply restore_spec. exists 0%Z. split; [reflexivity|]. split.
    + cbn [Memory.p_amplitude eight_day_old_entry].
      replace (- IZR (eight_days - 0) / IZR Memory.sevenDays)
        with (- (8 / 7)).
      * pose proof exp_eight_sevenths. lra.
      * replace (eight_days - 0)%Z with 691200000%Z by reflexivity.
        replace Memory.sevenDays with 604800000%Z by reflexivity. lra.
    + reflexivity.
  - cbn [Fragment.amplitude Memory.p_amplitude eight_day_old_entry].
    replace (eight_days - 0)%Z with 691200000%Z by reflexivity.
    replace Memory.sevenDays with 604800000%Z by reflexivity.
    f_equal. f_equal. lra.
Qed.


(** A [null] entry ends the load: the entry after it, which is loaded
    from a blob of its own, is not loaded. *)
Lemma null_entry_ends_the_load :
  Memory.fragments
    (Memory.construct defaultHolographicConfig eight_days
                      (Some null_then_old)) = JsMap.empty
  /\ JsMap.get "frag_0_old00000a"
       (Memory.fragments
          (Memory.construct defaultHolographicConfig eight_days
             (Some [("frag_0_old00000a", eight_day_old_entry)])))
     <> None.
Proof.
  split; [reflexivity|].
  destruct old_entry_restored as [f [Hr _]].
  rewrite construct_fragments by reflexivity.
  change (reached (JsMap.values [("frag_0_old00000a", eight_day_old_entry)]))
    with [eight_day_old_entry].
  pose proof (load_into_complete eight_days [eight_day_old_entry]
                JsMap.empty eight_day_old_entry f) as H.
  cbn [Memory.p_id eight_day_old_entry] in H. rewrite H.
  - discriminate.
  - simpl. repeat constructor. simpl. tauto.
  - now left.
  - exact Hr.
Qed.



(** ** C10: [getSystemState] and the caches of the interference engine *)

Lemma set_fresh {V} (k : string) (v : V) (m : JsMap.t V) :
  ~ In k (JsMap.keys m) -> JsMap.set k v m = (m ++ [(k, v)])%list.
Proof.
  induction m as [|[k' v'] r IH]; simpl; [reflexivity|].
  intros H. destruct (String.eqb_spec k' k) as [->|Hk].
  - exfalso. apply H. now left.
  - f_equal. apply IH. tauto.
Qed.

Lemma keys_set_present {V} (k : string) (v : V) (m : JsMap.t V) :
  In k (JsMap.keys m) -> JsMap.keys (JsMap.set k v m) = JsMap.keys m.
Proof.
  induction m as [|[k' v'] r IH]; simpl; [easy|].
  intros H. destruct (String.eqb_spec k' k) as [->|Hk]; simpl.
  - reflexivity.
  - f_equal. apply IH. destruct H; [congruence | assumption].
Qed.

Lemma keys_set_incl {V} (k k0 : string) (v : V) (m : JsMap.t V) :
  In k0 (JsMap.keys m) -> In k0 (JsMap.keys (JsMap.set k v m)).
Proof.
  induction m as [|[k' v'] r IH]; simpl; [easy|].
  intros [H|H]; destruct (String.eqb_spec k' k) as [->|Hk]; simpl; auto.
Qed.

Lemma keys_set_self {V} (k : string) (v : V) (m : JsMap.t V) :
  In k (JsMap.keys (JsMap.set k v m)).
Proof.
  induction m as [|[k' v'] r IH]; simpl; [now left|].
  destruct (String.eqb_spec k' k) as [->|Hk]; simpl; auto.
Qed.

(** The coherence of a scored pair does not depend on the clock or on
    the random source. *)
Lemma score_pair_step cfg e acc kp :
  Interference.score_pair cfg e acc kp
  = if retained cfg (snd kp)
    then (JsMap.set (fst (scored e kp)) (snd (scored e kp)) (fst acc),
          JsMap.set (fst (scored e kp)) (snd (scored e kp)) (snd acc))
    else acc.
Proof. reflexivity. Qed.

Lemma qualifies_scored cfg e kp :
  Interference.qualifies cfg (snd (scored e kp))
  = pair_qualifies cfg (snd kp).
Proof. reflexivity. Qed.

(** With distinct pattern ids the call's result lists the retained
    pairs in the order of the loops. *)
Lemma score_fold_results cfg e (l : list (nat * (Wave.t * Wave.t))) m a :
  NoDup (JsMap.keys m
         ++ map (fun kp => Interference.patternId (snd kp)) l)%list ->
  fst (fold_left (Interference.score_pair cfg e) l (m, a))
  = (m ++ map (scored e) (filter (fun kp => retained cfg (snd kp)) l))%list.
Proof.
  revert m a. induction l as [|kp l IH]; intros m a Hnd; simpl.
  - now rewrite app_nil_r.
  - rewrite score_pair_step. cbn [fst snd].
    assert (Hfresh : ~ In (Interference.patternId (snd kp)) (JsMap.keys m)).
    { intros Hin. apply NoDup_remove_2 in Hnd. apply Hnd.
      apply in_or_app. now left. }
    assert (Hnd' : NoDup ((JsMap.keys m ++ [Interference.patternId (snd kp)])
                          ++ map (fun kp => Interference.patternId (snd kp))
                                 l)%list).
    { rewrite <- app_assoc. exact Hnd. }
    destruct (retained cfg (snd kp)).
    + rewrite IH.
      * rewrite set_fresh by exact Hfresh.
        rewrite <- app_assoc. reflexivity.
      * rewrite set_fresh by exact Hfresh.
        unfold JsMap.keys in *. rewrite map_app. exact Hnd'.
    + apply IH. apply NoDup_remove_1 in Hnd. exact Hnd.
Qed.

(** After a pass the pattern cache holds every retained pair and
    everything it held before. *)
Lemma score_fold_cache_has cfg e l m a :
  let a' := snd (fold_left (Interference.score_pair cfg e) l (m, a)) in
  (forall k, In k (JsMap.keys a) -> In k (JsMap.keys a'))
  /\ (forall kp, In kp l -> retained cfg (snd kp) = true ->
                 In (Interference.patternId (snd kp)) (JsMap.keys a')).
Proof.
  revert m a. induction l as [|kp l IH]; intros m a; simpl.
  - split; [auto | easy].
  - rewrite score_pair_step. cbn [fst snd].
    destruct (retained cfg (snd kp)) eqn:E.
    + destruct (IH (JsMap.set (Interference.patternId (snd kp))
                              (snd (scored e kp)) m)
                   (JsMap.set (Interference.patternId (snd kp))
                              (snd (scored e kp)) a)) as [H1 H2].
      split.
      * intros k Hk. apply H1. now apply keys_set_incl.
      * intros kp' [<-|Hin] Hr; [|now apply H2].
        apply H1. apply keys_set_self.
    + destruct (IH m a) as [H1 H2]. split; [exact H1|].
      intros kp' [<-|Hin] Hr; [congruence | now apply H2].
Qed.

(** A pass over pairs that the pattern cache already holds leaves the
    keys of the cache as they are. *)
Lemma score_fold_cache_stable cfg e l m a :
  (forall kp, In kp l -> retained cfg (snd kp) = true ->
              In (Interference.patternId (snd kp)) (JsMap.keys a)) ->
  JsMap.keys (snd (fold_left (Interference.score_pair cfg e) l (m, a)))
  = JsMap.keys a.
Proof.
  revert m a. induction l as [|kp l IH]; intros m a H; simpl;
    [reflexivity|].
  rewrite score_pair_step. cbn [fst snd].
  destruct (retained cfg (snd kp)) eqn:E.
  - rewrite IH.
    + apply keys_set_present. apply H; [now left | exact E].
    + intros kp' Hin Hr. apply keys_set_incl. apply H; [now right|exact Hr].
  - apply IH. intros kp' Hin Hr. apply H; [now right | exact Hr].
Qed.

Lemma filter_map_length {A B} (P : B -> bool) (f : A -> B) (l : list A) :
  List.length (filter P (map f l))
  = List.length (filter (fun x => P (f x)) l).
Proof.
  induction l as [|x l IH]; simpl; [reflexivity|].
  destruct (P (f x)); simpl; now rewrite IH.
Qed.

Lemma filter_filter_both {A} (P Q : A -> bool) (l : list A) :
  filter P (filter Q l) = filter (fun x => Q x && P x) l.
Proof.
  induction l as [|x l IH]; simpl; [reflexivity|].
  destruct (Q x); simpl; [|exact IH].
  destruct (P x); now rewrite IH.
Qed.

Lemma filter_combine_snd {A} (P : A -> bool) (l : list A) (a : nat) :
  List.length (filter (fun kp => P (snd kp))
                      (combine (seq a (List.length l)) l))
  = List.length (filter P l).
Proof.
  revert a. induction l as [|x l IH]; intros a; simpl; [reflexivity|].
  destruct (P x); simpl; now rewrite IH.
Qed.

Lemma map_combine_index {A B} (g : nat -> B) (l : list A) (a : nat) :
  map (fun ki => g (fst ki)) (combine (seq a (List.length l)) l)
  = map g (seq a (List.length l)).
Proof.
  revert a. induction l as [|x l IH]; intros a; simpl; [reflexivity|].
  now rewrite IH.
Qed.

Lemma map_snd_combine_index {A} (l : list A) (a : nat) :
  map snd (combine (seq a (List.length l)) l) = l.
Proof.
  revert a. induction l as [|x l IH]; intros a; simpl; [reflexivity|].
  now rewrite IH.
Qed.

(** Behaviours stored under fresh, distinct ids are appended to the
    cache. *)
Lemma behaviors_fold_append (created : list Behavior.t)
  (cache : JsMap.t Behavior.t) :
  NoDup (JsMap.keys cache ++ map Behavior.id created)%list ->
  fold_left (fun m b => JsMap.set (Behavior.id b) b m) created cache
  = (cache ++ map (fun b => (Behavior.id b, b)) created)%list.
Proof.
  revert cache. induction created as [|b l IH]; intros cache Hnd; simpl.
  - now rewrite app_nil_r.
  - assert (Hfresh : ~ In (Behavior.id b) (JsMap.keys cache)).
    { intros Hin. simpl in Hnd. apply NoDup_remove_2 in Hnd. apply Hnd.
      apply in_or_app. now left. }
    rewrite set_fresh by exact Hfresh. rewrite IH.
    + now rewrite <- app_assoc.
    + unfold JsMap.keys in *. rewrite map_app, <- app_assoc. exact Hnd.
Qed.

(** The ids of the behaviours that a pass creates are the first
    candidate ids. *)
Lemma created_ids cfg e n (results : JsMap.t Pattern.t)
  (cache : JsMap.t Behavior.t) :
  map Behavior.id
      (fst (Interference.detectEmergentPatterns cfg (skip_draws n e)
                                                results cache))
  = map (fun k => emergent_id e (n + k))
        (seq 0 (List.length (filter (Interference.qualifies cfg)
                                    (JsMap.values results)))).
Proof.
  unfold Interference.detectEmergentPatterns, Interference.enumerate.
  cbn [fst]. rewrite map_map.
  apply (map_combine_index (fun k => emergent_id e (n + k))).
Qed.

Lemma NoDup_candidates_prefix (keys : list string) e n m :
  (m <= n)%nat ->
  NoDup (keys ++ candidate_ids e n)%list ->
  NoDup (keys ++ map (fun k => emergent_id e (n + k)) (seq 0 m))%list.
Proof.
  intros Hle Hnd. unfold candidate_ids in Hnd.
  assert (Hs : seq 0 n = (seq 0 m ++ seq (0 + m) (n - m))%list).
  { rewrite <- seq_app. f_equal. lia. }
  rewrite Hs, map_app, app_assoc in Hnd.
  now apply NoDup_app_remove_r in Hnd.
Qed.

(** The retained patterns of a pass over waves with distinct pattern
    ids, and the number of them that qualify. *)
Lemma pass_results cfg e waves a :
  NoDup (map Interference.patternId (Interference.pairs waves)) ->
  fst (fold_left (Interference.score_pair cfg e)
                 (Interference.enumerate (Interference.pairs waves))
                 (JsMap.empty, a))
  = map (scored e)
        (filter (fun kp => retained cfg (snd kp))
                (Interference.enumerate (Interference.pairs waves))).
Proof.
  intros Hnd. rewrite score_fold_results; [reflexivity|].
  cbn [JsMap.keys JsMap.empty map app].
  rewrite <- map_map with (f := snd) (g := Interference.patternId).
  unfold Interference.enumerate. now rewrite map_snd_combine_index.
Qed.

Lemma qualifying_count cfg e waves a :
  NoDup (map Interference.patternId (Interference.pairs waves)) ->
  List.length
    (filter (Interference.qualifies cfg)
       (JsMap.values
          (fst (fold_left (Interference.score_pair cfg e)
                  (Interference.enumerate (Interference.pairs waves))
                  (JsMap.empty, a)))))
  = List.length (filter (fun p => retained cfg p && pair_qualifies cfg p)
                        (Interference.pairs waves)).
Proof.
  intros Hnd. rewrite pass_results by exact Hnd.
  unfold JsMap.values. rewrite map_map, filter_map_length.
  rewrite filter_filter_both.
  unfold Interference.enumerate.
  apply (filter_combine_snd
           (fun p => retained cfg p && pair_qualifies cfg p)).
Qed.

(** When the emergent threshold is not below the constructive one, a
    pair that qualifies is retained. *)
Lemma qualifying_is_retained cfg (l : list (Wave.t * Wave.t)) :
  constructiveThreshold (interference cfg)
  <= emergentThreshold (interference cfg) ->
  filter (fun p => retained cfg p && pair_qualifies cfg p) l
  = filter (pair_qualifies cfg) l.
Proof.
  intros Hthr. apply filter_ext. intros p.
  destruct (pair_qualifies cfg p) eqn:E; [|apply andb_false_r].
  rewrite andb_true_r. unfold pair_qualifies in E.
  apply andb_true_iff in E. destruct E as [E _].
  apply gtb_true_iff in E. unfold retained. apply gtb_true_iff. lra.
Qed.

Lemma set_length_bounds {V} (k : string) (v : V) (m : JsMap.t V) :
  (List.length m <= List.length (JsMap.set k v m) <= S (List.length m))%nat.
Proof.
  induction m as [|[k' v'] r IH]; simpl; [lia|].
  destruct (String.eqb k' k); simpl; lia.
Qed.

(** Setting the created behaviours one by one loses no key, puts every
    created id among the keys and adds at most one entry per
    behaviour. *)
Lemma behaviors_fold_keys (created : list Behavior.t)
  (cache : JsMap.t Behavior.t) :
  let cache' :=
    fold_left (fun m b => JsMap.set (Behavior.id b) b m) created cache in
  (forall k, In k (JsMap.keys cache) -> In k (JsMap.keys cache'))
  /\ (forall b, In b created -> In (Behavior.id b) (JsMap.keys cache'))
  /\ (List.length cache <= List.length cache'
      <= List.length cache + List.length created)%nat.
Proof.
  revert cache. induction created as [|b l IH]; intros cache; cbv zeta.
  - cbn [fold_left List.length]. split; [auto|]. split; [easy | lia].
  - cbn [fold_left]. specialize (IH (JsMap.set (Behavior.id b) b cache)).
    cbv zeta in IH. destruct IH as [IH1 [IH2 IH3]].
    pose proof (set_length_bounds (Behavior.id b) b cache) as Hb.
    split; [|split].
    + intros k Hk. apply IH1. now apply keys_set_incl.
    + intros b' [<-|Hb']; [apply IH1, keys_set_self | now apply IH2].
    + cbn [List.length]. lia.
Qed.

(** C10, amended.  [getSystemState] changes the interference engine and
    nothing else.  On an active set whose pairs have distinct pattern
    ids, every call creates one behaviour per RETAINED pair (coherence
    above the constructive threshold) whose coherence exceeds the
    emergent threshold and whose synthesis yields content, and sets it
    in the behaviour cache under its generated id: no cached key is
    lost, every generated id is a key afterwards, and the collection of
    [getEmergentBehaviors] does not shrink and gains at most one entry
    per created behaviour.  An id that repeats a cached or an earlier
    one replaces that entry; when the ids that the call can generate are
    distinct from each other and from the cached ones, the created
    behaviours are appended, so that with at least one such pair the
    collection strictly grows.  When the emergent threshold is not below
    the constructive one, the pairs concerned are all the pairs that
    exceed the emergent threshold and yield content.  The keys of the
    pattern cache do not change from one call to the next, for any clock
    and random source. *)
Theorem getSystemState_grows_behavior_cache cfg e s :
  let ps := Interference.pairs (JsMap.values (Engine.activeWaves s)) in
  let before :=
    Interference.getEmergentBehaviors (Engine.interferenceEngine s) in
  let emergent :=
    filter (fun p => retained cfg p && pair_qualifies cfg p) ps in
  NoDup (map Interference.patternId ps) ->
  let r := Engine.getSystemState cfg e s in
  let after :=
    Interference.getEmergentBehaviors
      (Engine.interferenceEngine (snd r)) in
  let generated :=
    map (fun k => emergent_id e (List.length ps + k))
        (seq 0 (List.length emergent)) in
  Engine.activeWaves (snd r) = Engine.activeWaves s
  /\ Engine.holographicMemory (snd r) = Engine.holographicMemory s
  /\ Engine.ss_emergentBehaviors (fst r) = List.length emergent
  /\ (forall k,
        In k (JsMap.keys (Interference.emergentBehaviors
                            (Engine.interferenceEngine s))) ->
        In k (JsMap.keys (Interference.emergentBehaviors
                            (Engine.interferenceEngine (snd r)))))
  /\ (forall id,
        In id generated ->
        In id (JsMap.keys (Interference.emergentBehaviors
                             (Engine.interferenceEngine (snd r)))))
  /\ (List.length before <= List.length after
      <= List.length before + List.length emergent)%nat
  /\ (NoDup (JsMap.keys (Interference.emergentBehaviors
                           (Engine.interferenceEngine s))
             ++ candidate_ids e (List.length ps))%list ->
      (exists created,
          after = (before ++ created)%list
          /\ List.length created = List.length emergent
          /\ map Behavior.id created = generated)
      /\ ((exists p, In p ps /\ retained cfg p = true
                     /\ pair_qualifies cfg p = true) ->
          (List.length before < List.length after)%nat))
  /\ (constructiveThreshold (interference cfg)
      <= emergentThreshold (interference cfg) ->
      emergent = filter (pair_qualifies cfg) ps)
  /\ (forall e2,
        JsMap.keys (Interference.activePatterns
                      (Engine.interferenceEngine
                         (snd (Engine.getSystemState cfg e2 (snd r)))))
        = JsMap.keys (Interference.activePatterns
                        (Engine.interferenceEngine (snd r)))).
Proof.
  intros ps before emergent Hids r after generated.
  set (waves := JsMap.values (Engine.activeWaves s)) in *.
  set (scoredMaps :=
         fold_left (Interference.score_pair cfg e)
                   (Interference.enumerate ps)
                   (JsMap.empty,
                    Interference.activePatterns
                      (Engine.interferenceEngine s))).
  set (detected :=
         Interference.detectEmergentPatterns cfg
           (skip_draws (List.length ps) e) (fst scoredMaps)
           (Interference.emergentBehaviors (Engine.interferenceEngine s))).
  assert (Hcount : List.length (fst detected) = List.length emergent).
  { unfold detected, Interference.detectEmergentPatterns,
      Interference.enumerate.
    cbn [fst]. rewrite length_map, length_combine, length_seq, Nat.min_id.
    unfold scoredMaps, ps. now apply qualifying_count. }
  assert (Hidsc : map Behavior.id (fst detected) = generated).
  { unfold generated. rewrite <- Hcount.
    unfold detected at 1. rewrite created_ids.
    f_equal. f_equal. unfold detected, Interference.detectEmergentPatterns,
      Interference.enumerate.
    cbn [fst]. now rewrite length_map, length_combine, length_seq,
      Nat.min_id. }
  assert (Hcache : Interference.emergentBehaviors
                     (Engine.interferenceEngine (snd r))
                   = fold_left (fun m b => JsMap.set (Behavior.id b) b m)
                       (fst detected)
                       (Interference.emergentBehaviors
                          (Engine.interferenceEngine s))).
  { reflexivity. }
  pose proof (behaviors_fold_keys (fst detected)
                (Interference.emergentBehaviors
                   (Engine.interferenceEngine s))) as Hfold.
  cbv zeta in Hfold. rewrite <- Hcache in Hfold.
  destruct Hfold as [Hkeep [Hnew Hlen]].
  split; [reflexivity|]. split; [reflexivity|]. split; [exact Hcount|].
  split; [exact Hkeep|].
  split; [|split; [|split; [|split]]].
  - intros id Hid. rewrite <- Hidsc in Hid.
    apply in_map_iff in Hid as [b [<- Hb]]. now apply Hnew.
  - unfold before, after, Interference.getEmergentBehaviors, JsMap.values.
    rewrite !length_map. rewrite Hcount in Hlen. exact Hlen.
  - intros Hfresh.
    assert (Hafter : after = (before ++ fst detected)%list).
    { unfold after, before, Interference.getEmergentBehaviors.
      rewrite Hcache. rewrite behaviors_fold_append.
      - unfold JsMap.values. rewrite map_app, map_map. cbn [snd].
        now rewrite map_id.
      - rewrite Hidsc. unfold generated.
        apply NoDup_candidates_prefix; [|exact Hfresh].
        apply filter_length_le. }
    split.
    + exists (fst detected). now repeat split.
    + intros [p [Hin [Hr Hq]]]. rewrite Hafter, length_app, Hcount.
      assert (Hp : In p emergent).
      { apply filter_In. split; [exact Hin|]. now rewrite Hr, Hq. }
      destruct emergent; [easy | simpl; lia].
  - intros Hthr. now apply qualifying_is_retained.
  - intros e2. subst r.
    unfold Engine.getSystemState, Engine.processWaveInterference,
      Interference.processWaveInterference.
    cbn [fst snd Engine.interferenceEngine Engine.activeWaves
         Interference.activePatterns].
    fold waves. fold ps. fold scoredMaps.
    apply score_fold_cache_stable. intros kp Hin Hr.
    unfold scoredMaps.
    now apply (score_fold_cache_has cfg e (Interference.enumerate ps)).
Qed.

Lemma rust_coherence : Interference.coherence rust_wave systems_wave = 1.
Proof.
  unfold Interference.coherence. simpl.
  rewrite Rminus_diag, Rabs_R0, cos_0.
  replace (1.0 / 1.0 - 1) with 0 by lra.
  rewrite Rabs_R0, Ropp_0, exp_0. lra.
Qed.

Lemma rust_pair_qualifies_at (cfg : HolographicConfig) :
  emergentThreshold (interference cfg) < 1 ->
  pair_qualifies cfg (rust_wave, systems_wave) = true.
Proof.
  intros Ht. unfold pair_qualifies. cbn [fst snd]. rewrite rust_coherence.
  replace (JS.gtb 1 (emergentThreshold (interference cfg)))
    with true by (symmetry; now apply gtb_true_iff).
  unfold Interference.synthesizeContent.
  replace (JS.ltb 1 0.5) with false
    by (symmetry; apply ltb_false_iff; lra).
  reflexivity.
Qed.

(** Scenario A: the synthesis names the shared word. *)
Lemma rust_pair_qualifies :
  pair_qualifies defaultHolographicConfig (rust_wave, systems_wave) = true.
Proof. apply rust_pair_qualifies_at. simpl. lra. Qed.

(** C10, the claim refuted.  With the emergent threshold 0.5 and the
    constructive threshold 1, the two waves of scenario A form a pair
    whose coherence (1) exceeds the emergent threshold and whose
    synthesis yields content; the pair is not retained, no behaviour is
    created, and [getSystemState] leaves the collection of
    [getEmergentBehaviors] as it was. *)
Lemma qualifying_pair_without_behavior :
  let r := Engine.getSystemState strict_retention_config (counting_env 5)
                                 rust_engine in
  In (rust_wave, systems_wave)
     (Interference.pairs (JsMap.values (Engine.activeWaves rust_engine)))
  /\ pair_qualifies strict_retention_config (rust_wave, systems_wave)
     = true
  /\ Engine.ss_emergentBehaviors (fst r) = 0%nat
  /\ Interference.getEmergentBehaviors (Engine.interferenceEngine (snd r))
     = Interference.getEmergentBehaviors
         (Engine.interferenceEngine rust_engine).
Proof.
  assert (Hr : retained strict_retention_config (rust_wave, systems_wave)
               = false).
  { unfold retained. cbn [fst snd]. rewrite rust_coherence.
    apply gtb_false_iff. simpl. lra. }
  assert (Hs : fold_left
                 (Interference.score_pair strict_retention_config
                                          (counting_env 5))
                 (Interference.enumerate
                    (Interference.pairs
                       (JsMap.values (Engine.activeWaves rust_engine))))
                 (JsMap.empty,
                  Interference.activePatterns
                    (Engine.interferenceEngine rust_engine))
               = (JsMap.empty, JsMap.empty)).
  { cbn [Engine.activeWaves rust_engine JsMap.values map snd
         Interference.pairs app Interference.enumerate List.length seq
         combine fold_left].
    rewrite score_pair_step. cbn [snd]. now rewrite Hr. }
  cbv zeta. split; [simpl; tauto|].
  split; [apply rust_pair_qualifies_at; simpl; lra|].
  unfold Engine.getSystemState, Engine.processWaveInterference,
    Interference.processWaveInterference.
  cbn [fst snd Engine.interferenceEngine Engine.ss_emergentBehaviors
       Interference.emergentPatterns].
  rewrite Hs. split; reflexivity.
Qed.

Lemma getSystemState_witness :
  (List.length (Interference.getEmergentBehaviors
                  (Engine.interferenceEngine rust_engine))
   < List.length
       (Interference.getEmergentBehaviors
          (Engine.interferenceEngine
             (snd (Engine.getSystemState defaultHolographicConfig
                     (counting_env 5) rust_engine)))))%nat.
Proof.
  assert (Hids : NoDup (map Interference.patternId
                          (Interference.pairs
                             (JsMap.values
                                (Engine.activeWaves rust_engine))))).
  { simpl. repeat constructor. simpl. tauto. }
  assert (Hfresh :
            NoDup (JsMap.keys (Interference.emergentBehaviors
                                 (Engine.interferenceEngine rust_engine))
                   ++ candidate_ids (counting_env 5)
                        (List.length
                           (Interference.pairs
                              (JsMap.values
                                 (Engine.activeWaves rust_engine)))))%list).
  { simpl. repeat constructor. simpl. tauto. }
  pose proof (getSystemState_grows_behavior_cache defaultHolographicConfig
                (counting_env 5) rust_engine Hids) as H.
  cbv zeta in H. destruct H as (_ & _ & _ & _ & _ & _ & H & _).
  destruct (H Hfresh) as [_ Hgrow].
  apply Hgrow. exists (rust_wave, systems_wave). split; [|split].
  - simpl. tauto.
  - unfold retained. cbn [fst snd]. rewrite rust_coherence.
    apply gtb_true_iff. simpl. lra.
  - exact rust_pair_qualifies.
Defined.

(** ** C2: eviction at the region cap *)

Lemma Permutation_filter {A} (P : A -> bool) (l l' : list A) :
  Permutation l l' -> Permutation (filter P l) (filter P l').
Proof.
  induction 1 as [|x l l' Hp IH|x y l|l l' l'' H1 IH1 H2 IH2]; simpl.
  - constructor.
  - destruct (P x); [now constructor | exact IH].
  - destruct (P x), (P y); try reflexivity. apply perm_swap.
  - now transitivity (filter P l').
Qed.

Lemma NoDup_map_filter {A B} (h : A -> B) (P : A -> bool) (l : list A) :
  NoDup (map h l) -> NoDup (map h (filter P l)).
Proof.
  induction l as [|x l IH]; simpl; [auto|].
  intros H. inversion H as [|? ? Hnot Hnd]; subst.
  destruct (P x); simpl; [|auto].
  constructor; [|auto].
  intros Hin. apply Hnot. apply in_map_iff in Hin.
  destruct Hin as [y [Hy Hin]]. apply filter_In in Hin.
  rewrite <- Hy. apply in_map. tauto.
Qed.

Lemma NoDup_map_inj {A B} (h : A -> B) (l : list A) (a b : A) :
  NoDup (map h l) -> In a l -> In b l -> h a = h b -> a = b.
Proof.
  induction l as [|x l IH]; simpl; [easy|].
  intros H Ha Hb Heq. inversion H as [|? ? Hnot Hnd]; subst.
  destruct Ha as [->|Ha], Hb as [->|Hb]; auto.
  - exfalso. apply Hnot. rewrite Heq. now apply in_map.
  - exfalso. apply Hnot. rewrite <- Heq. now apply in_map.
Qed.

Lemma NoDup_app_disjoint {A} (l1 l2 : list A) (a : A) :
  NoDup (l1 ++ l2) -> In a l1 -> In a l2 -> False.
Proof.
  induction l1 as [|x l1 IH]; simpl; [easy|].
  intros H [->|H1] H2; inversion H as [|? ? Hnot Hnd]; subst.
  - apply Hnot. apply in_or_app. now right.
  - now apply IH.
Qed.

Lemma id_in_spec (ids : list string) (k : string) :
  id_in ids k = true <-> In k ids.
Proof.
  unfold id_in. rewrite existsb_exists. split.
  - intros [x [Hin Heq]]. apply String.eqb_eq in Heq. now subst.
  - intros H. exists k. split; [exact H | apply String.eqb_refl].
Qed.

(** The fragments that are left when a list of fragments is removed. *)
Lemma remove_fold_fragments (l : list Fragment.t) (s : Memory.State) :
  Memory.fragments (fold_left Memory.remove_fragment l s)
  = filter (fun kv => negb (id_in (map Fragment.id l) (fst kv)))
           (Memory.fragments s).
Proof.
  revert s. induction l as [|x l IH]; intros s; simpl.
  - induction (Memory.fragments s) as [|kv m IHm]; simpl;
      [reflexivity | now rewrite <- IHm].
  - rewrite IH. cbn [Memory.fragments Memory.remove_fragment].
    unfold JsMap.delete. rewrite filter_filter_both.
    apply filter_ext. intros kv. unfold id_in. simpl.
    now rewrite negb_orb.
Qed.

Lemma values_filter_keyed (P : string -> bool) (m : JsMap.t Fragment.t) :
  Forall (fun kv => fst kv = Fragment.id (snd kv)) m ->
  JsMap.values (filter (fun kv => P (fst kv)) m)
  = filter (fun f => P (Fragment.id f)) (JsMap.values m).
Proof.
  induction 1 as [|kv m Hk Hm IH]; simpl; [reflexivity|].
  rewrite <- Hk. destruct (P (fst kv)); simpl; now rewrite IH.
Qed.

Lemma keys_keyed (m : JsMap.t Fragment.t) :
  Forall (fun kv => fst kv = Fragment.id (snd kv)) m ->
  JsMap.keys m = map Fragment.id (JsMap.values m).
Proof.
  induction 1 as [|kv m Hk Hm IH]; simpl; [reflexivity|].
  now rewrite Hk, IH.
Qed.

Lemma well_keyed_filter (P : string * Fragment.t -> bool) m :
  well_keyed m -> well_keyed (filter P m).
Proof.
  intros [Hnd Hk]. split.
  - unfold JsMap.keys. now apply NoDup_map_filter.
  - apply Forall_forall. intros kv Hin. apply filter_In in Hin.
    rewrite Forall_forall in Hk. now apply Hk.
Qed.

Lemma well_keyed_set_fresh m (f : Fragment.t) :
  well_keyed m -> ~ In (Fragment.id f) (JsMap.keys m) ->
  well_keyed (JsMap.set (Fragment.id f) f m).
Proof.
  intros [Hnd Hk] Hfresh. rewrite set_fresh by exact Hfresh. split.
  - unfold JsMap.keys in *. rewrite map_app. simpl.
    apply NoDup_app; [exact Hnd | repeat constructor; easy |].
    intros k Hin [<-|[]]. now apply Hfresh.
  - apply Forall_app. split; [exact Hk | now repeat constructor].
Qed.

Lemma newer_first_total (a b : Fragment.t) :
  Memory.newer_first a b = true \/ Memory.newer_first b a = true.
Proof. unfold Memory.newer_first. lia. Qed.

(** In a list sorted newest first, nothing after position [n] is newer
    than anything before it. *)
Lemma sorted_prefix_newer (l : list Fragment.t) (n : nat) :
  Sorted (fun a b => Memory.newer_first a b = true) l ->
  forall kept gone,
    In kept (firstn n l) -> In gone (skipn n l) ->
    (Fragment.timestamp gone <= Fragment.timestamp kept)%Z.
Proof.
  intros Hs. apply Sorted_StronglySorted in Hs.
  - revert n. induction Hs as [|x l Hl IH Hx]; intros n kept gone Hk Hg.
    + now rewrite firstn_nil in Hk.
    + destruct n as [|n]; simpl in Hk, Hg; [easy|].
      destruct Hk as [<-|Hk].
      * rewrite Forall_forall in Hx.
        assert (Hin : In gone l).
        { rewrite <- (firstn_skipn n l). apply in_or_app. now right. }
        apply Hx in Hin. unfold Memory.newer_first in Hin. lia.
      * now apply (IH n).
  - intros a b c. unfold Memory.newer_first. lia.
Qed.

(** Among fragments with distinct ids, removing the second part of a
    list leaves the first. *)
Lemma keep_first_part (l1 l2 : list Fragment.t) :
  NoDup (map Fragment.id (l1 ++ l2)) ->
  filter (fun f => negb (id_in (map Fragment.id l2) (Fragment.id f)))
         (l1 ++ l2)%list
  = l1.
Proof.
  intros Hnd. rewrite filter_app.
  assert (H1 : filter (fun f => negb (id_in (map Fragment.id l2)
                                            (Fragment.id f))) l1 = l1).
  { apply forallb_filter_id. apply forallb_forall. intros f Hf.
    apply negb_true_iff. destruct (id_in _ _) eqn:E; [|reflexivity].
    exfalso. apply id_in_spec in E.
    rewrite map_app in Hnd.
    apply (NoDup_app_disjoint _ _ (Fragment.id f) Hnd);
      [now apply in_map | exact E]. }
  assert (H2 : filter (fun f => negb (id_in (map Fragment.id l2)
                                            (Fragment.id f))) l2 = []).
  { clear Hnd H1.
    generalize (map Fragment.id l2) (in_map Fragment.id l2).
    intros ids Hall. induction l2 as [|g r IH]; [reflexivity|].
    simpl. assert (Hg : id_in ids (Fragment.id g) = true).
    { apply id_in_spec. apply Hall. now left. }
    rewrite Hg. simpl. apply IH. intros x Hx. apply Hall. now right. }
  now rewrite H1, H2, app_nil_r.
Qed.

Lemma keep_prefix (l : list Fragment.t) (n : nat) :
  NoDup (map Fragment.id l) ->
  filter (fun f => negb (id_in (map Fragment.id (skipn n l))
                               (Fragment.id f))) l
  = firstn n l.
Proof.
  intros Hnd.
  pose proof (keep_first_part (firstn n l) (skipn n l)) as H.
  rewrite firstn_skipn in H. now apply H.
Qed.

Lemma in_region_true region f :
  Memory.in_region region f = true <-> Fragment.sourceRegion f = region.
Proof. unfold Memory.in_region. apply String.eqb_eq. Qed.

(** One [storeFragment] call with a fresh id, on a well-keyed store: the
    region of the call ends with one fragment more, but never more than
    the cap; the other regions are untouched; whatever the call evicts
    has a timestamp that is not later than any timestamp it keeps. *)
Lemma store_within_cap cfg now rand content region wt imp sid s :
  well_keyed (Memory.fragments s) ->
  ~ In (Memory.generateFragmentId now rand)
       (JsMap.keys (Memory.fragments s)) ->
  let r := Memory.storeFragment cfg now rand content region wt imp sid s in
  let s' := snd r in
  let cap := maxFragmentsPerRegion (memory cfg) in
  let fragment :=
    Memory.newFragment now rand content region wt
      (match imp with Some x => x | None => 0.5 end) sid in
  fst r = Fragment.id fragment
  /\ well_keyed (Memory.fragments s')
  /\ List.length (Memory.getFragmentsByRegion region s')
     = Nat.min (S (List.length (Memory.getFragmentsByRegion region s))) cap
  /\ (forall other,
        other <> region ->
        Memory.getFragmentsByRegion other s'
        = Memory.getFragmentsByRegion other s)
  /\ (forall f,
        In f (Memory.getFragmentsByRegion region s') ->
        In f (fragment :: Memory.getFragmentsByRegion region s))
  /\ (forall kept gone,
        In kept (Memory.getFragmentsByRegion region s') ->
        In gone (fragment :: Memory.getFragmentsByRegion region s) ->
        ~ In gone (Memory.getFragmentsByRegion region s') ->
        (Fragment.timestamp gone <= Fragment.timestamp kept)%Z).
Proof.
  intros Hwf Hfresh r s' cap fragment.
  assert (Hid : Fragment.id fragment = Memory.generateFragmentId now rand)
    by reflexivity.
  assert (Hreg : Memory.in_region region fragment = true)
    by (apply in_region_true; reflexivity).
  set (frags1 := JsMap.set (Fragment.id fragment) fragment
                           (Memory.fragments s)).
  assert (Hfrags1 : frags1
                    = (Memory.fragments s ++ [(Fragment.id fragment,
                                               fragment)])%list).
  { unfold frags1. apply set_fresh. now rewrite Hid. }
  assert (Hwf1 : well_keyed frags1).
  { unfold frags1. apply well_keyed_set_fresh; [exact Hwf|].
    now rewrite Hid. }
  set (RV := Memory.getFragmentsByRegion region s).
  assert (HRV1 : filter (Memory.in_region region) (JsMap.values frags1)
                 = (RV ++ [fragment])%list).
  { rewrite Hfrags1. unfold JsMap.values. rewrite map_app, filter_app.
    simpl. now rewrite Hreg. }
  set (rf := JS.sort_by Memory.newer_first (RV ++ [fragment])%list).
  assert (Hperm : Permutation rf (RV ++ [fragment])%list)
    by apply sort_by_perm.
  assert (Hlen : List.length rf = S (List.length RV)).
  { unfold rf. rewrite sort_by_length, length_app. simpl. lia. }
  assert (Hs' : s' = Memory.cleanupOldFragments cfg region
                       (Memory.mkState frags1
                          (Memory.updateCoherenceMap fragment
                                                     (Memory.coherenceMap s))
                          (Memory.reconstructionCache s)
                          (if crossSessionEnabled (memory cfg)
                           then Memory.persistFragment now fragment
                                  (Memory.localStorage s)
                           else Memory.localStorage s)))
    by reflexivity.
  assert (Hids1 : NoDup (map Fragment.id (JsMap.values frags1))).
  { destruct Hwf1 as [Hnd Hk]. now rewrite <- keys_keyed. }
  assert (Hidsrf : NoDup (map Fragment.id rf)).
  { apply (Permutation_NoDup
             (l := map Fragment.id (RV ++ [fragment])%list)).
    - apply Permutation_map. now symmetry.
    - rewrite <- HRV1. now apply NoDup_map_filter. }
  split; [reflexivity|].
  unfold Memory.cleanupOldFragments in Hs'.
  unfold Memory.regionFragments in Hs'. cbn [Memory.fragments] in Hs'.
  rewrite HRV1 in Hs'. fold rf in Hs'. fold cap in Hs'.
  destruct (Nat.ltb_spec cap (List.length rf)) as [Hover|Hfit].
  - (* the cap is exceeded: the tail of the sorted list is removed *)
    assert (Hfr : Memory.fragments s'
                  = filter (fun kv =>
                              negb (id_in (map Fragment.id
                                              (JS.slice_from cap rf))
                                          (fst kv))) frags1).
    { rewrite Hs'. now rewrite remove_fold_fragments. }
    assert (Hvals : JsMap.values (Memory.fragments s')
                    = filter (fun f =>
                                negb (id_in (map Fragment.id
                                                (JS.slice_from cap rf))
                                            (Fragment.id f)))
                             (JsMap.values frags1)).
    { rewrite Hfr.
      apply (values_filter_keyed
               (fun k => negb (id_in (map Fragment.id
                                         (JS.slice_from cap rf)) k))).
      apply Hwf1. }
    assert (Hkept : Permutation (Memory.getFragmentsByRegion region s')
                                (firstn cap rf)).
    { unfold Memory.getFragmentsByRegion. rewrite Hvals.
      rewrite filter_filter_both.
      rewrite (filter_ext _
                 (fun f => Memory.in_region region f
                           && negb (id_in (map Fragment.id
                                              (JS.slice_from cap rf))
                                          (Fragment.id f))))
        by (intros f; apply andb_comm).
      rewrite <- filter_filter_both. rewrite HRV1.
      rewrite <- (keep_prefix rf cap Hidsrf).
      apply Permutation_filter. now symmetry. }
    split; [|split; [|split; [|split]]].
    + rewrite Hfr. now apply well_keyed_filter.
    + rewrite (Permutation_length Hkept), length_firstn.
      fold RV. lia.
    + intros other Hother. unfold Memory.getFragmentsByRegion.
      rewrite Hvals, filter_filter_both.
      rewrite Hfrags1. unfold JsMap.values at 1. rewrite map_app.
      rewrite filter_app. simpl.
      assert (Hnot : Memory.in_region other fragment = false).
      { apply not_true_iff_false. intros H. apply in_region_true in H.
        simpl in H. congruence. }
      rewrite Hnot, andb_false_r, app_nil_r.
      apply filter_ext_in. intros f Hf.
      destruct (Memory.in_region other f) eqn:Ho;
        [|now rewrite andb_false_r].
      rewrite andb_true_r. apply negb_true_iff.
      destruct (id_in _ _) eqn:E; [|reflexivity].
      exfalso. apply id_in_spec in E. apply in_map_iff in E.
      destruct E as [g [Hg Hin]].
      assert (Hgrf : In g rf).
      { rewrite <- (firstn_skipn cap rf). apply in_or_app. now right. }
      assert (Hg1 : In g (JsMap.values frags1)).
      { apply (Permutation_in _ Hperm) in Hgrf. rewrite <- HRV1 in Hgrf.
        apply filter_In in Hgrf. tauto. }
      assert (Hf1 : In f (JsMap.values frags1)).
      { rewrite Hfrags1. unfold JsMap.values. rewrite map_app.
        apply in_or_app. now left. }
      assert (g = f) by (now apply (NoDup_map_inj Fragment.id
                                      (JsMap.values frags1))).
      subst g. apply (Permutation_in _ Hperm) in Hgrf.
      rewrite <- HRV1 in Hgrf. apply filter_In in Hgrf.
      destruct Hgrf as [_ Hr]. apply in_region_true in Hr, Ho. congruence.
    + intros f Hf. apply (Permutation_in _ Hkept) in Hf.
      assert (Hfrf : In f rf).
      { rewrite <- (firstn_skipn cap rf). apply in_or_app. now left. }
      apply (Permutation_in _ Hperm) in Hfrf.
      apply in_app_or in Hfrf. simpl in Hfrf. simpl. tauto.
    + intros kept gone Hk Hg Hng.
      apply (sorted_prefix_newer rf cap).
      * apply sort_by_sorted, newer_first_total.
      * now apply (Permutation_in _ Hkept).
      * assert (Hgrf : In gone rf).
        { apply (Permutation_in _ (Permutation_sym Hperm)).
          apply in_or_app. simpl in Hg. simpl. tauto. }
        rewrite <- (firstn_skipn cap rf) in Hgrf.
        apply in_app_or in Hgrf. destruct Hgrf as [Hgf|Hgs]; [|exact Hgs].
        exfalso. apply Hng.
        now apply (Permutation_in _ (Permutation_sym Hkept)).
  - (* the cap is not exceeded: nothing is removed *)
    assert (Hfr : Memory.fragments s' = frags1) by (now rewrite Hs').
    assert (Hall : Memory.getFragmentsByRegion region s'
                   = (RV ++ [fragment])%list).
    { unfold Memory.getFragmentsByRegion. now rewrite Hfr. }
    split; [|split; [|split; [|split]]].
    + now rewrite Hfr.
    + rewrite Hall, length_app. cbn [List.length]. lia.
    + intros other Hother. unfold Memory.getFragmentsByRegion.
      rewrite Hfr, Hfrags1. unfold JsMap.values. rewrite map_app.
      rewrite filter_app. simpl.
      assert (Hnot : Memory.in_region other fragment = false).
      { apply not_true_iff_false. intros H. apply in_region_true in H.
        simpl in H. congruence. }
      now rewrite Hnot, app_nil_r.
    + intros f Hf. rewrite Hall in Hf. apply in_app_or in Hf.
      simpl in Hf. simpl. tauto.
    + intros kept gone Hk Hg Hng. exfalso. apply Hng. rewrite Hall.
      apply in_or_app. simpl in Hg. simpl. tauto.
Qed.

Lemma keys_set_subset {V} (k k0 : string) (v : V) (m : JsMap.t V) :
  In k0 (JsMap.keys (JsMap.set k v m)) -> k0 = k \/ In k0 (JsMap.keys m).
Proof.
  induction m as [|[k' v'] r IH]; simpl.
  - intros [<-|[]]. now left.
  - destruct (String.eqb_spec k' k) as [->|Hk]; simpl.
    + intros [<-|H]; auto.
    + intros [<-|H]; auto. apply IH in H. tauto.
Qed.

Lemma store_keys_subset cfg now rand content region wt imp sid s k :
  In k (JsMap.keys
          (Memory.fragments
             (snd (Memory.storeFragment cfg now rand content region wt imp
                                        sid s)))) ->
  k = Memory.generateFragmentId now rand
  \/ In k (JsMap.keys (Memory.fragments s)).
Proof.
  unfold Memory.storeFragment. cbn [snd].
  unfold Memory.cleanupOldFragments.
  destruct (_ <? _)%nat.
  - rewrite remove_fold_fragments. cbn [Memory.fragments].
    intros H. unfold JsMap.keys in H. apply in_map_iff in H.
    destruct H as [kv [<- Hin]]. apply filter_In in Hin.
    destruct Hin as [Hin _].
    eapply keys_set_subset.
    unfold JsMap.keys. apply in_map. exact Hin.
  - cbn [Memory.fragments]. apply keys_set_subset.
Qed.

(** A sequence of [storeFragment] calls with fresh, distinct ids, on a
    well-keyed store whose region [region] is within the cap: the region
    ends with as many fragments as it had plus the calls into it, but
    never more than the cap. *)
Lemma stores_fill_region_to_cap cfg region (calls : list StoreCall) :
  forall s,
    well_keyed (Memory.fragments s) ->
    NoDup (map store_id calls) ->
    (forall c, In c calls ->
               ~ In (store_id c) (JsMap.keys (Memory.fragments s))) ->
    (List.length (Memory.getFragmentsByRegion region s)
     <= maxFragmentsPerRegion (memory cfg))%nat ->
    let s' := fold_left (run_store cfg) calls s in
    well_keyed (Memory.fragments s')
    /\ List.length (Memory.getFragmentsByRegion region s')
       = Nat.min (List.length (Memory.getFragmentsByRegion region s)
                  + calls_into region calls)
                 (maxFragmentsPerRegion (memory cfg)).
Proof.
  induction calls as [|c calls IH]; intros s Hwf Hnd Hfresh Hcap s'.
  - subst s'. simpl. split; [exact Hwf|].
    unfold calls_into. simpl. lia.
  - subst s'. cbn [fold_left].
    inversion Hnd as [|? ? Hnot Hnd']; subst.
    pose proof (store_within_cap cfg (sc_now c) (sc_rand c) (sc_content c)
                  (sc_region c) (sc_waveType c) (sc_importance c)
                  (sc_sessionId c) s Hwf
                  (Hfresh c (or_introl eq_refl))) as Hstep.
    cbv zeta in Hstep.
    destruct Hstep as [_ [Hwf' [Hcount [Hother _]]]].
    fold (run_store cfg s c) in Hwf', Hcount, Hother.
    assert (Hfresh' : forall c', In c' calls ->
              ~ In (store_id c')
                   (JsMap.keys (Memory.fragments (run_store cfg s c)))).
    { intros c' Hc' Hin. apply store_keys_subset in Hin.
      destruct Hin as [Heq|Hin].
      - apply Hnot. fold (store_id c) in Heq. rewrite <- Heq.
        now apply in_map.
      - now apply (Hfresh c' (or_intror Hc')). }
    assert (Hcap' : (List.length
                       (Memory.getFragmentsByRegion region
                                                    (run_store cfg s c))
                     <= maxFragmentsPerRegion (memory cfg))%nat).
    { destruct (String.eqb_spec (sc_region c) region) as [Heq|Hne].
      - rewrite <- Heq, Hcount. lia.
      - rewrite Hother by congruence. exact Hcap. }
    destruct (IH (run_store cfg s c) Hwf' Hnd' Hfresh' Hcap')
      as [Hwf'' Hlen].
    split; [exact Hwf''|]. rewrite Hlen.
    unfold calls_into. cbn [filter].
    destruct (String.eqb_spec (sc_region c) region) as [Heq|Hne].
    + rewrite <- Heq in *. rewrite Hcount. cbn [List.length]. lia.
    + rewrite Hother by congruence. reflexivity.
Qed.

(** Exactly the cap remains after one call more than the cap into a
    region that was empty. *)
Lemma cap_plus_one_stores cfg region (calls : list StoreCall) s :
  well_keyed (Memory.fragments s) ->
  NoDup (map store_id calls) ->
  (forall c, In c calls ->
             ~ In (store_id c) (JsMap.keys (Memory.fragments s))) ->
  Memory.getFragmentsByRegion region s = [] ->
  calls_into region calls = S (maxFragmentsPerRegion (memory cfg)) ->
  List.length (Memory.getFragmentsByRegion region
                 (fold_left (run_store cfg) calls s))
  = maxFragmentsPerRegion (memory cfg).
Proof.
  intros Hwf Hnd Hfresh Hempty Hcalls.
  destruct (stores_fill_region_to_cap cfg region calls s Hwf Hnd Hfresh)
    as [_ H].
  - rewrite Hempty. simpl. lia.
  - rewrite H, Hempty, Hcalls. cbn [List.length]. lia.
Qed.

(** When the clock has advanced past every timestamp of the region, a
    call with a positive cap keeps the fragment it stores: what it
    evicts is older. *)
Lemma store_keeps_newest_when_clock_advances
  cfg now rand content region wt imp sid s :
  well_keyed (Memory.fragments s) ->
  ~ In (Memory.generateFragmentId now rand)
       (JsMap.keys (Memory.fragments s)) ->
  (0 < maxFragmentsPerRegion (memory cfg))%nat ->
  (forall f, In f (Memory.getFragmentsByRegion region s) ->
             (Fragment.timestamp f < now)%Z) ->
  let s' :=
    snd (Memory.storeFragment cfg now rand content region wt imp sid s) in
  let fragment :=
    Memory.newFragment now rand content region wt
      (match imp with Some x => x | None => 0.5 end) sid in
  In fragment (Memory.getFragmentsByRegion region s')
  /\ (forall gone,
        In gone (Memory.getFragmentsByRegion region s) ->
        ~ In gone (Memory.getFragmentsByRegion region s') ->
        forall kept,
          In kept (Memory.getFragmentsByRegion region s') ->
          (Fragment.timestamp gone <= Fragment.timestamp kept)%Z).
Proof.
  intros Hwf Hfresh Hcap Hold s' fragment.
  pose proof (store_within_cap cfg now rand content region wt imp sid s
                Hwf Hfresh) as H.
  cbv zeta in H. fold s' in H. fold fragment in H.
  destruct H as [_ [_ [Hcount [_ [Hsub Hgone]]]]].
  split.
  - destruct (classic (In fragment (Memory.getFragmentsByRegion region s')))
      as [Hin|Hout]; [exact Hin|].
    exfalso.
    destruct (Memory.getFragmentsByRegion region s') as [|kept rest] eqn:E.
    + cbn [List.length] in Hcount. lia.
    + assert (Hk : In kept (kept :: rest)) by now left.
      pose proof (Hgone kept fragment Hk (or_introl eq_refl) Hout) as Hle.
      destruct (Hsub kept Hk) as [Heq|Hin].
      * subst kept. apply Hout. now left.
      * apply Hold in Hin. simpl in Hle. lia.
  - intros gone Hg Hng kept Hk.
    apply (Hgone kept gone Hk (or_intror Hg) Hng).
Qed.

(** C2, the failing input.  With a region cap of one, two
    [storeFragment] calls into the same region within one millisecond:
    the second call returns its new id, but the fragment that stays is
    the first one, and the id that was just returned is no longer in the
    store.  One millisecond later the same call keeps the new fragment
    and evicts the old one.  With a cap of ten, eleven fragments stored
    within one millisecond leave the first ten and drop the eleventh. *)
Theorem eviction_tie_removes_newest :
  fst tie_first = "frag_1000_aaaaaaaaa"
  /\ fst tie_second = "frag_1000_bbbbbbbbb"
  /\ map Fragment.content
         (Memory.getFragmentsByRegion "InnerBrain" (snd tie_second))
     = ["first"]
  /\ JsMap.get (fst tie_second) (Memory.fragments (snd tie_second)) = None
  /\ map Fragment.content
         (Memory.getFragmentsByRegion "InnerBrain" (snd later_second))
     = ["second"]
  /\ map Fragment.content
         (Memory.getFragmentsByRegion "InterferenceEngine"
                                      after_eleven_insights)
     = ["insight 0"; "insight 1"; "insight 2"; "insight 3"; "insight 4";
        "insight 5"; "insight 6"; "insight 7"; "insight 8"; "insight 9"]
  /\ JsMap.get "frag_1000_10" (Memory.fragments after_eleven_insights)
     = None.
Proof. repeat split; reflexivity. Qed.

(** * Further properties of the engine *)

(** ** The phase hash is the 31-multiplier polynomial hash *)

Lemma to_int32_congruent (a b : Z) :
  (a mod 4294967296 = b mod 4294967296)%Z -> JS.to_int32 a = JS.to_int32 b.
Proof. unfold JS.to_int32. now intros ->. Qed.

Lemma to_int32_mod (a : Z) :
  (JS.to_int32 a mod 4294967296 = a mod 4294967296)%Z.
Proof.
  unfold JS.to_int32.
  destruct (Z.ltb_spec (a mod 4294967296) 2147483648).
  - apply Z.mod_mod. lia.
  - replace (a mod 4294967296 - 4294967296)%Z
      with (a mod 4294967296 + (-1) * 4294967296)%Z by lia.
    rewrite Z.mod_add by lia. apply Z.mod_mod. lia.
Qed.

Lemma hash_step_horner (h : Z) (c : ascii) :
  hash_step (JS.to_int32 h) c = JS.to_int32 (31 * h + JS.code c).
Proof.
  unfold hash_step. rewrite band_mask. apply to_int32_congruent.
  unfold JS.shl. rewrite Z.shiftl_mul_pow2 by lia.
  rewrite (to_int32_id (JS.to_int32 h)) by apply to_int32_range.
  rewrite Z.add_mod, Zminus_mod, to_int32_mod by lia.
  rewrite Zmult_mod, !to_int32_mod.
  rewrite <- Zmult_mod, <- Zminus_mod, <- Z.add_mod by lia.
  f_equal. change (2 ^ 5)%Z with 32%Z. lia.
Qed.

(** X1.  The loop [hash = ((hash << 5) - hash + code) & 0xffffffff] of
    both [calculatePhase] functions computes the polynomial hash with
    multiplier 31, wrapped to a signed 32-bit integer; the phase is its
    absolute value modulo 628, divided by 100. *)
Theorem hash_loop_is_polynomial (str : string) :
  hash_loop 0 str = JS.to_int32 (horner 0 str)
  /\ (forall h, hash_loop (JS.to_int32 h) str = JS.to_int32 (horner h str))
  /\ (-2147483648 <= hash_loop 0 str < 2147483648)%Z.
Proof.
  assert (H : forall s h,
             hash_loop (JS.to_int32 h) s = JS.to_int32 (horner h s)).
  { induction s as [|c r IH]; intros h; simpl; [reflexivity|].
    rewrite hash_step_horner. apply IH. }
  split; [|split].
  - apply (H str 0%Z).
  - apply H.
  - rewrite (H str 0%Z : hash_loop 0 str = _). apply to_int32_range.
Qed.

Lemma append_assoc (a b c : string) :
  ((a ++ b) ++ c)%string = (a ++ (b ++ c))%string.
Proof. induction a as [|x a IH]; simpl; [reflexivity | now rewrite IH]. Qed.

(** X2.  The phase is derived from the concatenation
    [content + sourceRegion] only: moving characters from the end of the
    content to the front of the region does not change it, and neither
    the wave type, the importance nor the clock enter. *)
Theorem phase_ignores_the_boundary (a b c : string) :
  calculatePhase (a ++ b) c = calculatePhase a (b ++ c)
  /\ forall now1 now2 rand1 rand2 wt1 wt2 imp1 imp2 sid1 sid2,
       Fragment.phase (Memory.newFragment now1 rand1 (a ++ b) c wt1 imp1
                                          sid1)
       = Fragment.phase (Memory.newFragment now2 rand2 a (b ++ c) wt2 imp2
                                            sid2).
Proof.
  assert (H : calculatePhase (a ++ b) c = calculatePhase a (b ++ c)).
  { unfold calculatePhase. now rewrite append_assoc. }
  split; [exact H|]. intros. exact H.
Qed.

(** ** Coherence of fragments and viability of a reconstruction *)

Lemma split_space_nonempty (s : string) : JS.split_space s <> [].
Proof.
  induction s as [|c r IH]; simpl; [discriminate|].
  destruct (Ascii.eqb c " "); [discriminate|].
  destruct (JS.split_space r); discriminate.
Qed.

Lemma contentWords_length (f : Fragment.t) :
  (1 <= List.length (Memory.contentWords f))%nat.
Proof.
  unfold Memory.contentWords.
  pose proof (split_space_nonempty (JS.toLowerCase (Fragment.content f))).
  destruct (JS.split_space _); [congruence | simpl; lia].
Qed.

Lemma contentCoherence_bounds (f g : Fragment.t) :
  0 <= INR (List.length (Memory.sharedWords f g))
       / INR (Nat.max (List.length (Memory.contentWords f))
                      (List.length (Memory.contentWords g))) <= 1.
Proof.
  pose proof (contentWords_length f) as Hf.
  assert (Hs : (List.length (Memory.sharedWords f g)
                <= List.length (Memory.contentWords f))%nat)
    by apply filter_length_le.
  set (n := List.length (Memory.sharedWords f g)) in *.
  set (m := Nat.max (List.length (Memory.contentWords f))
                    (List.length (Memory.contentWords g))).
  assert (Hm : (1 <= m)%nat) by (subst m; lia).
  assert (Hnm : (n <= m)%nat) by (subst m; lia).
  apply le_INR in Hm, Hnm. simpl in Hm.
  pose proof (pos_INR n). split.
  - apply Rmult_le_pos; [lra|]. left. apply Rinv_0_lt_compat. lra.
  - apply Rmult_le_reg_r with (r := INR m); [lra|].
    unfold Rdiv. rewrite Rmult_assoc, Rinv_l by lra. lra.
Qed.

Lemma fragment_coherence_range (f g : Fragment.t) :
  - 0.3 < Memory.calculateFragmentCoherence f g <= 1.
Proof.
  unfold Memory.calculateFragmentCoherence.
  pose proof (contentCoherence_bounds f g) as [H0 H1].
  pose proof (exp_neg_le_one
                (Rabs (Fragment.frequency f - Fragment.frequency g))
                (Rabs_pos _)).
  pose proof (exp_pos
                (- Rabs (Fragment.frequency f - Fragment.frequency g))).
  pose proof (COS_bound (Rabs (Fragment.phase f - Fragment.phase g)))
    as [Hc0 Hc1].
  split; lra.
Qed.

(** X3.  The coherence of two fragments lies in (-0.3, 1], and the
    coherence of a fragment with itself (or with a fragment of the same
    content, frequency and phase) is exactly 1. *)
Theorem fragment_coherence_bounds (f g : Fragment.t) :
  - 0.3 < Memory.calculateFragmentCoherence f g <= 1
  /\ Memory.calculateFragmentCoherence f f = 1.
Proof.
  split; [apply fragment_coherence_range|].
  unfold Memory.calculateFragmentCoherence.
  rewrite !Rminus_diag, Rabs_R0, Ropp_0, exp_0, cos_0.
  assert (Hs : Memory.sharedWords f f = Memory.contentWords f).
  { unfold Memory.sharedWords. apply forallb_filter_id.
    apply forallb_forall. intros w Hw. unfold JS.array_includes.
    apply existsb_exists. exists w. split; [exact Hw|].
    apply String.eqb_refl. }
  rewrite Hs, Nat.max_id.
  pose proof (contentWords_length f) as Hl. apply le_INR in Hl.
  simpl in Hl. unfold Rdiv. rewrite Rinv_r by lra. lra.
Qed.

(** The running total of the double loop stays within the bounds of the
    coherences it adds. *)
Lemma inner_totals_bounds (f : Fragment.t) (r : list Fragment.t)
  (acc : R * nat) :
  let res :=
    fold_left (fun a g =>
                 (fst a + Memory.calculateFragmentCoherence f g, S (snd a)))
              r acc in
  snd res = (snd acc + List.length r)%nat
  /\ fst acc - 0.3 * INR (List.length r) <= fst res
     <= fst acc + INR (List.length r).
Proof.
  revert acc. induction r as [|g r IH]; intros acc; cbn [fold_left].
  - cbn [List.length]. simpl INR. split; [lia | lra].
  - specialize (IH (fst acc + Memory.calculateFragmentCoherence f g,
                    S (snd acc))).
    cbv zeta in IH. cbn [fst snd] in IH. destruct IH as [IH1 [IH2 IH3]].
    pose proof (fragment_coherence_range f g) as [Hl Hu].
    cbv zeta. rewrite length_cons, S_INR.
    split; [lia|]. split; lra.
Qed.

Lemma pair_totals_bounds (l : list Fragment.t) (acc : R * nat) :
  let res := Memory.pair_totals l acc in
  (snd acc <= snd res)%nat
  /\ fst acc - 0.3 * (INR (snd res) - INR (snd acc)) <= fst res
     <= fst acc + (INR (snd res) - INR (snd acc)).
Proof.
  revert acc. induction l as [|f r IH]; intros acc; cbn [Memory.pair_totals].
  - cbv zeta. split; [lia | lra].
  - pose proof (inner_totals_bounds f r acc) as Hin. cbv zeta in Hin.
    destruct Hin as [Hn [Hl Hu]].
    specialize (IH (fold_left
                      (fun a g =>
                         (fst a + Memory.calculateFragmentCoherence f g,
                          S (snd a))) r acc)).
    cbv zeta in IH. destruct IH as [IHn [IHl IHu]].
    cbv zeta. rewrite Hn in IHn, IHl, IHu. rewrite plus_INR in IHl, IHu.
    split; [lia|]. split; lra.
Qed.

Lemma viability_range (l : list Fragment.t) :
  - 0.21 <= Memory.assessReconstructionViability l <= 1.
Proof.
  destruct l as [|f r]; [simpl; lra|].
  unfold Memory.assessReconstructionViability.
  pose proof (pair_totals_bounds (f :: r) (0, 0%nat)) as H.
  cbv zeta in H. cbn [fst snd] in H.
  destruct (Memory.pair_totals (f :: r) (0, 0%nat)) as [total count].
  cbn [fst snd] in H. destruct H as [_ [Hl Hu]]. simpl INR in Hl, Hu.
  assert (Hb : 0 <= Rmin 1 (INR (List.length (f :: r)) / 5) <= 1).
  { split; [|apply Rmin_l]. apply Rmin_glb; [lra|].
    pose proof (pos_INR (List.length (f :: r))). lra. }
  destruct (Nat.ltb_spec 0 count) as [Hc|Hc].
  - assert (HcR : 1 <= INR count) by (apply le_INR in Hc; exact Hc).
    assert (Ha : - 0.3 <= total / INR count <= 1).
    { split.
      - apply Rmult_le_reg_r with (r := INR count); [lra|].
        unfold Rdiv. rewrite Rmult_assoc, Rinv_l by lra. lra.
      - apply Rmult_le_reg_r with (r := INR count); [lra|].
        unfold Rdiv. rewrite Rmult_assoc, Rinv_l by lra. lra. }
    split; lra.
  - split; lra.
Qed.

Lemma viability_singleton (f : Fragment.t) :
  Memory.assessReconstructionViability [f] = 0.06.
Proof.
  unfold Memory.assessReconstructionViability.
  cbn [Memory.pair_totals fold_left fst snd Nat.ltb Nat.leb List.length].
  simpl INR. rewrite Rmin_right by lra. lra.
Qed.

(** X4.  The viability of a reconstruction lies in [-0.21, 1]; for no
    fragment it is 0 and for a single fragment exactly 0.06. *)
Theorem viability_bounds (l : list Fragment.t) :
  - 0.21 <= Memory.assessReconstructionViability l <= 1
  /\ Memory.assessReconstructionViability [] = 0
  /\ forall f, Memory.assessReconstructionViability [f] = 0.06.
Proof.
  split; [apply viability_range|].
  split; [reflexivity | apply viability_singleton].
Qed.

Lemma relevant_length_le now cs c s :
  (List.length (Memory.findRelevantFragments now cs c s)
   <= Memory.getFragmentCount s)%nat.
Proof.
  unfold Memory.findRelevantFragments, Memory.getFragmentCount,
    JsMap.size, JsMap.values.
  rewrite sort_by_length.
  etransitivity; [apply filter_length_le|]. now rewrite length_map.
Qed.

Lemma reconstruct_lone_null now c r s k :
  Memory.json c = Memory.JsonString k ->
  JsMap.get k (Memory.reconstructionCache s) = None ->
  (Memory.getFragmentCount s <= 1)%nat ->
  0.06 < match r with Some x => x | None => 0.6 end ->
  Memory.reconstructInformation now c r s = (Memory.Returned None, s).
Proof.
  intros Hk Hc Hcount Hreq. unfold Memory.reconstructInformation.
  rewrite Hk, Hc.
  replace (Memory.reconstructFresh now k c
             match r with Some x => x | None => 0.6 end s)
    with (@None string); [reflexivity|].
  symmetry. unfold Memory.reconstructFresh.
  pose proof (relevant_length_le now (JS.toLowerCase k) c s) as Hlen.
  destruct (Memory.findRelevantFragments now (JS.toLowerCase k) c s)
    as [|f [|g l]]; [reflexivity| |simpl in Hlen; lia].
  cbv zeta. rewrite viability_singleton.
  apply ltb_true_iff in Hreq. now rewrite Hreq.
Qed.

(** X5.  A reconstruction over a store of at most one fragment returns
    [null] and leaves the state alone whenever the required coherence is
    above 0.06, as the default 0.6 and the degradation floor 0.4 are: a
    store that holds a single fragment never reconstructs.  Whatever the
    store holds, a required coherence above 1 is never met. *)
Theorem lone_fragment_never_reconstructs now c r s k :
  Memory.json c = Memory.JsonString k ->
  JsMap.get k (Memory.reconstructionCache s) = None ->
  let required := match r with Some x => x | None => 0.6 end in
  ((Memory.getFragmentCount s <= 1)%nat -> 0.06 < required ->
   Memory.reconstructInformation now c r s = (Memory.Returned None, s))
  /\ (1 < required ->
      Memory.reconstructInformation now c r s = (Memory.Returned None, s)).
Proof.
  intros Hk Hc required. split.
  - intros Hcount Hreq. now apply (reconstruct_lone_null now c r s k).
  - intros Hreq. unfold Memory.reconstructInformation.
    rewrite Hk, Hc. fold required.
    replace (Memory.reconstructFresh now k c required s)
      with (@None string); [reflexivity|].
    symmetry. unfold Memory.reconstructFresh.
    destruct (Memory.findRelevantFragments now (JS.toLowerCase k) c s)
      as [|f l]; [reflexivity|].
    cbv zeta. destruct (viability_range (f :: l)) as [_ Hu].
    assert (Hlt : Memory.assessReconstructionViability (f :: l) < required)
      by lra.
    apply ltb_true_iff in Hlt. now rewrite Hlt.
Qed.

Lemma lone_fragment_witness :
  Memory.reconstructInformation 5000 empty_object_context None
                                (snd tie_first)
  = (Memory.Returned None, snd tie_first).
Proof.
  pose proof (lone_fragment_never_reconstructs 5000 empty_object_context
                None (snd tie_first) "{}" eq_refl eq_refl) as H.
  cbv zeta in H. destruct H as [H _]. apply H.
  - unfold Memory.getFragmentCount. simpl. lia.
  - lra.
Defined.

(** ** Relevance of a fragment to a context *)




Lemma Sorted_weaken {A} (P Q : A -> A -> Prop) (l : list A) :
  (forall a b, P a b -> Q a b) -> Sorted P l -> Sorted Q l.
Proof.
  intros HPQ. induction 1 as [|x l Hs IH Hd]; constructor; [exact IH|].
  destruct Hd; constructor; auto.
Qed.

Lemma more_important_first_total (a b : Fragment.t) :
  Memory.more_important_first a b = true
  \/ Memory.more_important_first b a = true.
Proof.
  unfold Memory.more_important_first.
  destruct (Rle_or_lt (Fragment.importance b) (Fragment.importance a)).
  - left. now apply leb_true_iff.
  - right. apply leb_true_iff. lra.
Qed.

(** X7.  The relevant fragments come out ranked by importance, highest
    first; they are exactly the fragments of the store that pass the
    relevance test, each as often as the store holds it. *)
Theorem relevant_fragments_are_ranked now cs c s :
  let l := Memory.findRelevantFragments now cs c s in
  Sorted (fun a b => Fragment.importance b <= Fragment.importance a) l
  /\ Permutation l (filter (Memory.is_relevant now cs c)
                           (JsMap.values (Memory.fragments s)))
  /\ (forall f, In f l <->
                In f (JsMap.values (Memory.fragments s))
                /\ Memory.is_relevant now cs c f = true).
Proof.
  cbv zeta. unfold Memory.findRelevantFragments. split; [|split].
  - eapply Sorted_weaken;
      [|apply sort_by_sorted, more_important_first_total].
    intros a b H. now apply leb_true_iff in H.
  - apply sort_by_perm.
  - intros f. rewrite <- filter_In. split; intros H.
    + eapply Permutation_in; [apply sort_by_perm | exact H].
    + eapply Permutation_in; [symmetry; apply sort_by_perm | exact H].
Qed.

(** ** Edge cases of [reconstructInformation] *)

Lemma relevant_of_empty now cs c s :
  Memory.fragments s = [] -> Memory.findRelevantFragments now cs c s = [].
Proof.
  intros H. unfold Memory.findRelevantFragments. now rewrite H.
Qed.

Lemma relevant_of_null now cs c s :
  Memory.type_field c = Memory.TypeUnreadable ->
  Memory.findRelevantFragments now cs c s = [].
Proof.
  intros H. unfold Memory.findRelevantFragments.
  replace (filter (Memory.is_relevant now cs c)
                  (JsMap.values (Memory.fragments s)))
    with (@nil Fragment.t); [reflexivity|].
  symmetry. induction (JsMap.values (Memory.fragments s)) as [|f r IH];
    [reflexivity|].
  simpl. unfold Memory.is_relevant at 1, Memory.relevanceScore,
    Memory.type_matches. now rewrite H.
Qed.

(** X8.  A context that [JSON.stringify] rejects or leaves [undefined]
    makes the call throw; on an empty store, and for the context [null],
    a call that misses the cache returns [null]; right after
    [flushAllMemory] every call that does not throw returns [null].  In
    all these cases the state is left as it was. *)
Theorem reconstruction_edge_cases now c r s :
  (Memory.json c = Memory.JsonThrows \/ Memory.json c = Memory.JsonUndefined
   -> Memory.reconstructInformation now c r s = (Memory.Thrown, s))
  /\ (forall k,
        Memory.json c = Memory.JsonString k ->
        JsMap.get k (Memory.reconstructionCache s) = None ->
        Memory.fragments s = []
        \/ Memory.type_field c = Memory.TypeUnreadable ->
        Memory.reconstructInformation now c r s
        = (Memory.Returned None, s))
  /\ (forall cfg k,
        Memory.json c = Memory.JsonString k ->
        Memory.reconstructInformation now c r (Memory.flushAllMemory cfg s)
        = (Memory.Returned None, Memory.flushAllMemory cfg s)).
Proof.
  split; [|split].
  - intros [H|H]; unfold Memory.reconstructInformation; now rewrite H.
  - intros k Hk Hc Hcase. unfold Memory.reconstructInformation.
    rewrite Hk, Hc. unfold Memory.reconstructFresh.
    destruct Hcase as [He|Hn].
    + now rewrite relevant_of_empty.
    + now rewrite relevant_of_null.
  - intros cfg k Hk. unfold Memory.reconstructInformation.
    rewrite Hk. cbn [Memory.flushAllMemory Memory.reconstructionCache
                     JsMap.get JsMap.empty].
    unfold Memory.reconstructFresh. now rewrite relevant_of_empty.
Qed.

Lemma reconstruction_edge_witness :
  Memory.reconstructInformation 0 empty_object_context None
    (Memory.construct defaultHolographicConfig 0 None)
  = (Memory.Returned None, Memory.construct defaultHolographicConfig 0 None).
Proof.
  destruct (reconstruction_edge_cases 0 empty_object_context None
              (Memory.construct defaultHolographicConfig 0 None))
    as [_ [H _]].
  apply (H "{}"); [reflexivity | reflexivity | left; reflexivity].
Defined.

(** ** The text of a reconstruction *)







(** ** The coherence signature is a canonical form *)

Lemma ascii_compare_refl (a : ascii) : Ascii.compare a a = Eq.
Proof. unfold Ascii.compare. apply N.compare_refl. Qed.

Lemma ascii_compare_trans (a b c : ascii) (o : comparison) :
  Ascii.compare a b = o -> Ascii.compare b c = o -> Ascii.compare a c = o.
Proof.
  unfold Ascii.compare. intros H1 H2. destruct o.
  - apply N.compare_eq in H1, H2. rewrite H1, H2. apply N.compare_refl.
  - rewrite N.compare_lt_iff in *. eapply N.lt_trans; eassumption.
  - rewrite N.compare_gt_iff in *. eapply N.lt_trans; eassumption.
Qed.

Lemma string_leb_trans (s1 s2 s3 : string) :
  String.leb s1 s2 = true -> String.leb s2 s3 = true ->
  String.leb s1 s3 = true.
Proof.
  unfold String.leb.
  revert s2 s3. induction s1 as [|a s1 IH]; intros [|b s2] [|c s3];
    simpl; try easy.
  destruct (Ascii.compare a b) eqn:Eab;
    destruct (Ascii.compare b c) eqn:Ebc; try easy.
  - apply Ascii.compare_eq_iff in Eab, Ebc. subst.
    rewrite ascii_compare_refl. apply IH.
  - apply Ascii.compare_eq_iff in Eab. subst. now rewrite Ebc.
  - apply Ascii.compare_eq_iff in Ebc. subst. now rewrite Eab.
  - now rewrite (ascii_compare_trans a b c Lt Eab Ebc).
Qed.

Lemma sorted_strings_unique (l1 l2 : list string) :
  Sorted (fun a b => String.leb a b = true) l1 ->
  Sorted (fun a b => String.leb a b = true) l2 ->
  Permutation l1 l2 -> l1 = l2.
Proof.
  intros H1 H2.
  assert (Htr : Relations_1.Transitive (fun a b => String.leb a b = true))
    by (intros a b c; apply string_leb_trans).
  apply (Sorted_StronglySorted Htr) in H1, H2.
  revert l2 H2. induction H1 as [|x l1 Hs1 IH Hx]; intros l2 H2 Hp.
  - apply Permutation_nil in Hp. now subst.
  - destruct H2 as [|y l2 Hs2 Hy].
    + symmetry in Hp. now apply Permutation_nil in Hp.
    + assert (Hxy : x = y).
      { assert (Hin1 : In x (y :: l2))
          by (eapply Permutation_in; [exact Hp | now left]).
        assert (Hin2 : In y (x :: l1))
          by (eapply Permutation_in; [symmetry; exact Hp | now left]).
        destruct Hin1 as [->|Hin1]; [reflexivity|].
        destruct Hin2 as [->|Hin2]; [reflexivity|].
        rewrite Forall_forall in Hx, Hy.
        apply String.leb_antisym; [now apply Hx | now apply Hy]. }
      subst y. f_equal. apply IH; [exact Hs2|].
      now apply Permutation_cons_inv in Hp.
Qed.

Lemma join_nonempty (sep : string) (l : list string) :
  (forall w, In w l -> w <> EmptyString) -> l <> [] ->
  JS.join sep l <> EmptyString.
Proof.
  intros Hw Hl. destruct l as [|w r]; [congruence|].
  assert (Hne : w <> EmptyString) by (apply Hw; now left).
  destruct w as [|c w]; [congruence|].
  unfold JS.join. simpl. destruct r; discriminate.
Qed.

(** X10.  The signature is a canonical form of the first five
    significant words: two contents whose first five significant words
    are the same up to order have the same signature.  The signature is
    empty exactly when the content has no significant word. *)
Theorem signature_is_canonical (c1 c2 : string) :
  (Permutation (JS.slice_to 5 (significant_words c1))
               (JS.slice_to 5 (significant_words c2)) ->
   generateCoherenceSignature c1 = generateCoherenceSignature c2)
  /\ (generateCoherenceSignature c1 = EmptyString
      <-> significant_words c1 = []).
Proof.
  split.
  - intros Hp. unfold generateCoherenceSignature, JS.sort_strings.
    f_equal. apply sorted_strings_unique.
    + apply sort_by_sorted, String.leb_total.
    + apply sort_by_sorted, String.leb_total.
    + rewrite !sort_by_perm. exact Hp.
  - unfold generateCoherenceSignature, JS.sort_strings. split.
    + intros He.
      destruct (significant_words c1) as [|w r] eqn:Hs; [reflexivity|].
      exfalso. revert He. apply join_nonempty.
      * intros x Hx Hempty.
        apply (Permutation_in _ (sort_by_perm String.leb _)) in Hx.
        unfold JS.slice_to in Hx.
        assert (Hx' : In x (w :: r)).
        { rewrite <- (firstn_skipn 5 (w :: r)). apply in_or_app.
          now left. }
        rewrite <- Hs in Hx'. clear Hx. rename Hx' into Hx. apply significant_words_spec in Hx.
        rewrite Hempty in Hx. simpl in Hx. lia.
      * intros Hnil.
        pose proof (sort_by_length String.leb (JS.slice_to 5 (w :: r)))
          as Hl.
        rewrite Hnil in Hl. simpl in Hl. lia.
    + intros ->. reflexivity.
Qed.

Lemma signature_canonical_witness :
  generateCoherenceSignature "delta alpha"
  = generateCoherenceSignature "ALPHA of Delta".
Proof.
  apply (signature_is_canonical "delta alpha" "ALPHA of Delta").
  apply perm_swap.
Defined.

(** ** The interference pass *)

Lemma interference_coherence_range (w1 w2 : Wave.t) :
  - (1 / 2) < Interference.coherence w1 w2 <= 1.
Proof.
  unfold Interference.coherence.
  pose proof (COS_bound (Rabs (Wave.phase w1 - Wave.phase w2)))
    as [Hc0 Hc1].
  pose proof (exp_pos (- Rabs (Wave.frequency w1 / Wave.frequency w2 - 1))).
  pose proof (exp_neg_le_one
                (Rabs (Wave.frequency w1 / Wave.frequency w2 - 1))
                (Rabs_pos _)).
  split; lra.
Qed.

Lemma score_fold_none cfg e l acc :
  (forall kp, In kp l -> retained cfg (snd kp) = false) ->
  fold_left (Interference.score_pair cfg e) l acc = acc.
Proof.
  revert acc. induction l as [|kp l IH]; intros acc H; [reflexivity|].
  cbn [fold_left]. rewrite score_pair_step, (H kp (or_introl eq_refl)).
  apply IH. intros kp' Hin. apply H. now right.
Qed.

Lemma quiet_pass cfg e waves s :
  (forall p, In p (Interference.pairs waves) -> retained cfg p = false) ->
  Interference.processWaveInterference cfg e waves s
  = (Interference.mkResult JsMap.empty [] 0.5, s).
Proof.
  intros H. unfold Interference.processWaveInterference. cbv zeta.
  rewrite score_fold_none.
  - destruct s. reflexivity.
  - intros kp Hin. apply H. unfold Interference.enumerate in Hin.
    destruct kp as [k p]. now apply in_combine_r in Hin.
Qed.

(** X11.  The coherence of two waves lies in (-1/2, 1].  Hence, with
    the constructive threshold at 1 (the top of its range) a pass over
    any waves retains no pattern, creates no behaviour, reports the
    neutral coherence 0.5 and leaves the engine's caches as they
    were. *)
Theorem threshold_of_one_retains_nothing cfg e waves s :
  1 <= constructiveThreshold (interference cfg) ->
  (forall w1 w2, - (1 / 2) < Interference.coherence w1 w2 <= 1)
  /\ Interference.processWaveInterference cfg e waves s
     = (Interference.mkResult JsMap.empty [] 0.5, s).
Proof.
  intros Ht. split; [apply interference_coherence_range|].
  apply quiet_pass. intros p _. unfold retained.
  apply gtb_false_iff.
  pose proof (interference_coherence_range (fst p) (snd p)). lra.
Qed.

Lemma threshold_of_one_witness :
  Interference.processWaveInterference closed_threshold_config
    (constant_env 5) [rust_wave; systems_wave] Interference.construct
  = (Interference.mkResult JsMap.empty [] 0.5, Interference.construct).
Proof.
  apply (threshold_of_one_retains_nothing closed_threshold_config
           (constant_env 5) [rust_wave; systems_wave]
           Interference.construct).
  simpl. lra.
Defined.

Lemma set_length_le {V} (k : string) (v : V) (m : JsMap.t V) :
  (List.length (JsMap.set k v m) <= S (List.length m))%nat.
Proof.
  induction m as [|[k' v'] r IH]; simpl; [lia|].
  destruct (String.eqb k' k); simpl; lia.
Qed.

Lemma score_fold_size cfg e l acc :
  (JsMap.size (fst (fold_left (Interference.score_pair cfg e) l acc))
   <= JsMap.size (fst acc) + List.length l)%nat.
Proof.
  revert acc. induction l as [|kp l IH]; intros acc; cbn [fold_left].
  - simpl. lia.
  - etransitivity; [apply IH|]. rewrite score_pair_step.
    destruct (retained cfg (snd kp)); cbn [fst List.length].
    + pose proof (set_length_le (fst (scored e kp)) (snd (scored e kp))
                                (fst acc)).
      unfold JsMap.size in *. lia.
    + lia.
Qed.

Lemma pairs_length (waves : list Wave.t) :
  (2 * List.length (Interference.pairs waves)
   = List.length waves * (List.length waves - 1))%nat.
Proof.
  induction waves as [|w r IH]; [reflexivity|].
  cbn [Interference.pairs]. rewrite length_app, length_map.
  cbn [List.length]. destruct r as [|v r]; [reflexivity|].
  cbn [List.length] in *. nia.
Qed.

Lemma pairs_In (waves : list Wave.t) (w1 w2 : Wave.t) :
  In (w1, w2) (Interference.pairs waves) -> In w1 waves /\ In w2 waves.
Proof.
  induction waves as [|w r IH]; [easy|].
  cbn [Interference.pairs]. intros H. apply in_app_or in H as [H|H].
  - apply in_map_iff in H as [v [[= <- <-] Hv]].
    split; [now left | now right].
  - destruct (IH H). split; now right.
Qed.

(** X12.  A pass over [n] waves retains at most [n (n - 1) / 2]
    patterns and creates at most one behaviour for each; with fewer than
    two waves it retains nothing, reports the neutral coherence and
    changes nothing. *)
Theorem pass_size_bound cfg e waves s :
  let r := fst (Interference.processWaveInterference cfg e waves s) in
  (2 * JsMap.size (Interference.interferenceResults r)
   <= List.length waves * (List.length waves - 1))%nat
  /\ (List.length (Interference.emergentPatterns r)
      <= JsMap.size (Interference.interferenceResults r))%nat
  /\ ((List.length waves <= 1)%nat ->
      Interference.processWaveInterference cfg e waves s
      = (Interference.mkResult JsMap.empty [] 0.5, s)).
Proof.
  cbv zeta. split; [|split].
  - unfold Interference.processWaveInterference. cbv zeta.
    cbn [fst Interference.interferenceResults].
    pose proof (score_fold_size cfg e
                  (Interference.enumerate (Interference.pairs waves))
                  (JsMap.empty, Interference.activePatterns s)) as H.
    cbn [fst] in H. unfold Interference.enumerate in H at 2.
    rewrite length_combine, length_seq, Nat.min_id in H.
    pose proof (pairs_length waves). simpl JsMap.size in H at 2.
    lia.
  - unfold Interference.processWaveInterference. cbv zeta.
    cbn [fst Interference.interferenceResults
         Interference.emergentPatterns].
    unfold Interference.detectEmergentPatterns. cbn [fst].
    rewrite length_map. unfold Interference.enumerate.
    rewrite length_combine, length_seq, Nat.min_id.
    etransitivity; [apply filter_length_le|].
    unfold JsMap.values, JsMap.size. now rewrite length_map.
  - intros Hn. apply quiet_pass.
    destruct waves as [|w [|v r]]; simpl in *; try easy. lia.
Qed.

Lemma pass_size_witness :
  Interference.processWaveInterference defaultHolographicConfig
    (constant_env 5) [rust_wave] Interference.construct
  = (Interference.mkResult JsMap.empty [] 0.5, Interference.construct).
Proof.
  apply (pass_size_bound defaultHolographicConfig (constant_env 5)
           [rust_wave] Interference.construct).
  simpl. lia.
Defined.

(** ** Emergent content and emergent behaviours *)

Lemma synthesis_facts c1 c2 (lvl : R) (t : string) :
  Interference.synthesizeContent c1 c2 lvl = Some t ->
  0.5 <= lvl /\ t <> EmptyString.
Proof.
  unfold Interference.synthesizeContent.
  destruct (JS.ltb lvl 0.5) eqn:Hl; [discriminate|].
  apply ltb_false_iff in Hl.
  destruct (_ || _); [discriminate|]. cbv zeta.
  destruct (0 <? _)%nat; [|discriminate].
  intros [= <-]. split; [lra|]. cbn. discriminate.
Qed.

(** X13.  [synthesizeContent] yields a text only at a coherence of at
    least 0.5, for two non-empty texts that share a word of more than
    three characters (compared in lower case); the text is never
    empty. *)
Theorem synthesis_needs_a_shared_word c1 c2 (lvl : R) (t : string) :
  Interference.synthesizeContent c1 c2 lvl = Some t ->
  0.5 <= lvl
  /\ t <> EmptyString
  /\ Interference.extractText c1 <> EmptyString
  /\ Interference.extractText c2 <> EmptyString
  /\ exists w,
       (3 < String.length w)%nat
       /\ In w (JS.split_ws (JS.toLowerCase (Interference.extractText c1)))
       /\ In w (JS.split_ws (JS.toLowerCase (Interference.extractText c2))).
Proof.
  unfold Interference.synthesizeContent.
  destruct (JS.ltb lvl 0.5) eqn:Hl; [discriminate|].
  apply ltb_false_iff in Hl.
  destruct (String.eqb (Interference.extractText c1) EmptyString) eqn:E1;
    [discriminate|].
  destruct (String.eqb (Interference.extractText c2) EmptyString) eqn:E2;
    [discriminate|].
  cbn [orb]. cbv zeta.
  set (common := filter _ _).
  destruct (0 <? List.length common)%nat eqn:Hc; [|discriminate].
  intros [= <-]. apply Nat.ltb_lt in Hc.
  apply String.eqb_neq in E1, E2.
  repeat split; try assumption; try lra.
  - cbn. discriminate.
  - destruct common as [|w r] eqn:Hcommon; [simpl in Hc; lia|].
    assert (Hin : In w common) by (rewrite Hcommon; now left).
    unfold common in Hin. apply filter_In in Hin as [Hw1 Hw].
    apply andb_prop in Hw as [Hw2 Hlen].
    exists w. apply Nat.ltb_lt in Hlen. repeat split; try assumption.
    unfold JS.array_includes in Hw2. apply existsb_exists in Hw2
      as [x [Hx Heq]].
    apply String.eqb_eq in Heq. now subst.
Qed.

Lemma synthesis_witness :
  0.5 <= 1.
Proof.
  apply (synthesis_needs_a_shared_word
           (PText "Rust and Go are great")
           (PText "Rust is excellent for systems work") 1
           ("Emergent insight: Connection between "
            ++ Interference.quote ++ "Rust and Go are great"
            ++ Interference.quote ++ " and " ++ Interference.quote
            ++ "Rust is excellent for systems work"
            ++ Interference.quote ++ " through common elements: rust")).
  unfold Interference.synthesizeContent.
  replace (JS.ltb 1 0.5) with false
    by (symmetry; apply ltb_false_iff; lra).
  reflexivity.
Defined.

Lemma score_fold_Forall cfg e (P : string * Pattern.t -> Prop) l acc :
  (forall kp, In kp l -> retained cfg (snd kp) = true ->
              P (scored e kp)) ->
  Forall P (fst acc) ->
  Forall P (fst (fold_left (Interference.score_pair cfg e) l acc)).
Proof.
  revert acc. induction l as [|kp l IH]; intros acc HP Hacc;
    [exact Hacc|].
  cbn [fold_left]. apply IH; [intros kp' Hin; apply HP; now right|].
  rewrite score_pair_step.
  destruct (retained cfg (snd kp)) eqn:Hr; [|exact Hacc].
  cbn [fst]. apply set_Forall; [exact Hacc|].
  rewrite <- surjective_pairing. apply HP; [now left | exact Hr].
Qed.

(** X14.  Every behaviour that a pass returns is grounded in a pair of
    the waves passed in: its confidence is the coherence of the pair,
    above both thresholds and within [0.5, 1], and its insight is the
    non-empty text synthesized from the two payloads. *)
Theorem emergent_behaviors_are_grounded cfg e waves s b :
  In b (Interference.emergentPatterns
          (fst (Interference.processWaveInterference cfg e waves s))) ->
  exists w1 w2,
    In (w1, w2) (Interference.pairs waves)
    /\ In w1 waves /\ In w2 waves
    /\ Behavior.confidence b = Interference.coherence w1 w2
    /\ Behavior.confidence b > emergentThreshold (interference cfg)
    /\ Behavior.confidence b > constructiveThreshold (interference cfg)
    /\ 0.5 <= Behavior.confidence b <= 1
    /\ Interference.synthesizeContent (Wave.content w1) (Wave.content w2)
         (Interference.coherence w1 w2) = Some (Behavior.insight b)
    /\ Behavior.insight b <> EmptyString
    /\ Behavior.timestamp b = now e.
Proof.
  unfold Interference.processWaveInterference. cbv zeta.
  cbn [fst Interference.emergentPatterns].
  unfold Interference.detectEmergentPatterns. cbn [fst].
  intros Hb. apply in_map_iff in Hb as [[k i] [<- Hki]].
  unfold Interference.enumerate in Hki. apply in_combine_r in Hki.
  apply filter_In in Hki as [Hi Hq]. cbn [fst snd].
  set (results := fst (fold_left _ _ _)) in Hi.
  assert (HF : Forall
                 (fun kv : string * Pattern.t =>
                    exists n p,
                      In p (Interference.pairs waves)
                      /\ retained cfg p = true
                      /\ snd kv = Interference.calculateInterference
                                    (now e) (random e n) (fst p) (snd p))
                 results).
  { apply score_fold_Forall; [|constructor].
    intros kp Hin Hr. exists (fst kp), (snd kp).
    unfold Interference.enumerate in Hin. destruct kp as [n p].
    apply in_combine_r in Hin. now repeat split. }
  unfold JsMap.values in Hi. apply in_map_iff in Hi as [kv [<- Hkv]].
  rewrite Forall_forall in HF.
  destruct (HF kv Hkv) as [n [[w1 w2] [Hp [Hr Hkv']]]].
  cbn [fst snd] in Hkv'. rewrite Hkv' in *. clear Hkv'.
  exists w1, w2. unfold Interference.qualifies in Hq.
  apply andb_prop in Hq as [Hq1 Hq2].
  cbn [Interference.calculateInterference Pattern.coherenceLevel
       Pattern.emergentContent] in Hq1, Hq2.
  apply gtb_true_iff in Hq1. unfold retained in Hr.
  apply gtb_true_iff in Hr. cbn [fst snd] in Hr.
  destruct (Interference.synthesizeContent (Wave.content w1)
              (Wave.content w2) (Interference.coherence w1 w2))
    as [t|] eqn:Hsyn; [|discriminate].
  destruct (synthesis_facts _ _ _ _ Hsyn) as [H05 Hne].
  pose proof (interference_coherence_range w1 w2) as [_ H1].
  destruct (pairs_In waves w1 w2 Hp) as [Hw1 Hw2].
  unfold Interference.newBehavior.
  cbn [Behavior.confidence Behavior.insight Behavior.timestamp
       Interference.calculateInterference Pattern.coherenceLevel
       Pattern.emergentContent].
  rewrite Hsyn. repeat split; try assumption; try lra.
Qed.

Lemma rust_pair_retained :
  retained defaultHolographicConfig (rust_wave, systems_wave) = true.
Proof.
  unfold retained. cbn [fst snd]. rewrite rust_coherence.
  apply gtb_true_iff. simpl. lra.
Qed.

Lemma rust_pass_behaviors :
  Interference.emergentPatterns
    (fst (Interference.processWaveInterference defaultHolographicConfig
            (constant_env 5) [rust_wave; systems_wave]
            Interference.construct))
  = [Interference.newBehavior 5 "r4nd0m"
       (Interference.calculateInterference 5 "r4nd0m" rust_wave
                                           systems_wave)].
Proof.
  unfold Interference.processWaveInterference. cbv zeta.
  cbn [fst Interference.emergentPatterns Interference.pairs map app
       List.length Interference.enumerate seq combine fold_left].
  rewrite score_pair_step. cbn [snd]. rewrite rust_pair_retained.
  cbn [fst snd JsMap.set JsMap.empty].
  unfold Interference.detectEmergentPatterns. cbn [fst].
  cbn [JsMap.values map snd filter].
  change (Interference.qualifies defaultHolographicConfig
            (snd (scored (constant_env 5) (0%nat, (rust_wave, systems_wave)))))
    with (pair_qualifies defaultHolographicConfig
            (rust_wave, systems_wave)).
  rewrite rust_pair_qualifies. reflexivity.
Qed.

Lemma emergent_behaviors_witness :
  0.5 <= Behavior.confidence
           (Interference.newBehavior 5 "r4nd0m"
              (Interference.calculateInterference 5 "r4nd0m" rust_wave
                                                  systems_wave)) <= 1.
Proof.
  destruct (emergent_behaviors_are_grounded defaultHolographicConfig
              (constant_env 5) [rust_wave; systems_wave]
              Interference.construct
              (Interference.newBehavior 5 "r4nd0m"
                 (Interference.calculateInterference 5 "r4nd0m" rust_wave
                                                     systems_wave)))
    as [w1 [w2 H]].
  - rewrite rust_pass_behaviors. now left.
  - apply H.
Defined.

(** ** Classification of an interference pattern *)

Lemma cos_quarter_above : 0.7 < cos (PI / 4).
Proof.
  rewrite cos_PI4.
  assert (Hs : sqrt 2 < 10 / 7).
  { rewrite <- (sqrt_square (10 / 7)) by lra.
    apply sqrt_lt_1; lra. }
  assert (H0 : 0 < sqrt 2) by (apply sqrt_lt_R0; lra).
  apply Rmult_lt_reg_r with (r := sqrt 2); [exact H0|].
  unfold Rdiv. rewrite Rmult_assoc, Rinv_l by lra. lra.
Qed.

Lemma constructive_cos (x : R) :
  0 <= x -> x < PI / 4 -> 0.7 < cos x.
Proof.
  intros H0 Hx. pose proof PI_RGT_0 as Hpi.
  pose proof cos_quarter_above as Hq.
  assert (cos (PI / 4) < cos x); [|lra].
  apply cos_decreasing_1; lra.
Qed.

(** X15.  A pattern whose coherence exceeds 0.8, as that of every
    pattern behind an emergent behaviour under the default emergent
    threshold, is classified by its kind alone when the product of the
    two amplitudes is at least 1 (as for waves of the default amplitude):
    SYNTHESIS when it is constructive, CONTRADICTION when it is not.  A
    pattern that is not constructive is never SYNTHESIS or INSIGHT, and
    one whose coherence exceeds 0.7 is never CORRELATION. *)
Theorem classification_by_kind now rand (w1 w2 : Wave.t) :
  let i := Interference.calculateInterference now rand w1 w2 in
  (0.8 < Pattern.coherenceLevel i ->
   1 <= Wave.amplitude w1 * Wave.amplitude w2 ->
   Interference.classifyBehaviorType i
   = if Pattern.constructive i then "SYNTHESIS" else "CONTRADICTION")
  /\ (Pattern.constructive i = false ->
      Interference.classifyBehaviorType i = "CONTRADICTION"
      \/ Interference.classifyBehaviorType i = "CORRELATION")
  /\ (0.7 < Pattern.coherenceLevel i ->
      Interference.classifyBehaviorType i <> "CORRELATION").
Proof.
  cbv zeta. unfold Interference.classifyBehaviorType.
  cbn [Interference.calculateInterference Pattern.coherenceLevel
       Pattern.constructive Pattern.resultantAmplitude].
  set (pd := Rabs (Wave.phase w1 - Wave.phase w2)).
  set (c := Interference.coherence w1 w2).
  split; [|split].
  - intros Hc Hamp.
    assert (H8 : JS.gtb c 0.8 = true) by (apply gtb_true_iff; lra).
    assert (H7 : JS.gtb c 0.7 = true) by (apply gtb_true_iff; lra).
    assert (H6 : JS.gtb c 0.6 = true) by (apply gtb_true_iff; lra).
    rewrite H8, H7, H6.
    destruct (JS.ltb pd (PI / 4)) eqn:Hk; cbn [andb negb].
    + apply ltb_true_iff in Hk.
      pose proof (constructive_cos pd (Rabs_pos _) Hk) as Hcos.
      assert (Ha : JS.gtb (Wave.amplitude w1 * Wave.amplitude w2 * cos pd)
                          0.7 = true)
        by (apply gtb_true_iff; nra).
      now rewrite Ha.
    + reflexivity.
  - intros Hk. rewrite Hk. rewrite !andb_false_r. cbn [andb negb].
    destruct (JS.gtb c 0.6); [now left | now right].
  - intros Hc.
    assert (H7 : JS.gtb c 0.7 = true) by (apply gtb_true_iff; lra).
    assert (H6 : JS.gtb c 0.6 = true) by (apply gtb_true_iff; lra).
    rewrite H7, H6.
    destruct (JS.ltb pd (PI / 4)); cbn [andb negb];
      repeat match goal with
             | |- context [if ?b then _ else _] => destruct b
             end; discriminate.
Qed.

Lemma classification_witness :
  Interference.classifyBehaviorType
    (Interference.calculateInterference 5 "r4nd0m" rust_wave systems_wave)
  = if Pattern.constructive
         (Interference.calculateInterference 5 "r4nd0m" rust_wave
                                             systems_wave)
    then "SYNTHESIS" else "CONTRADICTION".
Proof.
  apply (classification_by_kind 5 "r4nd0m" rust_wave systems_wave).
  - cbn [Interference.calculateInterference Pattern.coherenceLevel].
    rewrite rust_coherence. lra.
  - simpl. lra.
Defined.

(** ** Expiry of patterns and decay of waves *)

Lemma filter_filter_later {V} (ts : V -> Z) (age now1 now2 : Z)
  (m : JsMap.t V) :
  (now1 <= now2)%Z ->
  filter (fun kv => negb (age <? now2 - ts (snd kv))%Z)
         (filter (fun kv => negb (age <? now1 - ts (snd kv))%Z) m)
  = filter (fun kv => negb (age <? now2 - ts (snd kv))%Z) m.
Proof.
  intros Hn. induction m as [|kv m IH]; [reflexivity|].
  cbn [filter].
  destruct (age <? now1 - ts (snd kv))%Z eqn:E1; cbn [negb].
  - assert (E2 : (age <? now2 - ts (snd kv))%Z = true)
      by (apply Z.ltb_lt; apply Z.ltb_lt in E1; lia).
    rewrite E2. cbn [negb]. exact IH.
  - cbn [filter]. destruct (age <? now2 - ts (snd kv))%Z; cbn [negb];
      now rewrite IH.
Qed.

(** X16.  [clearOldPatterns] keeps exactly the patterns and behaviours
    whose age does not exceed [maxAge], in their order; a later clearing
    subsumes an earlier one with the same [maxAge], so the operation is
    idempotent. *)
Theorem clearOldPatterns_subsumes now1 now2 maxAge s :
  (now1 <= now2)%Z ->
  Interference.clearOldPatterns now2 maxAge
    (Interference.clearOldPatterns now1 maxAge s)
  = Interference.clearOldPatterns now2 maxAge s
  /\ (forall k p,
        In (k, p) (Interference.activePatterns
                     (Interference.clearOldPatterns now2 maxAge s))
        <-> In (k, p) (Interference.activePatterns s)
            /\ (now2 - Pattern.timestamp p
                <= match maxAge with Some a => a | None => 300000 end)%Z)
  /\ (forall k b,
        In (k, b) (Interference.emergentBehaviors
                     (Interference.clearOldPatterns now2 maxAge s))
        <-> In (k, b) (Interference.emergentBehaviors s)
            /\ (now2 - Behavior.timestamp b
                <= match maxAge with Some a => a | None => 300000 end)%Z).
Proof.
  intros Hn. unfold Interference.clearOldPatterns.
  cbn [Interference.activePatterns Interference.emergentBehaviors].
  split; [|split].
  - f_equal; now apply filter_filter_later.
  - intros k p. rewrite filter_In. cbn [snd].
    rewrite negb_true_iff, Z.ltb_ge. reflexivity.
  - intros k b. rewrite filter_In. cbn [snd].
    rewrite negb_true_iff, Z.ltb_ge. reflexivity.
Qed.

Lemma clearOldPatterns_witness :
  Interference.clearOldPatterns 400000 None
    (Interference.clearOldPatterns 100 None aged_caches)
  = Interference.clearOldPatterns 400000 None aged_caches
  /\ Interference.clearOldPatterns 100 None aged_caches = aged_caches
  /\ Interference.clearOldPatterns 400000 None aged_caches
     = Interference.construct.
Proof.
  split; [|split; reflexivity].
  apply (clearOldPatterns_subsumes 100 400000 None aged_caches).
  lia.
Defined.

Lemma decay_decay (dt1 dt2 : R) (w : Wave.t) :
  Engine.decay dt2 (Engine.decay dt1 w) = Engine.decay (dt1 + dt2) w.
Proof.
  unfold Engine.decay. cbn. f_equal.
  rewrite Rmult_assoc, <- exp_plus. f_equal. f_equal. lra.
Qed.

Lemma decay_fold_compose (dt1 dt2 : R) (m : JsMap.t Wave.t) :
  0 <= dt2 ->
  fold_right (Engine.decay_step dt2) []
    (fold_right (Engine.decay_step dt1) [] m)
  = fold_right (Engine.decay_step (dt1 + dt2)) [] m.
Proof.
  intros H2. induction m as [|[k w] m IH]; [reflexivity|].
  cbn [fold_right]. unfold Engine.decay_step at 2 4. cbn [fst snd].
  assert (He : exp (- dt2 / 10000) <= 1).
  { replace (- dt2 / 10000) with (- (dt2 / 10000)) by lra.
    apply exp_neg_le_one. lra. }
  pose proof (exp_pos (- dt2 / 10000)) as Hp.
  assert (Hamp : Wave.amplitude (Engine.decay (dt1 + dt2) w)
                 = Wave.amplitude (Engine.decay dt1 w)
                   * exp (- dt2 / 10000)).
  { rewrite <- decay_decay. reflexivity. }
  destruct (JS.ltb (Wave.amplitude (Engine.decay dt1 w)) 0.1) eqn:E1.
  - apply ltb_true_iff in E1.
    assert (E : JS.ltb (Wave.amplitude (Engine.decay (dt1 + dt2) w)) 0.1
                = true).
    { apply ltb_true_iff. rewrite Hamp.
      destruct (Rle_or_lt 0 (Wave.amplitude (Engine.decay dt1 w)));
        nra. }
    rewrite E. exact IH.
  - cbn [fold_right]. unfold Engine.decay_step at 1. cbn [fst snd].
    rewrite decay_decay, IH. reflexivity.
Qed.

(** X17.  Two ticks of decay compose: a tick of [dt1] followed by a
    tick of [dt2 >= 0] at a later clock reading leaves the engine in the
    state that one tick of [dt1 + dt2] at the later reading gives (in
    exact arithmetic): a wave removed by the first tick would have been
    removed by the long one, and the others decay by the product of the
    two factors. *)
Theorem updateWaveDecay_composes now1 now2 (dt1 dt2 : R) s :
  (now1 <= now2)%Z -> 0 <= dt2 ->
  Engine.updateWaveDecay now2 dt2 (Engine.updateWaveDecay now1 dt1 s)
  = Engine.updateWaveDecay now2 (dt1 + dt2) s.
Proof.
  intros Hn H2. unfold Engine.updateWaveDecay.
  cbn [Engine.holographicMemory Engine.interferenceEngine
       Engine.activeWaves].
  f_equal.
  - unfold Interference.clearOldPatterns.
    cbn [Interference.activePatterns Interference.emergentBehaviors].
    f_equal; now apply filter_filter_later.
  - now apply decay_fold_compose.
Qed.

Lemma updateWaveDecay_composes_witness :
  Engine.updateWaveDecay 20 5000 (Engine.updateWaveDecay 10 5000
                                                         two_wave_engine)
  = Engine.updateWaveDecay 20 (5000 + 5000) two_wave_engine.
Proof.
  apply (updateWaveDecay_composes 10 20 5000 5000 two_wave_engine).
  - lia.
  - lra.
Defined.

(** ** Invariants of every reachable state *)

Lemma NoDup_keys_set {V} (k : string) (v : V) (m : JsMap.t V) :
  NoDup (JsMap.keys m) -> NoDup (JsMap.keys (JsMap.set k v m)).
Proof.
  intros Hnd. destruct (in_dec string_dec k (JsMap.keys m)) as [Hin|Hout].
  - now rewrite keys_set_present.
  - rewrite set_fresh by exact Hout. unfold JsMap.keys.
    rewrite map_app. apply NoDup_app; [exact Hnd | | ].
    + repeat constructor. easy.
    + intros a Ha [<-|[]]. now apply Hout.
Qed.

Lemma well_keyed_set (m : JsMap.t Fragment.t) (f : Fragment.t) :
  well_keyed m -> well_keyed (JsMap.set (Fragment.id f) f m).
Proof.
  intros [Hnd Hk]. split; [now apply NoDup_keys_set|].
  now apply set_Forall.
Qed.

Lemma amplitudes_set k (f : Fragment.t) (m : JsMap.t Fragment.t) :
  amplitudes (JsMap.set k f m)
  = JsMap.set k (Fragment.amplitude f) (amplitudes m).
Proof.
  induction m as [|[k' f'] m IH]; [reflexivity|].
  simpl. destruct (String.eqb k' k); simpl; [reflexivity|].
  now rewrite IH.
Qed.

Lemma amplitudes_delete k (m : JsMap.t Fragment.t) :
  amplitudes (JsMap.delete k m) = JsMap.delete k (amplitudes m).
Proof.
  induction m as [|[k' f'] m IH]; [reflexivity|].
  unfold JsMap.delete in *. simpl.
  destruct (String.eqb k' k); simpl; [exact IH|]. now rewrite IH.
Qed.

Lemma memory_invariant_set (s : Memory.State) (f : Fragment.t) st :
  memory_invariant s ->
  memory_invariant
    (Memory.mkState (JsMap.set (Fragment.id f) f (Memory.fragments s))
                    (Memory.updateCoherenceMap f (Memory.coherenceMap s))
                    (Memory.reconstructionCache s) st).
Proof.
  intros [Hw Hc]. split; cbn [Memory.fragments Memory.coherenceMap].
  - now apply well_keyed_set.
  - unfold Memory.updateCoherenceMap. now rewrite Hc, amplitudes_set.
Qed.

Lemma memory_invariant_remove (l : list Fragment.t) (s : Memory.State) :
  memory_invariant s ->
  memory_invariant (fold_left Memory.remove_fragment l s).
Proof.
  revert s. induction l as [|f l IH]; intros s H; [exact H|].
  cbn [fold_left]. apply IH. destruct H as [Hw Hc].
  split; cbn [Memory.remove_fragment Memory.fragments Memory.coherenceMap].
  - now apply well_keyed_filter.
  - now rewrite Hc, amplitudes_delete.
Qed.

Lemma memory_invariant_store cfg now rand content region wt imp sid s :
  memory_invariant s ->
  memory_invariant
    (snd (Memory.storeFragment cfg now rand content region wt imp sid s)).
Proof.
  intros H. unfold Memory.storeFragment. cbv zeta. cbn [snd].
  unfold Memory.cleanupOldFragments. cbv zeta.
  match goal with
  | |- memory_invariant (if ?b then _ else _) => destruct b
  end.
  - apply memory_invariant_remove. now apply memory_invariant_set.
  - now apply memory_invariant_set.
Qed.

Lemma memory_invariant_load now ps s :
  memory_invariant s ->
  memory_invariant (Memory.load_entries now ps s).
Proof.
  revert s. induction ps as [|p ps IH]; intros s H; [exact H|].
  cbn [Memory.load_entries]. unfold Memory.load_entry.
  destruct (Memory.p_timestamp p); try exact H; apply IH;
    (destruct (Memory.restore now p) as [f|]; [|exact H]);
    now apply memory_invariant_set.
Qed.

Lemma memory_invariant_construct cfg now storage :
  memory_invariant (Memory.construct cfg now storage).
Proof.
  unfold Memory.construct, Memory.loadPersistedFragments.
  assert (H0 : memory_invariant
                 (Memory.mkState JsMap.empty JsMap.empty JsMap.empty
                                 storage)).
  { repeat split; cbn; constructor. }
  destruct (crossSessionEnabled (memory cfg)); [|exact H0].
  now apply memory_invariant_load.
Qed.

Lemma memory_invariant_reconstruct now c r s :
  memory_invariant s ->
  memory_invariant (snd (Memory.reconstructInformation now c r s)).
Proof.
  intros H. unfold Memory.reconstructInformation.
  destruct (Memory.json c) as [| |k]; try exact H.
  destruct (JsMap.get k (Memory.reconstructionCache s)); [exact H|].
  destruct (Memory.reconstructFresh _ _ _ _ _); exact H.
Qed.

Lemma memory_invariant_insights cfg e l m :
  memory_invariant m ->
  memory_invariant (fold_left (Engine.store_insight cfg e) l m).
Proof.
  revert m. induction l as [|kb l IH]; intros m H; [exact H|].
  cbn [fold_left]. apply IH. unfold Engine.store_insight.
  now apply memory_invariant_store.
Qed.

Lemma score_fold_cache_NoDup cfg e l acc :
  NoDup (JsMap.keys (snd acc)) ->
  NoDup (JsMap.keys
           (snd (fold_left (Interference.score_pair cfg e) l acc))).
Proof.
  revert acc. induction l as [|kp l IH]; intros acc H; [exact H|].
  cbn [fold_left]. apply IH. rewrite score_pair_step.
  destruct (retained cfg (snd kp)); [|exact H].
  cbn [snd]. now apply NoDup_keys_set.
Qed.

Lemma behaviors_fold_keyed (created : list Behavior.t)
  (cache : JsMap.t Behavior.t) :
  NoDup (JsMap.keys cache) ->
  Forall (fun kv => fst kv = Behavior.id (snd kv)) cache ->
  let cache' :=
    fold_left (fun m b => JsMap.set (Behavior.id b) b m) created cache in
  NoDup (JsMap.keys cache')
  /\ Forall (fun kv => fst kv = Behavior.id (snd kv)) cache'.
Proof.
  revert cache. induction created as [|b l IH]; intros cache Hnd Hk;
    [now split|].
  cbn [fold_left]. apply IH.
  - now apply NoDup_keys_set.
  - now apply set_Forall.
Qed.

Lemma Forall_filter {A} (P : A -> Prop) (f : A -> bool) (l : list A) :
  Forall P l -> Forall P (filter f l).
Proof.
  rewrite !Forall_forall. intros H x Hx. apply filter_In in Hx as [Hx _].
  now apply H.
Qed.

Lemma decayed_waves_ok (dt : R) (m : JsMap.t Wave.t) :
  Forall wave_ok m ->
  Forall wave_ok (fold_right (Engine.decay_step dt) [] m).
Proof.
  induction 1 as [|kw m Hkw Hm IH]; [constructor|].
  cbn [fold_right]. unfold Engine.decay_step at 1.
  destruct (JS.ltb _ 0.1); [exact IH|].
  constructor; [|exact IH]. exact Hkw.
Qed.

Lemma interference_pass_invariant cfg e waves (s : Interference.State) :
  NoDup (JsMap.keys (Interference.activePatterns s)) ->
  NoDup (JsMap.keys (Interference.emergentBehaviors s)) ->
  Forall (fun kv => fst kv = Behavior.id (snd kv))
         (Interference.emergentBehaviors s) ->
  let s' := snd (Interference.processWaveInterference cfg e waves s) in
  NoDup (JsMap.keys (Interference.activePatterns s'))
  /\ NoDup (JsMap.keys (Interference.emergentBehaviors s'))
  /\ Forall (fun kv => fst kv = Behavior.id (snd kv))
            (Interference.emergentBehaviors s').
Proof.
  intros Hp Hb Hk. cbv zeta.
  unfold Interference.processWaveInterference. cbv zeta.
  cbn [snd Interference.activePatterns Interference.emergentBehaviors].
  split.
  - now apply score_fold_cache_NoDup.
  - unfold Interference.detectEmergentPatterns. cbn [snd].
    now apply behaviors_fold_keyed.
Qed.

Lemma engine_invariant_step cfg s op :
  engine_invariant s -> engine_invariant (run_engine_op cfg s op).
Proof.
  intros (Hm & Hw & Hok & Hp & Hb & Hk).
  destruct op as [e region content wt amp targets | now c r | e | e
                 | now c | now dt | | ]; cbn [run_engine_op].
  - unfold Engine.propagateHolographicWave. cbv zeta.
    cbn [snd fst Engine.processWaveInterference Engine.holographicMemory
         Engine.interferenceEngine Engine.activeWaves].
    unfold Engine.processWaveInterference.
    cbn [snd fst Engine.holographicMemory Engine.interferenceEngine
         Engine.activeWaves].
    unfold engine_invariant.
    cbn [Engine.holographicMemory Engine.interferenceEngine
         Engine.activeWaves].
    split; [|split; [|split]].
    + apply memory_invariant_insights. now apply memory_invariant_store.
    + now apply NoDup_keys_set.
    + apply set_Forall; [exact Hok|]. unfold wave_ok.
      cbn [fst snd Wave.id Wave.frequency Wave.waveType Wave.phase].
      repeat split; try apply phase_of_hash_range.
    + now apply interference_pass_invariant.
  - unfold Engine.enhanceWithHolographicReconstruction. cbn [snd].
    unfold engine_invariant.
    cbn [Engine.holographicMemory Engine.interferenceEngine
         Engine.activeWaves].
    repeat split; try assumption;
      now apply memory_invariant_reconstruct.
  - unfold Engine.processWaveInterference. cbn [snd].
    unfold engine_invariant.
    cbn [Engine.holographicMemory Engine.interferenceEngine
         Engine.activeWaves].
    split; [exact Hm|]. split; [exact Hw|]. split; [exact Hok|].
    now apply interference_pass_invariant.
  - unfold Engine.getSystemState, Engine.processWaveInterference.
    cbn [snd].
    unfold engine_invariant.
    cbn [Engine.holographicMemory Engine.interferenceEngine
         Engine.activeWaves].
    split; [exact Hm|]. split; [exact Hw|]. split; [exact Hok|].
    now apply interference_pass_invariant.
  - assert (H : engine_invariant
                  (Engine.mkState
                     (snd (Memory.reconstructInformation now c
                             (Some (minimumCoherence (degradation cfg)))
                             (Engine.holographicMemory s)))
                     (Engine.interferenceEngine s)
                     (Engine.activeWaves s))).
    { unfold engine_invariant.
      cbn [Engine.holographicMemory Engine.interferenceEngine
           Engine.activeWaves].
      repeat split; try assumption;
        now apply memory_invariant_reconstruct. }
    unfold Engine.gracefulDegradation.
    destruct (fst (Memory.reconstructInformation _ _ _ _)) as [|[t|]];
      [exact H | | exact H].
    destruct (String.eqb t EmptyString); exact H.
  - unfold Engine.updateWaveDecay, engine_invariant.
    cbn [Engine.holographicMemory Engine.interferenceEngine
         Engine.activeWaves Interference.clearOldPatterns
         Interference.activePatterns Interference.emergentBehaviors].
    split; [exact Hm|].
    split; [now apply decayed_waves_keys|].
    split; [now apply decayed_waves_ok|].
    split; [now apply NoDup_map_filter|].
    split; [now apply NoDup_map_filter | now apply Forall_filter].
  - unfold Engine.flushAllMemory, engine_invariant.
    cbn [Engine.holographicMemory Engine.interferenceEngine
         Engine.activeWaves].
    repeat split; try assumption; cbn; constructor.
  - unfold Engine.cleanup, engine_invariant.
    cbn [Engine.holographicMemory Engine.interferenceEngine
         Engine.activeWaves].
    destruct Hm as [Hm1 Hm2].
    repeat split; try assumption; try (cbn; constructor).
    apply Hm1. apply Hm1.
Qed.

(** X19.  Whatever the persisted blob holds and whatever operations
    follow the construction, in every state of the engine: the fragment
    map holds each fragment once, under its own id; the coherence map
    holds exactly the amplitudes of the fragments, key by key; every
    active wave sits once under its own id, with the frequency of its
    type and a phase in [0, 2 pi); the pattern and behaviour caches have
    no duplicate keys, and behaviours sit under their ids. *)
Theorem engine_invariant_holds cfg now storage (ops : list EngineOp) :
  engine_invariant (run_engine cfg ops (Engine.construct cfg now storage)).
Proof.
  unfold run_engine.
  assert (H0 : engine_invariant (Engine.construct cfg now storage)).
  { unfold Engine.construct, engine_invariant.
    cbn [Engine.holographicMemory Engine.interferenceEngine
         Engine.activeWaves Interference.construct
         Interference.activePatterns Interference.emergentBehaviors].
    split; [apply memory_invariant_construct|].
    repeat split; constructor. }
  revert H0. generalize (Engine.construct cfg now storage).
  induction ops as [|op ops IH]; intros s H; [exact H|].
  cbn [fold_left]. apply IH. now apply engine_invariant_step.
Qed.

(** ** Listing and flushing the fragments *)

Lemma named_region_count (l : list Fragment.t) :
  (List.length (filter (Memory.in_region "InnerBrain") l)
   + List.length (filter (Memory.in_region "FrontalLobe") l)
   + List.length (filter (Memory.in_region "TemporalLobe") l)
   + List.length (filter (Memory.in_region "OccipitalLobe") l)
   + List.length (filter (Memory.in_region "Cerebellum") l)
   + List.length (filter (fun f => negb (in_named_region f)) l)
   = List.length l)%nat.
Proof.
  induction l as [|f l IH]; [reflexivity|].
  cbn [filter List.length].
  set (n1 := List.length (filter (Memory.in_region "InnerBrain") l)) in *.
  set (n2 := List.length (filter (Memory.in_region "FrontalLobe") l)) in *.
  set (n3 := List.length (filter (Memory.in_region "TemporalLobe") l)) in *.
  set (n4 := List.length (filter (Memory.in_region "OccipitalLobe") l)) in *.
  set (n5 := List.length (filter (Memory.in_region "Cerebellum") l)) in *.
  set (n6 := List.length (filter (fun f => negb (in_named_region f)) l))
    in *.
  assert (Hcase :
            (Memory.in_region "InnerBrain" f = true
             /\ Memory.in_region "FrontalLobe" f = false
             /\ Memory.in_region "TemporalLobe" f = false
             /\ Memory.in_region "OccipitalLobe" f = false
             /\ Memory.in_region "Cerebellum" f = false
             /\ in_named_region f = true)
            \/ (Memory.in_region "InnerBrain" f = false
                /\ Memory.in_region "FrontalLobe" f = true
                /\ Memory.in_region "TemporalLobe" f = false
                /\ Memory.in_region "OccipitalLobe" f = false
                /\ Memory.in_region "Cerebellum" f = false
                /\ in_named_region f = true)
            \/ (Memory.in_region "InnerBrain" f = false
                /\ Memory.in_region "FrontalLobe" f = false
                /\ Memory.in_region "TemporalLobe" f = true
                /\ Memory.in_region "OccipitalLobe" f = false
                /\ Memory.in_region "Cerebellum" f = false
                /\ in_named_region f = true)
            \/ (Memory.in_region "InnerBrain" f = false
                /\ Memory.in_region "FrontalLobe" f = false
                /\ Memory.in_region "TemporalLobe" f = false
                /\ Memory.in_region "OccipitalLobe" f = true
                /\ Memory.in_region "Cerebellum" f = false
                /\ in_named_region f = true)
            \/ (Memory.in_region "InnerBrain" f = false
                /\ Memory.in_region "FrontalLobe" f = false
                /\ Memory.in_region "TemporalLobe" f = false
                /\ Memory.in_region "OccipitalLobe" f = false
                /\ Memory.in_region "Cerebellum" f = true
                /\ in_named_region f = true)
            \/ (Memory.in_region "InnerBrain" f = false
                /\ Memory.in_region "FrontalLobe" f = false
                /\ Memory.in_region "TemporalLobe" f = false
                /\ Memory.in_region "OccipitalLobe" f = false
                /\ Memory.in_region "Cerebellum" f = false
                /\ in_named_region f = false)).
  { unfold Memory.in_region, in_named_region, JS.array_includes,
      named_regions. cbn [existsb].
    remember (Fragment.sourceRegion f) as r eqn:Hr. clear.
    destruct (String.eqb_spec r "InnerBrain") as [->|H1];
      [left; cbn; tauto|].
    destruct (String.eqb_spec r "FrontalLobe") as [->|H2];
      [right; left; cbn; tauto|].
    destruct (String.eqb_spec r "TemporalLobe") as [->|H3];
      [right; right; left; cbn; tauto|].
    destruct (String.eqb_spec r "OccipitalLobe") as [->|H4];
      [right; right; right; left; cbn; tauto|].
    destruct (String.eqb_spec r "Cerebellum") as [->|H5];
      [right; right; right; right; left; cbn; tauto|].
    right; right; right; right; right. cbn. tauto. }
  destruct Hcase as [H|[H|[H|[H|[H|H]]]]];
    destruct H as (-> & -> & -> & -> & -> & ->);
    cbn [negb List.length]; fold n1 n2 n3 n4 n5 n6; lia.
Qed.

(** X20.  [getAllFragments] lists exactly the fragments of the five
    named regions, each once for each time the store holds it: fragments
    of any other region, such as the insights stored under
    [InterferenceEngine] or a wave from [UserInput], are counted by
    [getFragmentCount] but never listed. *)
Theorem getAllFragments_partition (s : Engine.State) :
  (List.length (Engine.getAllFragments s)
   + List.length
       (filter (fun f => negb (in_named_region f))
               (JsMap.values
                  (Memory.fragments (Engine.holographicMemory s))))
   = Engine.getFragmentCount s)%nat
  /\ (forall f,
        In f (Engine.getAllFragments s)
        <-> In f (JsMap.values
                    (Memory.fragments (Engine.holographicMemory s)))
            /\ in_named_region f = true)
  /\ (forall f,
        In f (Engine.getAllFragments s) ->
        Fragment.sourceRegion f <> "InterferenceEngine").
Proof.
  assert (Hin : forall f,
             In f (Engine.getAllFragments s)
             <-> In f (JsMap.values
                         (Memory.fragments (Engine.holographicMemory s)))
                 /\ in_named_region f = true).
  { intros f. unfold Engine.getAllFragments. cbv zeta.
    rewrite in_flat_map. unfold Memory.getFragmentsByRegion.
    unfold in_named_region, JS.array_includes.
    rewrite existsb_exists. fold named_regions. split.
    - intros [region [Hr Hf]]. apply filter_In in Hf as [Hf Hreg].
      split; [exact Hf|]. exists region. split; [exact Hr|exact Hreg].
    - intros [Hf [region [Hr Hreg]]]. exists region.
      split; [exact Hr|]. apply filter_In. now split. }
  split; [|split; [exact Hin|]].
  - unfold Engine.getAllFragments, Engine.getFragmentCount,
      Memory.getFragmentCount, Memory.getFragmentsByRegion. cbv zeta.
    cbn [flat_map]. rewrite !length_app. cbn [List.length].
    pose proof (named_region_count
                  (JsMap.values
                     (Memory.fragments (Engine.holographicMemory s))))
      as H.
    unfold JsMap.size. unfold JsMap.values in *.
    rewrite length_map in H. lia.
  - intros f Hf. apply Hin in Hf as [_ Hn]. intros Heq.
    unfold in_named_region in Hn. rewrite Heq in Hn. discriminate.
Qed.

(** X21.  Right after [flushAllMemory] the system state reads no wave,
    no fragment, no pattern, no behaviour and the neutral coherence,
    and reading it changes nothing; the flush leaves the pattern and
    behaviour caches of the interference engine as they were; and an
    engine constructed afterwards with the same configuration starts
    with no fragment. *)
Theorem flush_then_restart_is_empty cfg e now (s : Engine.State) :
  let flushed := Engine.flushAllMemory cfg s in
  fst (Engine.getSystemState cfg e flushed)
  = Engine.mkSystemState 0 0 0.5 0 0
  /\ snd (Engine.getSystemState cfg e flushed) = flushed
  /\ Engine.interferenceEngine flushed = Engine.interferenceEngine s
  /\ Memory.fragments
       (Engine.holographicMemory
          (Engine.construct cfg now
             (Memory.localStorage (Engine.holographicMemory flushed))))
     = JsMap.empty.
Proof.
  cbv zeta. split; [|split; [|split]].
  - reflexivity.
  - unfold Engine.getSystemState, Engine.processWaveInterference,
      Engine.flushAllMemory. cbn [snd fst Engine.activeWaves
      Engine.interferenceEngine Engine.holographicMemory].
    f_equal. destruct (Engine.interferenceEngine s). reflexivity.
  - reflexivity.
  - unfold Engine.construct, Engine.flushAllMemory, Memory.construct,
      Memory.loadPersistedFragments, Memory.flushAllMemory.
    cbn [Engine.holographicMemory Memory.localStorage].
    destruct (crossSessionEnabled (memory cfg)); reflexivity.
Qed.

(** ** The persisted blob *)











(** ** The store and the callers of the engine *)

Lemma engine_invariant_construct cfg now storage :
  engine_invariant (Engine.construct cfg now storage).
Proof.
  unfold Engine.construct, engine_invariant.
  cbn [Engine.holographicMemory Engine.interferenceEngine
       Engine.activeWaves Interference.construct
       Interference.activePatterns Interference.emergentBehaviors].
  split; [apply memory_invariant_construct|].
  repeat split; constructor.
Qed.

Lemma store_invariant_step (st : Store.State) (op : StoreOp) :
  store_invariant st -> store_invariant (run_store_op st op).
Proof.
  intros H. destruct op as [now cfg | e region content wt amp | e
                           | enabled | now u | ]; cbn [run_store_op].
  - unfold Store.initializeEngine, store_invariant.
    cbn [Store.waveEngine Store.engineConfig Store.config Store.engine].
    split; [reflexivity | apply engine_invariant_construct].
  - unfold Store.propagateWave. unfold store_invariant in H.
    destruct (Store.waveEngine st) as [i|] eqn:Hi;
      [|cbn [snd]; unfold store_invariant; now rewrite Hi].
    destruct (negb (Store.isEnabled st));
      [cbn [snd]; unfold store_invariant; now rewrite Hi|].
    cbv zeta. cbn [snd]. unfold store_invariant.
    cbn [Store.waveEngine Store.engineConfig Store.config Store.engine].
    destruct H as [Hc Hinv]. split; [exact Hc|].
    apply (engine_invariant_step (Store.engineConfig i) (Store.engine i)
             (EPropagate e region content wt
                (Some (match amp with Some a => a | None => 1.0 end)) [])
             Hinv).
  - unfold Store.updateSystemState. unfold store_invariant in H.
    destruct (Store.waveEngine st) as [i|] eqn:Hi;
      [|unfold store_invariant; now rewrite Hi].
    cbv zeta. unfold store_invariant.
    cbn [Store.waveEngine Store.engineConfig Store.config Store.engine].
    destruct H as [Hc Hinv]. split; [exact Hc|].
    apply (engine_invariant_step (Store.engineConfig i) (Store.engine i)
             (ESystemState e) Hinv).
  - exact H.
  - unfold Store.updateConfig, Store.initializeEngine, store_invariant.
    cbv zeta.
    cbn [Store.waveEngine Store.engineConfig Store.config Store.engine].
    split; [reflexivity | apply engine_invariant_construct].
  - unfold Store.flushMemory. unfold store_invariant in H.
    destruct (Store.waveEngine st) as [i|] eqn:Hi;
      [|unfold store_invariant; now rewrite Hi].
    unfold store_invariant.
    cbn [Store.waveEngine Store.engineConfig Store.config Store.engine].
    destruct H as [Hc Hinv]. split; [exact Hc|].
    apply (engine_invariant_step (Store.engineConfig i) (Store.engine i)
             EFlush Hinv).
Qed.

(** X23.  After any sequence of store operations from the initial
    store: when an engine exists it was constructed with the store's
    current configuration and satisfies the invariants of the engine;
    while none exists the configuration is the default one and no system
    state has been recorded. *)
Theorem store_invariant_holds storage (ops : list StoreOp) :
  store_invariant (fold_left run_store_op ops (Store.initial storage)).
Proof.
  assert (H0 : store_invariant (Store.initial storage))
    by (split; reflexivity).
  revert H0. generalize (Store.initial storage).
  induction ops as [|op ops IH]; intros st H; [exact H|].
  cbn [fold_left]. apply IH. now apply store_invariant_step.
Qed.

Lemma generateWaveId_nonempty now rand :
  Engine.generateWaveId now rand <> EmptyString.
Proof. unfold Engine.generateWaveId. cbn. discriminate. Qed.

(** X24.  [propagateWave] returns the empty string exactly when the
    store has no engine or is switched off, and then it changes
    nothing; otherwise the id it returns is the key of an active wave of
    the store's engine, with the given amplitude (1 when omitted). *)
Theorem propagateWave_gate e region content wt amp (st : Store.State) :
  let r := Store.propagateWave e region content wt amp st in
  (fst r = EmptyString
   <-> Store.waveEngine st = None \/ Store.isEnabled st = false)
  /\ (fst r = EmptyString -> snd r = st)
  /\ (fst r <> EmptyString ->
      exists i w,
        Store.waveEngine (snd r) = Some i
        /\ JsMap.get (fst r) (Engine.activeWaves (Store.engine i)) = Some w
        /\ Wave.id w = fst r
        /\ Wave.amplitude w = match amp with Some a => a | None => 1.0 end).
Proof.
  cbv zeta. unfold Store.propagateWave.
  destruct (Store.waveEngine st) as [i|] eqn:Hi.
  - destruct (Store.isEnabled st) eqn:He; cbn [negb].
    + cbv zeta. cbn [fst snd].
      assert (Hid : fst (Engine.propagateHolographicWave
                           (Store.engineConfig i) e region content wt
                           (Some (match amp with
                                  | Some a => a | None => 1.0 end)) []
                           (Store.engine i))
                    = Engine.generateWaveId (now e) (random e 0))
        by reflexivity.
      rewrite Hid.
      split; [|split].
      * split; [intros H; now apply generateWaveId_nonempty in H|].
        intros [H|H]; discriminate.
      * intros H. now apply generateWaveId_nonempty in H.
      * intros _. eexists. eexists.
        split; [reflexivity|].
        cbn [Store.engine]. unfold Engine.propagateHolographicWave.
        cbv zeta. cbn [snd Engine.activeWaves].
        unfold Engine.processWaveInterference.
        cbn [snd Engine.activeWaves].
        split; [apply get_set_same|]. split; reflexivity.
    + cbn [fst snd]. split; [|split]; try easy.
      split; [intros _; now right | reflexivity].
  - cbn [fst snd]. split; [|split]; try easy.
    split; [intros _; now left | reflexivity].
Qed.

Lemma propagateWave_gate_witness :
  snd (Store.propagateWave (constant_env 5) "UserInput" (PText "hello")
                           INTENT None (Store.initial None))
  = Store.initial None
  /\ exists i w,
       Store.waveEngine
         (snd (Store.propagateWave (constant_env 5) "UserInput"
                 (PText "hello") INTENT None ready_shop)) = Some i
       /\ JsMap.get "wave_5_r4nd0m" (Engine.activeWaves (Store.engine i))
          = Some w
       /\ Wave.id w = "wave_5_r4nd0m"
       /\ Wave.amplitude w = 1.0.
Proof.
  split.
  - apply (propagateWave_gate (constant_env 5) "UserInput" (PText "hello")
             INTENT None (Store.initial None)).
    reflexivity.
  - apply (propagateWave_gate (constant_env 5) "UserInput" (PText "hello")
             INTENT None ready_shop).
    discriminate.
Defined.

Lemma load_keeps_cache now ps s :
  Memory.reconstructionCache (Memory.load_entries now ps s)
  = Memory.reconstructionCache s
  /\ Memory.localStorage (Memory.load_entries now ps s)
     = Memory.localStorage s.
Proof.
  revert s. induction ps as [|p ps IH]; intros s; [now split|].
  cbn [Memory.load_entries]. unfold Memory.load_entry.
  destruct (Memory.p_timestamp p); try (now split);
    match goal with
    | |- context [Memory.load_entries now ps ?s'] =>
        destruct (IH s') as [H1 H2]; rewrite H1, H2
    end;
    destruct (Memory.restore now p); now split.
Qed.

Lemma construct_cache_storage cfg now storage :
  Memory.reconstructionCache (Memory.construct cfg now storage)
  = JsMap.empty
  /\ Memory.localStorage (Memory.construct cfg now storage) = storage.
Proof.
  unfold Memory.construct, Memory.loadPersistedFragments.
  destruct (crossSessionEnabled (memory cfg)); [|now split].
  apply load_keeps_cache.
Qed.

(** X25.  [updateConfig] merges the update into the configuration and
    replaces the engine by a new one constructed with the result: the
    store is switched on whatever the switch was, the recorded system
    state and the blob store stay, the new engine has no active wave, no
    pattern, no behaviour and an empty reconstruction cache, and its
    fragments are those restored from the entries of the blob that the
    load reaches when persistence is on in the new configuration, none
    otherwise.  An update without keys
    leaves the configuration as it was. *)
Theorem updateConfig_reinitializes now u (st : Store.State) :
  let st' := Store.updateConfig now u st in
  Store.isEnabled st' = true
  /\ Store.config st' = Store.merge (Store.config st) u
  /\ Store.systemState st' = Store.systemState st
  /\ Store.storage st' = Store.storage st
  /\ (exists i,
        Store.waveEngine st' = Some i
        /\ Store.engineConfig i = Store.config st'
        /\ Engine.activeWaves (Store.engine i) = JsMap.empty
        /\ Engine.interferenceEngine (Store.engine i)
           = Interference.construct
        /\ Memory.reconstructionCache
             (Engine.holographicMemory (Store.engine i)) = JsMap.empty
        /\ Memory.fragments (Engine.holographicMemory (Store.engine i))
           = if crossSessionEnabled (memory (Store.config st'))
             then load_into now JsMap.empty
                    (reached
                       (JsMap.values
                          (Memory.getPersistedFragments
                             (Store.storage st))))
             else JsMap.empty)
  /\ Store.merge (Store.config st) (Store.mkUpdates None None None None)
     = Store.config st.
Proof.
  cbv zeta. unfold Store.updateConfig, Store.initializeEngine. cbv zeta.
  cbn [Store.isEnabled Store.config Store.systemState Store.waveEngine].
  set (cfg := Store.merge (Store.config st) u).
  assert (Hs : Store.storage
                 (Store.mkState (Store.waveEngine st) (Store.isEnabled st)
                    cfg (Store.systemState st) (Store.browserStorage st))
               = Store.storage st) by reflexivity.
  rewrite Hs.
  destruct (construct_cache_storage cfg now (Store.storage st))
    as [Hcache Hstorage].
  split; [reflexivity|]. split; [reflexivity|]. split; [reflexivity|].
  split; [|split].
  - unfold Store.storage at 1.
    cbn [Store.waveEngine Store.engine Engine.construct
         Engine.holographicMemory]. exact Hstorage.
  - eexists. split; [reflexivity|].
    cbn [Store.engineConfig Store.engine Engine.construct
         Engine.activeWaves Engine.interferenceEngine
         Engine.holographicMemory].
    split; [reflexivity|]. split; [reflexivity|]. split; [reflexivity|].
    split; [exact Hcache|].
    unfold Memory.construct, Memory.loadPersistedFragments.
    destruct (crossSessionEnabled (memory cfg)) eqn:Hcross;
      [|reflexivity].
    now rewrite load_fragments.
  - destruct (Store.config st). reflexivity.
Qed.

(** X26.  The caller of [gracefulDegradation] hands a response back
    exactly when the reconstruction returned a non-empty text; the
    result [emergency_fallback], though it reports success, is rethrown
    as the original error like a failure, as is every call without an
    engine.  In particular the original error is rethrown whenever the
    store holds at most one fragment, nothing is cached for the context
    and the minimum coherence is above 0.06. *)
Theorem degradation_rethrows_unless_reconstructed now fj
  (st : Store.State) :
  let r := Cognitive.attemptGracefulDegradation now fj st in
  (Store.waveEngine st = None -> r = (Memory.Thrown, st))
  /\ (forall i,
        Store.waveEngine st = Some i ->
        let ctx := Memory.mkContext fj Memory.TypeAbsent in
        let d := fst (Engine.gracefulDegradation (Store.engineConfig i)
                        now ctx (Store.engine i)) in
        let memory_result :=
          fst (Memory.reconstructInformation now ctx
                 (Some (minimumCoherence
                          (degradation (Store.engineConfig i))))
                 (Engine.holographicMemory (Store.engine i))) in
        (forall text,
           fst r = Memory.Returned text
           <-> text <> EmptyString
               /\ memory_result = Memory.Returned (Some text))
        /\ (fst r = Memory.Thrown
            <-> Engine.method d <> "holographic_reconstruction")
        /\ (Engine.method d = "emergency_fallback" ->
            Engine.success d = true /\ fst r = Memory.Thrown)
        /\ (forall k,
              fj = Memory.JsonString k ->
              JsMap.get k (Memory.reconstructionCache
                             (Engine.holographicMemory (Store.engine i)))
              = None ->
              (Engine.getFragmentCount (Store.engine i) <= 1)%nat ->
              0.06 < minimumCoherence (degradation (Store.engineConfig i))
              -> fst r = Memory.Thrown)).
Proof.
  cbv zeta. split.
  - intros H. unfold Cognitive.attemptGracefulDegradation. now rewrite H.
  - intros i Hi.
    assert (Hcases :
              forall res,
                fst (Memory.reconstructInformation now
                       (Memory.mkContext fj Memory.TypeAbsent)
                       (Some (minimumCoherence
                                (degradation (Store.engineConfig i))))
                       (Engine.holographicMemory (Store.engine i))) = res ->
                (forall text,
                   fst (Cognitive.attemptGracefulDegradation now fj st)
                   = Memory.Returned text
                   <-> text <> EmptyString
                       /\ res = Memory.Returned (Some text))
                /\ (fst (Cognitive.attemptGracefulDegradation now fj st)
                    = Memory.Thrown
                    <-> Engine.method
                          (fst (Engine.gracefulDegradation
                                  (Store.engineConfig i) now
                                  (Memory.mkContext fj Memory.TypeAbsent)
                                  (Store.engine i)))
                        <> "holographic_reconstruction")
                /\ (Engine.method
                      (fst (Engine.gracefulDegradation
                              (Store.engineConfig i) now
                              (Memory.mkContext fj Memory.TypeAbsent)
                              (Store.engine i)))
                    = "emergency_fallback" ->
                    Engine.success
                      (fst (Engine.gracefulDegradation
                              (Store.engineConfig i) now
                              (Memory.mkContext fj Memory.TypeAbsent)
                              (Store.engine i))) = true
                    /\ fst (Cognitive.attemptGracefulDegradation now fj st)
                       = Memory.Thrown)).
    { intros res Hres.
      unfold Cognitive.attemptGracefulDegradation. rewrite Hi. cbv zeta.
      unfold Engine.gracefulDegradation. rewrite Hres.
      destruct res as [|[text|]].
      - cbn. split; [|split].
        + intros t. split; [discriminate | intros [_ H]; discriminate].
        + split; [discriminate | reflexivity].
        + discriminate.
      - destruct (String.eqb text EmptyString) eqn:He; cbn.
        + apply String.eqb_eq in He. subst text. split; [|split].
          * intros t. split; [discriminate|].
            intros [Hne [= <-]]. now elim Hne.
          * split; [discriminate | reflexivity].
          * intros _. now split.
        + rewrite He. cbn. apply String.eqb_neq in He. split; [|split].
          * intros t. split.
            -- intros [= <-]. now split.
            -- intros [_ [= <-]]. reflexivity.
          * split; [discriminate | intros H; now elim H].
          * discriminate.
      - cbn. split; [|split].
        + intros t. split; [discriminate | intros [_ H]; discriminate].
        + split; [discriminate | reflexivity].
        + intros _. now split. }
    destruct (Hcases _ eq_refl) as [H1 [H2 H3]].
    split; [exact H1|]. split; [exact H2|]. split; [exact H3|].
    intros k Hk Hc Hcount Hmin.
    assert (Hnull : Memory.reconstructInformation now
                      (Memory.mkContext fj Memory.TypeAbsent)
                      (Some (minimumCoherence
                               (degradation (Store.engineConfig i))))
                      (Engine.holographicMemory (Store.engine i))
                    = (Memory.Returned None,
                       Engine.holographicMemory (Store.engine i))).
    { apply (reconstruct_lone_null now _ _ _ k); try assumption. }
    unfold Cognitive.attemptGracefulDegradation. rewrite Hi. cbv zeta.
    unfold Engine.gracefulDegradation. rewrite Hnull. reflexivity.
Qed.

(** The fallback context that names alpha, read when the third
    fragment is stored: the two alpha fragments are relevant (one word
    overlaps, the boost is almost 1), the third is not. *)
Lemma alpha_input_relevant (f : Fragment.t) :
  Fragment.content f = "alpha" ->
  (1000 <= Fragment.timestamp f <= 3000)%Z ->
  Fragment.importance f = 1 ->
  Memory.is_relevant 3000 (JS.toLowerCase alpha_json) alpha_fallback f
  = true.
Proof.
  intros Hc Ht Hi. unfold Memory.is_relevant, Memory.relevanceScore.
  replace (Memory.commonContextWords (JS.toLowerCase alpha_json) f)
    with ["alpha"]
    by (unfold Memory.commonContextWords; now rewrite Hc).
  cbn [Memory.type_matches Memory.type_field alpha_fallback].
  cbv zeta. apply gtb_true_iff. unfold Memory.temporalBoost.
  rewrite Hi. cbn [List.length]. simpl INR.
  assert (Ha : 0 <= IZR (3000 - Fragment.timestamp f) <= 2000)
    by (split; apply IZR_le; lia).
  rewrite Rmax_right by lra. lra.
Qed.

Lemma beta_input_irrelevant :
  Memory.is_relevant 3000 (JS.toLowerCase alpha_json) alpha_fallback
                     beta_third = false.
Proof.
  unfold Memory.is_relevant, Memory.relevanceScore.
  replace (Memory.commonContextWords (JS.toLowerCase alpha_json)
                                     beta_third)
    with (@nil string) by reflexivity.
  cbn [Memory.type_matches Memory.type_field alpha_fallback].
  cbv zeta. apply gtb_false_iff. unfold Memory.temporalBoost.
  replace (3000 - Fragment.timestamp beta_third)%Z with 0%Z
    by reflexivity.
  rewrite Rmax_right by lra. simpl. lra.
Qed.

Lemma alpha_cache_empty_at :
  JsMap.get alpha_json (Memory.reconstructionCache alpha_store) = None.
Proof. reflexivity. Qed.

Lemma alpha_input_call :
  Memory.reconstructInformation 3000 alpha_fallback (Some 0.4) alpha_store
  = (Memory.Returned (Some "alpha"),
     Memory.cache_set alpha_json "alpha" alpha_store).
Proof.
  unfold Memory.reconstructInformation.
  cbn [Memory.json alpha_fallback].
  rewrite alpha_cache_empty_at.
  unfold Memory.reconstructFresh.
  replace (Memory.findRelevantFragments 3000 (JS.toLowerCase alpha_json)
             alpha_fallback alpha_store)
    with [alpha_first; alpha_second].
  - cbv zeta. rewrite viability_late, reconstruction_late.
    replace (JS.ltb 0.82 0.4) with false; [reflexivity|].
    symmetry. apply ltb_false_iff. lra.
  - symmetry. unfold Memory.findRelevantFragments.
    rewrite alpha_fragments. cbn [JsMap.values map snd filter].
    rewrite (alpha_input_relevant alpha_first)
      by (try reflexivity; cbn; lia).
    rewrite (alpha_input_relevant alpha_second)
      by (try reflexivity; cbn; lia).
    rewrite beta_input_irrelevant.
    apply sort_equal_importance. repeat constructor.
Qed.

Lemma degradation_rethrows_witness :
  Cognitive.attemptGracefulDegradation 5 (Memory.JsonString "{}")
                                       (Store.initial None)
  = (Memory.Thrown, Store.initial None)
  /\ fst (Cognitive.attemptGracefulDegradation 3000
            (Memory.JsonString alpha_json) alpha_shop)
     = Memory.Returned "alpha"
  /\ fst (Cognitive.attemptGracefulDegradation 5 (Memory.JsonString "{}")
            ready_shop)
     = Memory.Thrown.
Proof.
  split; [|split].
  - apply (degradation_rethrows_unless_reconstructed 5
             (Memory.JsonString "{}") (Store.initial None)).
    reflexivity.
  - pose proof (degradation_rethrows_unless_reconstructed 3000
                  (Memory.JsonString alpha_json) alpha_shop) as H.
    cbv zeta in H. destruct H as [_ H].
    destruct (H _ eq_refl) as [Hiff _]. apply Hiff.
    split; [discriminate|]. exact (f_equal fst alpha_input_call).
  - pose proof (degradation_rethrows_unless_reconstructed 5
                  (Memory.JsonString "{}") ready_shop) as H.
    cbv zeta in H. destruct H as [_ H].
    destruct (H _ eq_refl) as (_ & _ & _ & Hlone).
    apply (Hlone "{}"); [reflexivity | reflexivity | | ].
    + cbn. lia.
    + cbn. lra.
Defined.

(** ** The region cap and the growth of the store *)

Lemma cleanup_region_count cfg region (s : Memory.State) :
  well_keyed (Memory.fragments s) ->
  List.length (Memory.getFragmentsByRegion region
                 (Memory.cleanupOldFragments cfg region s))
  = Nat.min (maxFragmentsPerRegion (memory cfg))
            (List.length (Memory.getFragmentsByRegion region s)).
Proof.
  intros Hwf. set (cap := maxFragmentsPerRegion (memory cfg)).
  set (RV := Memory.getFragmentsByRegion region s).
  set (rf := JS.sort_by Memory.newer_first RV).
  assert (Hperm : Permutation rf RV) by apply sort_by_perm.
  assert (Hlen : List.length rf = List.length RV)
    by apply sort_by_length.
  assert (Hids : NoDup (map Fragment.id (JsMap.values (Memory.fragments s)))).
  { destruct Hwf as [Hnd Hk]. now rewrite <- keys_keyed. }
  assert (Hidsrf : NoDup (map Fragment.id rf)).
  { apply (Permutation_NoDup (l := map Fragment.id RV)).
    - apply Permutation_map. now symmetry.
    - unfold RV, Memory.getFragmentsByRegion. now apply NoDup_map_filter. }
  unfold Memory.cleanupOldFragments. cbv zeta.
  change (Memory.regionFragments region s) with rf. fold cap.
  destruct (Nat.ltb_spec cap (List.length rf)) as [Hover|Hfit].
  - assert (Hvals : JsMap.values
                      (Memory.fragments
                         (fold_left Memory.remove_fragment
                                    (JS.slice_from cap rf) s))
                    = filter (fun f =>
                                negb (id_in (map Fragment.id
                                                (JS.slice_from cap rf))
                                            (Fragment.id f)))
                             (JsMap.values (Memory.fragments s))).
    { rewrite remove_fold_fragments.
      apply (values_filter_keyed
               (fun k => negb (id_in (map Fragment.id
                                         (JS.slice_from cap rf)) k))).
      apply Hwf. }
    assert (Hkept : Permutation
                      (Memory.getFragmentsByRegion region
                         (fold_left Memory.remove_fragment
                                    (JS.slice_from cap rf) s))
                      (firstn cap rf)).
    { unfold Memory.getFragmentsByRegion. rewrite Hvals.
      rewrite filter_filter_both.
      rewrite (filter_ext _
                 (fun f => Memory.in_region region f
                           && negb (id_in (map Fragment.id
                                              (JS.slice_from cap rf))
                                          (Fragment.id f))))
        by (intros f; apply andb_comm).
      rewrite <- filter_filter_both.
      change (filter (Memory.in_region region)
                     (JsMap.values (Memory.fragments s))) with RV.
      rewrite <- (keep_prefix rf cap Hidsrf).
      apply Permutation_filter. now symmetry. }
    rewrite (Permutation_length Hkept), length_firstn. lia.
  - fold RV. lia.
Qed.

Lemma store_count_le cfg now rand content region wt imp sid s :
  (Memory.getFragmentCount
     (snd (Memory.storeFragment cfg now rand content region wt imp sid s))
   <= S (Memory.getFragmentCount s))%nat.
Proof.
  unfold Memory.storeFragment. cbv zeta. cbn [snd].
  unfold Memory.cleanupOldFragments. cbv zeta.
  unfold Memory.getFragmentCount, JsMap.size.
  match goal with
  | |- context [if ?b then _ else _] => destruct b
  end.
  - rewrite remove_fold_fragments. cbn [Memory.fragments].
    etransitivity; [apply filter_length_le | apply set_length_le].
  - cbn [Memory.fragments]. apply set_length_le.
Qed.

(** X27.  The region cap is enforced by every store into a fragment map
    that holds each fragment once under its id (as every reachable one
    does): afterwards the region of the stored fragment holds at most
    [maxFragmentsPerRegion] fragments, also when the id collides with a
    present one and when a load had filled the region beyond the cap;
    and the store as a whole has grown by at most one fragment. *)
Theorem region_cap_is_enforced cfg now rand content region wt imp sid s :
  well_keyed (Memory.fragments s) ->
  let s' :=
    snd (Memory.storeFragment cfg now rand content region wt imp sid s) in
  (List.length (Memory.getFragmentsByRegion region s')
   <= maxFragmentsPerRegion (memory cfg))%nat
  /\ (Memory.getFragmentCount s' <= S (Memory.getFragmentCount s))%nat
  /\ well_keyed (Memory.fragments s').
Proof.
  intros Hwf. cbv zeta. split; [|split].
  - unfold Memory.storeFragment. cbv zeta. cbn [snd].
    rewrite cleanup_region_count.
    + apply Nat.le_min_l.
    + cbn [Memory.fragments]. now apply well_keyed_set.
  - apply store_count_le.
  - assert (Hinv : memory_invariant
                     (Memory.mkState (Memory.fragments s)
                        (amplitudes (Memory.fragments s))
                        (Memory.reconstructionCache s)
                        (Memory.localStorage s)))
      by (split; [exact Hwf | reflexivity]).
    pose proof (memory_invariant_store cfg now rand content region wt imp
                  sid _ Hinv) as [Hw _].
    revert Hw. unfold Memory.storeFragment. cbv zeta. cbn [snd].
    unfold Memory.cleanupOldFragments, Memory.regionFragments. cbv zeta.
    cbn [Memory.fragments].
    match goal with
    | |- context [if ?b then _ else _] => destruct b
    end.
    + rewrite !remove_fold_fragments. cbn [Memory.fragments]. auto.
    + cbn [Memory.fragments]. auto.
Qed.

Lemma region_cap_witness :
  (List.length (Memory.getFragmentsByRegion "InnerBrain" (snd tie_second))
   <= 1)%nat.
Proof.
  apply (region_cap_is_enforced (config_with_cap 1) 1000 "bbbbbbbbb"
           "second" "InnerBrain" CONTEXT (Some 1) "session_1000_yyyyyyyyy"
           (snd tie_first)).
  split.
  - cbn. repeat constructor. cbn. tauto.
  - cbn. repeat constructor.
Defined.

Lemma insights_count_le cfg e l m :
  (Memory.getFragmentCount (fold_left (Engine.store_insight cfg e) l m)
   <= Memory.getFragmentCount m + List.length l)%nat.
Proof.
  revert m. induction l as [|kb l IH]; intros m; cbn [fold_left].
  - simpl. lia.
  - etransitivity; [apply IH|]. unfold Engine.store_insight.
    pose proof (store_count_le cfg (now e)
                  (random e (2 * fst kb + 1))
                  (Behavior.insight (snd kb)) "InterferenceEngine" MEMORY
                  (Some (Behavior.confidence (snd kb)))
                  (Engine.generateSessionId (now e)
                                            (random e (2 * fst kb))) m).
    cbn [List.length]. lia.
Qed.

Lemma pass_behaviors_le cfg e waves s :
  (2 * List.length
         (Interference.emergentPatterns
            (fst (Interference.processWaveInterference cfg e waves s)))
   <= List.length waves * (List.length waves - 1))%nat.
Proof.
  unfold Interference.processWaveInterference. cbv zeta.
  cbn [fst Interference.emergentPatterns].
  unfold Interference.detectEmergentPatterns. cbn [fst].
  rewrite length_map. unfold Interference.enumerate at 1.
  rewrite length_combine, length_seq, Nat.min_id.
  pose proof (filter_length_le (Interference.qualifies cfg)
                (JsMap.values
                   (fst (fold_left (Interference.score_pair cfg e)
                           (Interference.enumerate
                              (Interference.pairs waves))
                           (JsMap.empty, Interference.activePatterns s)))))
    as Hf.
  unfold JsMap.values in Hf at 2. rewrite length_map in Hf.
  pose proof (score_fold_size cfg e
                (Interference.enumerate (Interference.pairs waves))
                (JsMap.empty, Interference.activePatterns s)) as Hs.
  cbn [fst] in Hs. unfold Interference.enumerate in Hs at 2.
  rewrite length_combine, length_seq, Nat.min_id in Hs.
  unfold JsMap.size in Hs. cbn [JsMap.empty List.length] in Hs.
  pose proof (pairs_length waves). lia.
Qed.

(** X28.  One propagation makes exactly the propagated wave active
    (under the returned id, replacing a wave of the same id), leaves the
    other active waves as they were, and lets the store grow by at most
    [1 + n (n - 1) / 2] fragments, [n] being the number of active waves
    after it: one for the wave and one for each insight. *)
Theorem propagation_growth cfg e region content wt amp targets
  (s : Engine.State) :
  let r := Engine.propagateHolographicWave cfg e region content wt amp
                                           targets s in
  let n := JsMap.size (Engine.activeWaves (snd r)) in
  (exists w,
     Engine.activeWaves (snd r)
     = JsMap.set (fst r) w (Engine.activeWaves s)
     /\ Wave.id w = fst r
     /\ Wave.memoryFragmentIds w
        = [Memory.generateFragmentId (now e) (random e 2)])
  /\ (forall k, k <> fst r ->
        JsMap.get k (Engine.activeWaves (snd r))
        = JsMap.get k (Engine.activeWaves s))
  /\ (n <= S (JsMap.size (Engine.activeWaves s)))%nat
  /\ (2 * (Engine.getFragmentCount (snd r) - Engine.getFragmentCount s - 1)
      <= n * (n - 1))%nat.
Proof.
  cbv zeta. unfold Engine.propagateHolographicWave. cbv zeta.
  cbn [fst snd Engine.activeWaves]. unfold Engine.processWaveInterference.
  cbn [fst snd Engine.activeWaves Engine.holographicMemory
       Engine.interferenceEngine].
  split; [|split; [|split]].
  - eexists. split; [reflexivity|]. split; reflexivity.
  - intros k Hk. now apply get_set_other.
  - apply set_length_le.
  - unfold Engine.getFragmentCount. cbn [Engine.holographicMemory].
    match goal with
    | |- context [fold_left (Engine.store_insight cfg ?e') ?l ?m] =>
        pose proof (insights_count_le cfg e' l m) as Hins
    end.
    unfold Interference.enumerate in Hins at 2.
    rewrite length_combine, length_seq, Nat.min_id in Hins.
    match type of Hins with
    | context [Interference.processWaveInterference cfg ?e1 ?ws ?ie] =>
        pose proof (pass_behaviors_le cfg e1 ws ie) as Hb
    end.
    unfold JsMap.values in Hb at 2 3. rewrite length_map in Hb.
    match type of Hins with
    | context [Memory.storeFragment cfg ?a ?b ?c ?d ?f ?g ?h ?m] =>
        pose proof (store_count_le cfg a b c d f g h m) as Hst
    end.
    unfold JsMap.size. lia.
Qed.

Lemma propagation_growth_witness :
  JsMap.get "other"
    (Engine.activeWaves
       (snd (Engine.propagateHolographicWave defaultHolographicConfig
               (constant_env 5) "UserInput" (PText "hello") INTENT None []
               blank_engine)))
  = JsMap.get "other" (Engine.activeWaves blank_engine).
Proof.
  apply (propagation_growth defaultHolographicConfig (constant_env 5)
           "UserInput" (PText "hello") INTENT None [] blank_engine).
  unfold Engine.propagateHolographicWave. cbv zeta. cbn [fst].
  unfold Engine.generateWaveId. cbn. discriminate.
Defined.

(** X29.  A fragment that is at least 24 hours old gets no temporal
    boost: without a word overlapping the context and without a type
    match it is not relevant, whatever its importance. *)
Theorem stale_fragment_needs_overlap now cs c f :
  (24 * 60 * 60 * 1000 <= now - Fragment.timestamp f)%Z ->
  Memory.commonContextWords cs f = [] ->
  Memory.type_matches c f <> Some true ->
  Memory.temporalBoost now f = 0
  /\ Memory.is_relevant now cs c f = false.
Proof.
  intros Hage Hwords Htype.
  assert (Hboost : Memory.temporalBoost now f = 0).
  { unfold Memory.temporalBoost. cbv zeta. apply Rmax_left.
    apply IZR_le in Hage.
    replace (IZR (24 * 60 * 60 * 1000)) with (24 * (1000 * 60 * 60))
      in Hage by (rewrite !mult_IZR; lra).
    set (h := 1000 * 60 * 60) in *.
    assert (Hh : 0 < h) by (unfold h; lra).
    assert (H : 24 <= IZR (now - Fragment.timestamp f) / h).
    { apply Rmult_le_reg_r with (r := h); [exact Hh|].
      unfold Rdiv. rewrite Rmult_assoc, Rinv_l by lra. lra. }
    lra. }
  split; [exact Hboost|].
  unfold Memory.is_relevant, Memory.relevanceScore.
  rewrite Hwords, Hboost.
  destruct (Memory.type_matches c f) as [[|]|]; [congruence| |reflexivity].
  cbv zeta. apply gtb_false_iff. simpl INR. lra.
Qed.

Lemma stale_fragment_witness :
  Memory.is_relevant 86400000 "{}" empty_object_context
    (Memory.newFragment 0 "r" "alpha" "InnerBrain" MEMORY 1 "s")
  = false.
Proof.
  apply (stale_fragment_needs_overlap 86400000 "{}" empty_object_context
           (Memory.newFragment 0 "r" "alpha" "InnerBrain" MEMORY 1 "s")).
  - simpl. lia.
  - reflexivity.
  - discriminate.
Defined.

(** ** C5: the frequency and the phase set by a propagation *)

Lemma append_inj_r (a b c : string) : a ++ b = a ++ c -> b = c.
Proof.
  induction a as [|x a IH]; simpl; [easy|]. intros [= H]. now apply IH.
Qed.

Lemma generateFragmentId_inj now r1 r2 :
  Memory.generateFragmentId now r1 = Memory.generateFragmentId now r2 ->
  r1 = r2.
Proof.
  unfold Memory.generateFragmentId. intros H.
  apply append_inj_r in H. apply append_inj_r in H.
  now apply append_inj_r in H.
Qed.

Lemma region_count_set P k (f : Fragment.t) (m : JsMap.t Fragment.t) :
  (List.length (filter P (JsMap.values (JsMap.set k f m)))
   <= S (List.length (filter P (JsMap.values m))))%nat.
Proof.
  induction m as [|[k' f'] m IH]; cbn [JsMap.set JsMap.values map snd].
  - cbn [filter]. destruct (P f); simpl; lia.
  - destruct (String.eqb k' k); cbn [map snd filter].
    + fold (JsMap.values m).
      destruct (P f), (P f'); cbn [List.length]; lia.
    + fold (JsMap.values (JsMap.set k f m)). fold (JsMap.values m).
      unfold JsMap.values in IH.
      destruct (P f'); cbn [List.length]; unfold JsMap.values; lia.
Qed.

Lemma get_filter_key {V} (P : string -> bool) k (m : JsMap.t V) :
  JsMap.get k (filter (fun kv => P (fst kv)) m)
  = if P k then JsMap.get k m else None.
Proof.
  induction m as [|[k' v] m IH]; cbn [filter JsMap.get fst].
  - now destruct (P k).
  - destruct (P k') eqn:Hk'; cbn [JsMap.get].
    + destruct (String.eqb_spec k' k) as [->|Hne].
      * now rewrite Hk'.
      * exact IH.
    + destruct (String.eqb_spec k' k) as [->|Hne].
      * rewrite IH. now rewrite Hk'.
      * exact IH.
Qed.

Lemma well_keyed_in_get (m : JsMap.t Fragment.t) (g : Fragment.t) :
  well_keyed m -> In g (JsMap.values m) ->
  JsMap.get (Fragment.id g) m = Some g.
Proof.
  intros [Hnd Hk] Hin. unfold JsMap.values in Hin.
  apply in_map_iff in Hin as [[k v] [Hv Hkv]]. cbn [snd] in Hv. subst v.
  rewrite Forall_forall in Hk. pose proof (Hk _ Hkv) as Hkey.
  cbn [fst snd] in Hkey. subst k. now apply in_get.
Qed.

Lemma well_keyed_cleanup cfg region s :
  well_keyed (Memory.fragments s) ->
  well_keyed (Memory.fragments (Memory.cleanupOldFragments cfg region s)).
Proof.
  intros H. unfold Memory.cleanupOldFragments. cbv zeta.
  destruct (_ <? _)%nat; [|exact H].
  rewrite remove_fold_fragments. now apply well_keyed_filter.
Qed.

Lemma well_keyed_store cfg now rand content region wt imp sid s :
  well_keyed (Memory.fragments s) ->
  well_keyed
    (Memory.fragments
       (snd (Memory.storeFragment cfg now rand content region wt imp sid
                                  s))).
Proof.
  intros H. unfold Memory.storeFragment. cbv zeta. cbn [snd].
  apply well_keyed_cleanup. cbn [Memory.fragments].
  now apply well_keyed_set.
Qed.

(** What a store leaves under a key: the new fragment, or what was
    there. *)
Lemma store_get_cases cfg now rand content region wt imp sid s k f :
  JsMap.get k
    (Memory.fragments
       (snd (Memory.storeFragment cfg now rand content region wt imp sid
                                  s))) = Some f ->
  (k = Memory.generateFragmentId now rand
   /\ f = Memory.newFragment now rand content region wt
            (match imp with Some x => x | None => 0.5 end) sid)
  \/ JsMap.get k (Memory.fragments s) = Some f.
Proof.
  unfold Memory.storeFragment. cbv zeta. cbn [snd]. intros H.
  apply cleanup_get_some in H. cbn [Memory.fragments] in H.
  destruct (String.eqb_spec (Memory.generateFragmentId now rand) k)
    as [<-|Hne].
  - left. split; [reflexivity|].
    change (Memory.generateFragmentId now rand)
      with (Fragment.id
              (Memory.newFragment now rand content region wt
                 (match imp with Some x => x | None => 0.5 end) sid)) in H.
    rewrite get_set_same in H. now injection H as <-.
  - right. rewrite get_set_other in H; [exact H|].
    intros Heq. apply Hne. now rewrite Heq.
Qed.

(** A store into a region that has room keeps the new fragment. *)
Lemma store_keeps_new cfg now rand content region wt imp sid s :
  (List.length (Memory.getFragmentsByRegion region s)
   < maxFragmentsPerRegion (memory cfg))%nat ->
  JsMap.get (Memory.generateFragmentId now rand)
    (Memory.fragments
       (snd (Memory.storeFragment cfg now rand content region wt imp sid
                                  s)))
  = Some (Memory.newFragment now rand content region wt
            (match imp with Some x => x | None => 0.5 end) sid).
Proof.
  intros Hroom. unfold Memory.storeFragment. cbv zeta. cbn [snd].
  unfold Memory.cleanupOldFragments, Memory.regionFragments. cbv zeta.
  cbn [Memory.fragments]. rewrite sort_by_length.
  pose proof (region_count_set (Memory.in_region region)
                (Fragment.id
                   (Memory.newFragment now rand content region wt
                      (match imp with Some x => x | None => 0.5 end) sid))
                (Memory.newFragment now rand content region wt
                   (match imp with Some x => x | None => 0.5 end) sid)
                (Memory.fragments s)) as Hle.
  unfold Memory.getFragmentsByRegion in Hroom.
  match goal with
  | |- context [(?c <? ?n)%nat] =>
      replace (c <? n)%nat with false
        by (symmetry; apply Nat.ltb_ge; lia)
  end.
  cbn [Memory.fragments]. apply get_set_same.
Qed.

(** A store leaves alone a fragment of another region that sits under
    another id. *)
Lemma store_keeps_other cfg now rand content region wt imp sid s k f :
  well_keyed (Memory.fragments s) ->
  JsMap.get k (Memory.fragments s) = Some f ->
  Fragment.sourceRegion f <> region ->
  k <> Memory.generateFragmentId now rand ->
  JsMap.get k
    (Memory.fragments
       (snd (Memory.storeFragment cfg now rand content region wt imp sid
                                  s))) = Some f.
Proof.
  intros Hwf Hget Hreg Hk. unfold Memory.storeFragment. cbv zeta.
  cbn [snd].
  set (fragment := Memory.newFragment now rand content region wt
                     (match imp with Some x => x | None => 0.5 end) sid).
  set (s1 := Memory.mkState _ _ _ _).
  assert (Hwf1 : well_keyed (Memory.fragments s1))
    by (cbn [s1 Memory.fragments]; now apply well_keyed_set).
  assert (Hget1 : JsMap.get k (Memory.fragments s1) = Some f).
  { cbn [s1 Memory.fragments]. rewrite get_set_other; [exact Hget|].
    exact Hk. }
  unfold Memory.cleanupOldFragments. cbv zeta.
  destruct (_ <? _)%nat; [|exact Hget1].
  rewrite remove_fold_fragments.
  rewrite (get_filter_key
             (fun key => negb (id_in (map Fragment.id
                                         (JS.slice_from
                                            (maxFragmentsPerRegion
                                               (memory cfg))
                                            (Memory.regionFragments region
                                                                    s1)))
                                     key))).
  destruct (id_in _ k) eqn:E; [|exact Hget1].
  exfalso. apply id_in_spec in E. apply in_map_iff in E as [g [Hid Hg]].
  assert (Hgrf : In g (Memory.regionFragments region s1)).
  { rewrite <- (firstn_skipn (maxFragmentsPerRegion (memory cfg))
                             (Memory.regionFragments region s1)).
    apply in_or_app. now right. }
  unfold Memory.regionFragments in Hgrf.
  apply (Permutation_in _ (sort_by_perm Memory.newer_first _)) in Hgrf.
  apply filter_In in Hgrf as [Hgv Hgr]. apply in_region_true in Hgr.
  pose proof (well_keyed_in_get _ _ Hwf1 Hgv) as Hgg.
  rewrite Hid, Hget1 in Hgg. injection Hgg as ->. contradiction.
Qed.

Lemma insights_keep cfg e l m k f :
  well_keyed (Memory.fragments m) ->
  JsMap.get k (Memory.fragments m) = Some f ->
  Fragment.sourceRegion f <> "InterferenceEngine" ->
  (forall j, k <> Memory.generateFragmentId (now e) (random e j)) ->
  JsMap.get k
    (Memory.fragments (fold_left (Engine.store_insight cfg e) l m))
  = Some f.
Proof.
  revert m. induction l as [|kb l IH]; intros m Hwf Hget Hreg Hk;
    [exact Hget|].
  cbn [fold_left]. apply IH; try assumption.
  - unfold Engine.store_insight. now apply well_keyed_store.
  - unfold Engine.store_insight. now apply store_keeps_other.
Qed.

(** What the insights leave under a key: an insight, or what was
    there. *)
Lemma insights_get_cases cfg e l m k f :
  JsMap.get k
    (Memory.fragments (fold_left (Engine.store_insight cfg e) l m))
  = Some f ->
  JsMap.get k (Memory.fragments m) = Some f
  \/ (Fragment.sourceRegion f = "InterferenceEngine"
      /\ Fragment.waveType f = MEMORY
      /\ Fragment.frequency f = WaveFrequencies MEMORY
      /\ Fragment.phase f
         = calculatePhase (Fragment.content f) "InterferenceEngine").
Proof.
  revert m. induction l as [|kb l IH]; intros m H; [now left|].
  cbn [fold_left] in H. apply IH in H. destruct H as [H|H]; [|now right].
  unfold Engine.store_insight in H. apply store_get_cases in H.
  destruct H as [[_ ->]|H]; [right | now left].
  now repeat split.
Qed.

(** C5.  For every wave type, source region and payload: the wave that
    [propagateHolographicWave] registers under the id it returns has the
    frequency of the static table and a phase that is a function of the
    text content and the source region alone, lying in [0, 2 pi).  Every
    fragment that the memory holds after the call and did not hold
    before is the fragment created for the wave, with the same table
    frequency and the same phase, or an insight stored under
    [InterferenceEngine], with the table frequency of its type and the
    phase of its own content and region.  The fragment created for the
    wave is in the memory after the call, under the id that the wave
    records, when the memory held each fragment once under its id, the
    source region had room under its cap and is not
    [InterferenceEngine], and no other draw of the call repeats the draw
    of the fragment's id. *)
Theorem propagation_frequency_and_phase :
  forall cfg e sourceRegion content waveType amplitude targetRegions s,
    let r := Engine.propagateHolographicWave cfg e sourceRegion content
               waveType amplitude targetRegions s in
    let text := Engine.extractTextContent content in
    let before := Memory.fragments (Engine.holographicMemory s) in
    let after := Memory.fragments (Engine.holographicMemory (snd r)) in
    let fragmentId := Memory.generateFragmentId (now e) (random e 2) in
    (exists w,
        JsMap.get (fst r) (Engine.activeWaves (snd r)) = Some w
        /\ Wave.frequency w = WaveFrequencies waveType
        /\ Wave.phase w = calculatePhase text sourceRegion
        /\ Wave.memoryFragmentIds w = [fragmentId])
    /\ (forall k f,
          JsMap.get k after = Some f ->
          JsMap.get k before = Some f
          \/ (k = fragmentId
              /\ Fragment.id f = fragmentId
              /\ Fragment.content f = text
              /\ Fragment.sourceRegion f = sourceRegion
              /\ Fragment.waveType f = waveType
              /\ Fragment.frequency f = WaveFrequencies waveType
              /\ Fragment.phase f = calculatePhase text sourceRegion)
          \/ (Fragment.sourceRegion f = "InterferenceEngine"
              /\ Fragment.waveType f = MEMORY
              /\ Fragment.frequency f = WaveFrequencies MEMORY
              /\ Fragment.phase f
                 = calculatePhase (Fragment.content f)
                                  "InterferenceEngine"))
    /\ (well_keyed before ->
        (List.length
           (Memory.getFragmentsByRegion sourceRegion
                                        (Engine.holographicMemory s))
         < maxFragmentsPerRegion (memory cfg))%nat ->
        sourceRegion <> "InterferenceEngine" ->
        (forall j, j <> 2%nat -> random e j <> random e 2) ->
        exists f,
          JsMap.get fragmentId after = Some f
          /\ Fragment.id f = fragmentId
          /\ Fragment.content f = text
          /\ Fragment.sourceRegion f = sourceRegion
          /\ Fragment.waveType f = waveType
          /\ Fragment.frequency f = WaveFrequencies waveType
          /\ Fragment.phase f = calculatePhase text sourceRegion)
    /\ 0 <= calculatePhase text sourceRegion < 2 * PI.
Proof.
  intros cfg e sourceRegion content waveType amplitude targetRegions s.
  cbv zeta. split; [|split; [|split]].
  - eexists. split; [apply get_set_same|].
    simpl. repeat split; reflexivity.
  - intros k f Hget. unfold Engine.propagateHolographicWave in Hget.
    cbv zeta in Hget.
    cbn [snd fst Engine.holographicMemory Engine.processWaveInterference]
      in Hget.
    apply insights_get_cases in Hget. destruct Hget as [Hget|Hins].
    + apply store_get_cases in Hget. destruct Hget as [[-> ->]|Hold].
      * right. left. now repeat split.
      * now left.
    + right. right. exact Hins.
  - intros Hwf Hroom Hreg Hdraws.
    eexists. split.
    + unfold Engine.propagateHolographicWave. cbv zeta.
      cbn [snd fst Engine.holographicMemory
           Engine.processWaveInterference].
      apply insights_keep.
      * now apply well_keyed_store.
      * now apply store_keeps_new.
      * exact Hreg.
      * intros j Heq. apply generateFragmentId_inj in Heq.
        cbn [skip_draws random] in Heq.
        symmetry in Heq. revert Heq. apply Hdraws. lia.
    + now repeat split.
  - apply calculatePhase_range.
Qed.

Lemma tally_inj (j k : nat) : tally j = tally k -> j = k.
Proof.
  revert k. induction j as [|j IH]; intros [|k]; simpl; try easy.
  intros [= H]. f_equal. now apply IH.
Qed.

Lemma propagation_witness :
  exists f,
    JsMap.get (Memory.generateFragmentId 5 "xx")
      (Memory.fragments
         (Engine.holographicMemory
            (snd (Engine.propagateHolographicWave defaultHolographicConfig
                    (tally_env 5) "FrontalLobe" (PText "hello") INTENT
                    None [] blank_engine)))) = Some f
    /\ Fragment.frequency f = WaveFrequencies INTENT
    /\ Fragment.phase f = calculatePhase "hello" "FrontalLobe".
Proof.
  pose proof (propagation_frequency_and_phase defaultHolographicConfig
                (tally_env 5) "FrontalLobe" (PText "hello") INTENT None []
                blank_engine) as H.
  cbv zeta in H. destruct H as (_ & _ & H & _).
  destruct H as [f Hf].
  - split.
    + cbn. repeat constructor; cbn; intuition discriminate.
    + cbn. repeat constructor.
  - cbn. lia.
  - discriminate.
  - intros j Hj Heq. apply Hj. now apply tally_inj in Heq.
  - exists f. destruct Hf as (H1 & _ & _ & _ & _ & H2 & H3).
    now repeat split.
Defined.
